(** * example-fs: a key-value store with a memory and a file backend

    Shallow embedding of [main.go] (the [Storage] interface, [MemStorage],
    [FileStorage], [NewMemStorage], [NewFileStorage], the handlers
    [getHandler] and [postHandler], and [main] with its routes) together
    with the parts of the libraries the program calls: [unicode/utf8],
    [encoding/json] at the type [map[string]string], the [*os.File]
    operations [OpenFile], [Truncate], [Seek], [Write] and the reads done by
    the JSON decoder, the [http.ResponseWriter] and [http.Error] of
    [net/http], and the matching of the routes by [gorilla/mux].

    Conventions.
    - A Go [string] (and a [[]byte]) is a Rocq [string]: a sequence of 8-bit
      bytes, not necessarily valid UTF-8.
    - A Go [map[string]string] is [option (gmap string string)]; [None] is the
      nil map.
    - A Go call either returns or panics: [outcome].
    - The operating system is a [World]: the files by name, the faults the
      system calls to come will meet, and the trace of the calls made. The
      JSON decoder fills its buffer with one [Read] per refill; how many
      refills it needs depends on its buffer, not on the program: the trace
      keeps them as the single entry [sys_Reads], and they meet one fault, the
      one of the first [Read] that fails.
    - The server serves its requests one after the other. *)

From Stdlib Require Import String Ascii NArith Lia.
From stdpp Require Import gmap strings list fin_maps sorting.

Local Open Scope string_scope.
Local Open Scope N_scope.

(** ** Bytes *)

Definition byte_val (c : ascii) : N := N_of_ascii c.

(** Go's conversion [byte(x)]: the low eight bits. *)
Definition to_byte (n : N) : ascii := ascii_of_N (n mod 256).

Definition dquote : ascii := "034"%char.
Definition backslash : ascii := "092"%char.
Definition newline : ascii := "010"%char.

Definition str1 (c : ascii) : string := String c "".

(** ** unicode/utf8 *)

Module utf8.

Definition RuneError : N := 0xFFFD.
Definition RuneSelf : N := 0x80.
Definition MaxRune : N := 0x10FFFF.
Definition UTFMax : nat := 4.

Definition surrogateMin : N := 0xD800.
Definition surrogateMax : N := 0xDFFF.

Definition t2 : N := 0xC0.
Definition t3 : N := 0xE0.
Definition t4 : N := 0xF0.
Definition tx : N := 0x80.
Definition maskx : N := 0x3F.
Definition mask2 : N := 0x1F.
Definition mask3 : N := 0x0F.
Definition mask4 : N := 0x07.

Definition rune1Max : N := 0x7F.
Definition rune2Max : N := 0x7FF.
Definition rune3Max : N := 0xFFFF.

Definition locb : N := 0x80.
Definition hicb : N := 0xBF.

(** The table [first]: what the first byte of a sequence announces. [as]
    is an ASCII byte, [xx] an invalid first byte, and a leading byte gives
    the size of the sequence and the range accepted for the second byte. *)
Inductive firstInfo : Type :=
| as_
| xx
| lead (sz : nat) (lo hi : N).

Definition first (p0 : ascii) : firstInfo :=
  let b := byte_val p0 in
  if b <=? 0x7F then as_
  else if b <=? 0xC1 then xx
  else if b <=? 0xDF then lead 2 locb hicb
  else if b =? 0xE0 then lead 3 0xA0 hicb
  else if b <=? 0xEC then lead 3 locb hicb
  else if b =? 0xED then lead 3 locb 0x9F
  else if b <=? 0xEF then lead 3 locb hicb
  else if b =? 0xF0 then lead 4 0x90 hicb
  else if b <=? 0xF3 then lead 4 locb hicb
  else if b =? 0xF4 then lead 4 locb 0x8F
  else xx.

Definition outside (b lo hi : N) : bool := (b <? lo) || (hi <? b).

(** [DecodeRune p]: the first rune of [p] and its width in bytes;
    [(RuneError, 0)] on the empty input and [(RuneError, 1)] where the
    encoding is invalid. *)
Definition DecodeRune (p : string) : N * nat :=
  match p with
  | EmptyString => (RuneError, 0%nat)
  | String p0 p' =>
    match first p0 with
    | as_ => (byte_val p0, 1%nat)
    | xx => (RuneError, 1%nat)
    | lead sz lo hi =>
      if (String.length p <? sz)%nat then (RuneError, 1%nat) else
      match p' with
      | EmptyString => (RuneError, 1%nat)
      | String c1 p'' =>
        let b1 := byte_val c1 in
        if outside b1 lo hi then (RuneError, 1%nat) else
        if (sz <=? 2)%nat then
          (N.lor (N.shiftl (N.land (byte_val p0) mask2) 6) (N.land b1 maskx),
           2%nat)
        else
        match p'' with
        | EmptyString => (RuneError, 1%nat)
        | String c2 p''' =>
          let b2 := byte_val c2 in
          if outside b2 locb hicb then (RuneError, 1%nat) else
          if (sz <=? 3)%nat then
            (N.lor (N.lor (N.shiftl (N.land (byte_val p0) mask3) 12)
                          (N.shiftl (N.land b1 maskx) 6))
                   (N.land b2 maskx),
             3%nat)
          else
          match p''' with
          | EmptyString => (RuneError, 1%nat)
          | String c3 _ =>
            let b3 := byte_val c3 in
            if outside b3 locb hicb then (RuneError, 1%nat) else
            (N.lor (N.lor (N.lor (N.shiftl (N.land (byte_val p0) mask4) 18)
                                 (N.shiftl (N.land b1 maskx) 12))
                          (N.shiftl (N.land b2 maskx) 6))
                   (N.land b3 maskx),
             4%nat)
          end
        end
      end
    end
  end.

Definition enc3 (r : N) : string :=
  String (to_byte (N.lor t3 (N.shiftr r 12)))
    (String (to_byte (N.lor tx (N.land (N.shiftr r 6) maskx)))
      (String (to_byte (N.lor tx (N.land r maskx))) "")).

(** [EncodeRune r]: the UTF-8 encoding of [r]; a surrogate half or a value
    above [MaxRune] is encoded as [RuneError]. Runes are never negative
    here. *)
Definition EncodeRune (r : N) : string :=
  if r <=? rune1Max then str1 (to_byte r)
  else if r <=? rune2Max then
    String (to_byte (N.lor t2 (N.shiftr r 6)))
      (String (to_byte (N.lor tx (N.land r maskx))) "")
  else if (MaxRune <? r) || ((surrogateMin <=? r) && (r <=? surrogateMax))
  then enc3 RuneError
  else if r <=? rune3Max then enc3 r
  else
    String (to_byte (N.lor t4 (N.shiftr r 18)))
      (String (to_byte (N.lor tx (N.land (N.shiftr r 12) maskx)))
        (String (to_byte (N.lor tx (N.land (N.shiftr r 6) maskx)))
          (String (to_byte (N.lor tx (N.land r maskx))) ""))).

(** [ValidString s]: [s] consists of valid UTF-8 sequences only, that is,
    decoding it rune by rune never meets [(RuneError, 1)]. *)
Fixpoint ValidString (s : string) : bool :=
  match s with
  | EmptyString => true
  | String c t =>
    if byte_val c <? RuneSelf then ValidString t
    else
      match snd (DecodeRune s), t with
      | 2%nat, String _ t1 => ValidString t1
      | 3%nat, String _ (String _ t2) => ValidString t2
      | 4%nat, String _ (String _ (String _ t3)) => ValidString t3
      | _, _ => false
      end
  end.

End utf8.

(** ** unicode/utf16 *)

Module utf16.

Definition surr1 : N := 0xd800.
Definition surr2 : N := 0xdc00.
Definition surr3 : N := 0xe000.
Definition surrSelf : N := 0x10000.
Definition replacementChar : N := 0xFFFD.

Definition IsSurrogate (r : N) : bool := (surr1 <=? r) && (r <? surr3).

(** [DecodeRune r1 r2]: the code point of a surrogate pair, or the
    replacement character if the pair is not valid. *)
Definition DecodeRune (r1 r2 : N) : N :=
  if (surr1 <=? r1) && (r1 <? surr2) && (surr2 <=? r2) && (r2 <? surr3)
  then N.lor (N.shiftl (r1 - surr1) 10) (r2 - surr2) + surrSelf
  else replacementChar.

End utf16.

(** ** Go error values

    The program builds errors with [fmt.Errorf] and receives errors from
    [os] and [encoding/json]; it inspects them with [err != nil] and
    [err != io.EOF], and its HTTP handlers print [err.Error()]. *)

Inductive error : Type :=
| errorString (s : string)                 (* [fmt.Errorf] without [%w] *)
| wrapError (prefix : string) (err : error)
    (* [fmt.Errorf (prefix ++ "%w") err] *)
| io_EOF
| io_ErrUnexpectedEOF
| json_SyntaxError
| json_UnmarshalTypeError
| os_Error (text : string).                (* an error of a system call *)

(** A Go call returns or panics. *)
Inductive outcome (A : Type) : Type :=
| Returns (a : A)
| Panics (msg : string).
Arguments Returns {A} a.
Arguments Panics {A} msg.

Section ErrorText.

(** The wording of the JSON decoder's own errors is not modelled. *)
Variable json_text : error -> string.

(** [err.Error()] *)
Fixpoint Error (e : error) : string :=
  match e with
  | errorString s => s
  | wrapError prefix err => prefix +:+ Error err
  | io_EOF => "EOF"
  | io_ErrUnexpectedEOF => "unexpected EOF"
  | json_SyntaxError => json_text e
  | json_UnmarshalTypeError => json_text e
  | os_Error text => text
  end.

End ErrorText.

(** ** The Go map [map[string]string] *)

Abbreviation gomap := (option (gmap string string)).

(** [make(map[string]string)] *)
Definition make_map : gomap := Some ∅.

(** [value, ok = m[key]]: a nil map reads as an empty one. *)
Definition map_index (m : gomap) (key : string) : string * bool :=
  match m with
  | None => ("", false)
  | Some g =>
    match g !! key with
    | Some value => (value, true)
    | None => ("", false)
    end
  end.

(** [m[key] = value]: panics on a nil map. *)
Definition map_assign (m : gomap) (key value : string) : outcome gomap :=
  match m with
  | None => Panics "assignment to entry in nil map"
  | Some g => Returns (Some (<[key := value]> g))
  end.

(** ** encoding/json, encoder *)

Module json.

Definition hex : string := "0123456789abcdef".

Definition hex_at (i : N) : ascii :=
  match String.get (N.to_nat i) hex with
  | Some c => c
  | None => "0"%char
  end.

(** [htmlSafeSet]: the ASCII bytes written as they are when HTML escaping
    is on (the encoder's default): all from space to DEL but the double
    quote, the backslash and the characters less-than, greater-than and
    ampersand. *)
Definition htmlSafeSet (b : ascii) : bool :=
  let n := byte_val b in
  (0x20 <=? n) && (n <=? 0x7F)
  && negb ((n =? 0x22) || (n =? 0x26) || (n =? 0x3C) || (n =? 0x3E)
           || (n =? 0x5C)).

(** The escape of an ASCII byte outside [htmlSafeSet]. *)
Definition escape_ascii (b : ascii) : string :=
  let n := byte_val b in
  if (n =? 0x5C) || (n =? 0x22) then String backslash (str1 b)
  else if n =? 0x08 then String backslash "b"
  else if n =? 0x0C then String backslash "f"
  else if n =? 0x0A then String backslash "n"
  else if n =? 0x0D then String backslash "r"
  else if n =? 0x09 then String backslash "t"
  else String backslash "u00" +:+ String (hex_at (N.shiftr n 4))
                     (str1 (hex_at (N.land n 0xF))).

(** [src[i : i+n]] with [n = min (len(src) - i, utf8.UTFMax)]. *)
Definition take_UTFMax (s : string) : string :=
  String.substring 0 utf8.UTFMax s.

(** The body of [appendString] with [escapeHTML = true]: the loop over
    [src], without the two quotes. *)
Fixpoint escape (src : string) : string :=
  match src with
  | EmptyString => ""
  | String b t =>
    if byte_val b <? utf8.RuneSelf then
      (if htmlSafeSet b then str1 b else escape_ascii b) +:+ escape t
    else
      let '(c, size) := utf8.DecodeRune (take_UTFMax src) in
      if (c =? utf8.RuneError) && (size =? 1)%nat then
        String backslash "ufffd" +:+ escape t
      else
        match size, t with
        | 2%nat, String b1 t1 => String b (String b1 (escape t1))
        | 3%nat, String b1 (String b2 t2) =>
          if (c =? 0x2028) || (c =? 0x2029) then
            String backslash "u202" +:+ String (hex_at (N.land c 0xF)) (escape t2)
          else String b (String b1 (String b2 (escape t2)))
        | 4%nat, String b1 (String b2 (String b3 t3)) =>
          String b (String b1 (String b2 (String b3 (escape t3))))
        | _, _ => ""
        end
  end.

Definition appendString (src : string) : string :=
  String dquote (escape src) +:+ str1 dquote.

(** The keys are written in increasing byte order. *)
Definition key_le (x y : string * string) : Prop := String.le x.1 y.1.

Definition sorted_entries (g : gmap string string) : list (string * string) :=
  merge_sort key_le (map_to_list g).

Definition encode_entry (kv : string * string) : string :=
  appendString kv.1 +:+ ":" +:+ appendString kv.2.

Fixpoint encode_entries (first : bool) (kvs : list (string * string))
  : string :=
  match kvs with
  | [] => ""
  | kv :: kvs' =>
    (if first then "" else ",") +:+ encode_entry kv
      +:+ encode_entries false kvs'
  end.

(** [mapEncoder.encode] *)
Definition mapEncoder (m : gomap) : string :=
  match m with
  | None => "null"
  | Some g => "{" +:+ encode_entries true (sorted_entries g) +:+ "}"
  end.

(** The bytes [Encoder.Encode(&m)] hands to its writer in one [Write]:
    the encoding of the map and a newline. *)
Definition Encode_bytes (m : gomap) : string :=
  mapEncoder m +:+ str1 newline.

(** *** Decoder: the scanner

    The scanner of [scanner.go] reads the input byte by byte; here it is
    written by recursive descent. It accepts a prefix of the input
    ([Scanned], with what follows), refuses a byte ([SyntaxErr]), or
    reaches the end of the input first ([NeedMore]). *)

Inductive scan (A : Type) : Type :=
| Scanned (a : A)
| SyntaxErr
| NeedMore.
Arguments Scanned {A} a.
Arguments SyntaxErr {A}.
Arguments NeedMore {A}.

Definition scan_bind {A B} (x : scan A) (k : A -> scan B) : scan B :=
  match x with
  | Scanned a => k a
  | SyntaxErr => SyntaxErr
  | NeedMore => NeedMore
  end.

Definition maxNestingDepth : N := 10000.

Definition isSpace (c : ascii) : bool :=
  let n := byte_val c in
  (n =? 0x20) || (n =? 0x09) || (n =? 0x0D) || (n =? 0x0A).

Fixpoint skipSpace (s : string) : string :=
  match s with
  | EmptyString => ""
  | String c t => if isSpace c then skipSpace t else s
  end.

Definition isDigit (c : ascii) : bool :=
  (0x30 <=? byte_val c) && (byte_val c <=? 0x39).

Definition isDigit19 (c : ascii) : bool :=
  (0x31 <=? byte_val c) && (byte_val c <=? 0x39).

(** The value of a hexadecimal digit ([getu4]); the scanner accepts the
    same characters in [stateInStringEscU]. *)
Definition hexval (c : ascii) : option N :=
  let n := byte_val c in
  if (0x30 <=? n) && (n <=? 0x39) then Some (n - 0x30)
  else if (0x61 <=? n) && (n <=? 0x66) then Some (n - 0x61 + 10)
  else if (0x41 <=? n) && (n <=? 0x46) then Some (n - 0x41 + 10)
  else None.

Definition isHex (c : ascii) : bool :=
  match hexval c with Some _ => true | None => false end.

Definition isSimpleEscape (c : ascii) : bool :=
  let n := byte_val c in
  (n =? 0x62) || (n =? 0x66) || (n =? 0x6E) || (n =? 0x72) || (n =? 0x74)
  || (n =? 0x5C) || (n =? 0x2F) || (n =? 0x22).

Definition keep (pre : string) (x : scan (string * string))
  : scan (string * string) :=
  scan_bind x (fun '(raw, rest) => Scanned (pre +:+ raw, rest)).

(** [stateInString] and the escape states: the input after the opening
    quote; gives the bytes of the literal between the quotes and the input
    after the closing quote. *)
Fixpoint scan_string (s : string) : scan (string * string) :=
  match s with
  | EmptyString => NeedMore
  | String c t =>
    if Ascii.eqb c dquote then Scanned ("", t)
    else if Ascii.eqb c backslash then
      match t with
      | EmptyString => NeedMore
      | String e t1 =>
        if isSimpleEscape e then keep (String c (str1 e)) (scan_string t1)
        else if Ascii.eqb e "u" then
          match t1 with
          | EmptyString => NeedMore
          | String h1 t2 =>
            if negb (isHex h1) then SyntaxErr else
            match t2 with
            | EmptyString => NeedMore
            | String h2 t3 =>
              if negb (isHex h2) then SyntaxErr else
              match t3 with
              | EmptyString => NeedMore
              | String h3 t4 =>
                if negb (isHex h3) then SyntaxErr else
                match t4 with
                | EmptyString => NeedMore
                | String h4 t5 =>
                  if negb (isHex h4) then SyntaxErr else
                  keep (String c (String e (String h1 (String h2
                          (String h3 (str1 h4))))))
                       (scan_string t5)
                end
              end
            end
          end
        else SyntaxErr
      end
    else if byte_val c <? 0x20 then SyntaxErr
    else keep (str1 c) (scan_string t)
  end.

(** The states of a number: [stateNeg], [state0], [state1], [stateDot],
    [stateDot0], [stateE], [stateESign], [stateE0]. *)
Inductive numState : Type :=
| stateNeg | state0 | state1 | stateDot | stateDot0
| stateE | stateESign | stateE0.

(** The states in which the number may end. *)
Definition numEnd (st : numState) : bool :=
  match st with
  | state0 | state1 | stateDot0 | stateE0 => true
  | _ => false
  end.

Definition isExp (c : ascii) : bool :=
  (byte_val c =? 0x65) || (byte_val c =? 0x45).

(** Gives the input after the number. A number that may end where the
    input ends is accepted with nothing after it. *)
Fixpoint scan_number (st : numState) (s : string) : scan string :=
  match s with
  | EmptyString => if numEnd st then Scanned "" else NeedMore
  | String c t =>
    match st with
    | stateNeg =>
      if Ascii.eqb c "0" then scan_number state0 t
      else if isDigit19 c then scan_number state1 t
      else SyntaxErr
    | state1 =>
      if isDigit c then scan_number state1 t
      else if Ascii.eqb c "." then scan_number stateDot t
      else if isExp c then scan_number stateE t
      else Scanned s
    | state0 =>
      if Ascii.eqb c "." then scan_number stateDot t
      else if isExp c then scan_number stateE t
      else Scanned s
    | stateDot =>
      if isDigit c then scan_number stateDot0 t else SyntaxErr
    | stateDot0 =>
      if isDigit c then scan_number stateDot0 t
      else if isExp c then scan_number stateE t
      else Scanned s
    | stateE =>
      if Ascii.eqb c "+" || Ascii.eqb c "-" then scan_number stateESign t
      else if isDigit c then scan_number stateE0 t
      else SyntaxErr
    | stateESign =>
      if isDigit c then scan_number stateE0 t else SyntaxErr
    | stateE0 =>
      if isDigit c then scan_number stateE0 t else Scanned s
    end
  end.

(** The rest of the literals [true], [false] and [null] after their first
    letter. *)
Fixpoint scan_word (w s : string) : scan string :=
  match w with
  | EmptyString => Scanned s
  | String a w' =>
    match s with
    | EmptyString => NeedMore
    | String c t => if Ascii.eqb a c then scan_word w' t else SyntaxErr
    end
  end.

(** What a value is, for the decoder: a string literal with its bytes
    between the quotes, or one of the other kinds. *)
Inductive vkind : Type :=
| VString (raw : string)
| VNull
| VBool
| VNumber
| VObject
| VArray.

Definition tagged (k : vkind) (x : scan string) : scan (vkind * string) :=
  scan_bind x (fun rest => Scanned (k, rest)).

(** [scan_value fuel depth s]: one value at the head of [s] (after white
    space), nested values included, where [depth] is the number of open
    brackets around it; gives its kind and the input after it.
    [scan_members] reads the members of an object from a key on, to the
    closing brace; [scan_elements] the elements of an array from an element
    on, to the closing bracket. Every call consumes a byte, so fuel equal
    to the length of the input is enough (lemma [scan_fuel]). *)
Fixpoint scan_value (fuel : nat) (depth : N) (s : string) {struct fuel}
  : scan (vkind * string) :=
  match fuel with
  | O => NeedMore
  | S fuel' =>
    match skipSpace s with
    | EmptyString => NeedMore
    | String c t =>
      if Ascii.eqb c "{" then
        if maxNestingDepth <? depth + 1 then SyntaxErr else
        match skipSpace t with
        | EmptyString => NeedMore
        | String c1 t1 =>
          if Ascii.eqb c1 "}" then Scanned (VObject, t1)
          else tagged VObject (scan_members fuel' (depth + 1) t)
        end
      else if Ascii.eqb c "[" then
        if maxNestingDepth <? depth + 1 then SyntaxErr else
        match skipSpace t with
        | EmptyString => NeedMore
        | String c1 t1 =>
          if Ascii.eqb c1 "]" then Scanned (VArray, t1)
          else
            scan_bind (scan_value fuel' (depth + 1) t) (fun '(_, r) =>
            tagged VArray (scan_elements fuel' (depth + 1) r))
        end
      else if Ascii.eqb c dquote then
        scan_bind (scan_string t)
                  (fun '(raw, rest) => Scanned (VString raw, rest))
      else if Ascii.eqb c "-" then tagged VNumber (scan_number stateNeg t)
      else if Ascii.eqb c "0" then tagged VNumber (scan_number state0 t)
      else if Ascii.eqb c "t" then tagged VBool (scan_word "rue" t)
      else if Ascii.eqb c "f" then tagged VBool (scan_word "alse" t)
      else if Ascii.eqb c "n" then tagged VNull (scan_word "ull" t)
      else if isDigit19 c then tagged VNumber (scan_number state1 t)
      else SyntaxErr
    end
  end
with scan_members (fuel : nat) (depth : N) (s : string) {struct fuel}
  : scan string :=
  match fuel with
  | O => NeedMore
  | S fuel' =>
    match skipSpace s with
    | EmptyString => NeedMore
    | String c t =>
      if negb (Ascii.eqb c dquote) then SyntaxErr else
      scan_bind (scan_string t) (fun '(_, r1) =>
      match skipSpace r1 with
      | EmptyString => NeedMore
      | String c1 t1 =>
        if negb (Ascii.eqb c1 ":") then SyntaxErr else
        scan_bind (scan_value fuel' depth t1) (fun '(_, r2) =>
        match skipSpace r2 with
        | EmptyString => NeedMore
        | String c2 t2 =>
          if Ascii.eqb c2 "," then scan_members fuel' depth t2
          else if Ascii.eqb c2 "}" then Scanned t2
          else SyntaxErr
        end)
      end)
    end
  end
with scan_elements (fuel : nat) (depth : N) (s : string) {struct fuel}
  : scan string :=
  match fuel with
  | O => NeedMore
  | S fuel' =>
    match skipSpace s with
    | EmptyString => NeedMore
    | String c t =>
      if Ascii.eqb c "," then
        scan_bind (scan_value fuel' depth t) (fun '(_, r) =>
        scan_elements fuel' depth r)
      else if Ascii.eqb c "]" then Scanned t
      else SyntaxErr
    end
  end.

(** *** Decoder: [unquoteBytes]

    The bytes of a string literal between its quotes, with the escapes
    replaced and invalid UTF-8 coerced to the replacement character. [None]
    is the [ok = false] of the source, which a literal accepted by the
    scanner never gives (lemma [scan_string_unquote]). *)

Definition getu4 (h1 h2 h3 h4 : ascii) : option N :=
  match hexval h1, hexval h2, hexval h3, hexval h4 with
  | Some a, Some b, Some c, Some d => Some (((a * 16 + b) * 16 + c) * 16 + d)
  | _, _, _, _ => None
  end.

Definition simpleEscape (e : ascii) : option ascii :=
  let n := byte_val e in
  if (n =? 0x22) || (n =? 0x5C) || (n =? 0x2F) || (n =? 0x27) then Some e
  else if n =? 0x62 then Some "008"%char
  else if n =? 0x66 then Some "012"%char
  else if n =? 0x6E then Some "010"%char
  else if n =? 0x72 then Some "013"%char
  else if n =? 0x74 then Some "009"%char
  else None.

Definition emit (pre : string) (x : option string) : option string :=
  match x with
  | Some out => Some (pre +:+ out)
  | None => None
  end.

Fixpoint unquote (s : string) : option string :=
  match s with
  | EmptyString => Some ""
  | String c t =>
    if Ascii.eqb c backslash then
      match t with
      | EmptyString => None
      | String e t1 =>
        if Ascii.eqb e "u" then
          match t1 with
          | String h1 (String h2 (String h3 (String h4 t5))) =>
            match getu4 h1 h2 h3 h4 with
            | None => None
            | Some rr =>
              if utf16.IsSurrogate rr then
                match t5 with
                | String b' (String u' (String g1 (String g2 (String g3
                    (String g4 t11))))) =>
                  match
                    (if Ascii.eqb b' backslash && Ascii.eqb u' "u"
                     then getu4 g1 g2 g3 g4 else None)
                  with
                  | Some rr1 =>
                    let dec := utf16.DecodeRune rr rr1 in
                    if negb (dec =? utf16.replacementChar) then
                      emit (utf8.EncodeRune dec) (unquote t11)
                    else
                      emit (utf8.EncodeRune utf16.replacementChar)
                           (unquote t5)
                  | None =>
                    emit (utf8.EncodeRune utf16.replacementChar)
                         (unquote t5)
                  end
                | _ =>
                  emit (utf8.EncodeRune utf16.replacementChar) (unquote t5)
                end
              else emit (utf8.EncodeRune rr) (unquote t5)
            end
          | _ => None
          end
        else
          match simpleEscape e with
          | Some x => emit (str1 x) (unquote t1)
          | None => None
          end
      end
    else if Ascii.eqb c dquote || (byte_val c <? 0x20) then None
    else if byte_val c <? utf8.RuneSelf then emit (str1 c) (unquote t)
    else
      let '(rr, size) := utf8.DecodeRune s in
      match size, t with
      | 1%nat, _ => emit (utf8.EncodeRune rr) (unquote t)
      | 2%nat, String _ t1 => emit (utf8.EncodeRune rr) (unquote t1)
      | 3%nat, String _ (String _ t2) =>
        emit (utf8.EncodeRune rr) (unquote t2)
      | 4%nat, String _ (String _ (String _ t3)) =>
        emit (utf8.EncodeRune rr) (unquote t3)
      | _, _ => None
      end
  end.

Definition unquote_string (raw : string) : string :=
  match unquote raw with
  | Some out => out
  | None => ""
  end.

(** *** Decoder: an object into a [map[string]string]

    [d.object] for a map with string keys and string elements. An element
    that is a string literal is stored unquoted; [null] leaves the zero
    value; any other value is a type error, which the decoder records
    ([saved], only the fact is kept) before it goes on: the key is stored
    with the zero value. A key met again is overwritten. *)

Definition element (k : vkind) : string * bool :=
  match k with
  | VString raw => (unquote_string raw, false)
  | VNull => ("", false)
  | VBool | VNumber | VObject | VArray => ("", true)
  end.

(** The members from a key on, to the closing brace. *)
Fixpoint object_members (fuel : nat) (s : string)
    (g : gmap string string) (saved : bool) {struct fuel}
  : scan (gmap string string * bool * string) :=
  match fuel with
  | O => NeedMore
  | S fuel' =>
    match skipSpace s with
    | EmptyString => NeedMore
    | String c t =>
      if negb (Ascii.eqb c dquote) then SyntaxErr else
      scan_bind (scan_string t) (fun '(rawkey, r1) =>
      match skipSpace r1 with
      | EmptyString => NeedMore
      | String c1 t1 =>
        if negb (Ascii.eqb c1 ":") then SyntaxErr else
        scan_bind (scan_value fuel' 1 t1) (fun '(k, r2) =>
        let '(value, bad) := element k in
        let g' := <[unquote_string rawkey := value]> g in
        let saved' := saved || bad in
        match skipSpace r2 with
        | EmptyString => NeedMore
        | String c2 t2 =>
          if Ascii.eqb c2 "," then object_members fuel' t2 g' saved'
          else if Ascii.eqb c2 "}" then Scanned (g', saved', t2)
          else SyntaxErr
        end)
      end)
    end
  end.

(** The error [Decode] returns when the stream ends inside the first
    value: the stream's own error, with the end of file inside a value
    turned into [io.ErrUnexpectedEOF]. *)
Definition truncated (term : error) : error :=
  match term with
  | io_EOF => io_ErrUnexpectedEOF
  | _ => term
  end.

(** A literal at the top is complete once a byte follows it, whatever the
    byte, or once the stream ends with [io.EOF]; if the stream ends with
    another error right after the literal, [Decode] returns that error. *)
Definition top_literal (rest : string) (term : error) (done : option error)
  : option error :=
  match rest, term with
  | EmptyString, io_EOF => done
  | EmptyString, _ => Some term
  | _, _ => done
  end.

Definition top_scan (x : scan string) (term : error) (done : option error)
  : option error :=
  match x with
  | Scanned rest => top_literal rest term done
  | SyntaxErr => Some json_SyntaxError
  | NeedMore => Some (truncated term)
  end.

(** [Decoder.Decode(&m)] on a stream that delivers [data] and then ends
    with the error [term] ([io.EOF] at the end of a file): the first value
    of the stream is read, and stored into [m] if it is an object or
    [null]. What follows the first value is not looked at. White space
    alone is [io.EOF]. [Decode_fuel] has the fuel of the scanners as an
    argument; [Decode] gives them the length of the input, which is enough
    (lemma [Decode_fuel_enough]). *)
Definition Decode_fuel (fuel : nat) (data : string) (term : error) (m : gomap)
  : gomap * option error :=
  match skipSpace data with
  | EmptyString => (m, Some term)
  | String c t =>
    if Ascii.eqb c "{" then
      let g0 := match m with Some g => g | None => ∅ end in
      let r :=
        match skipSpace t with
        | EmptyString => NeedMore
        | String c1 t1 =>
          if Ascii.eqb c1 "}" then Scanned (g0, false, t1)
          else object_members fuel t g0 false
        end in
      match r with
      | Scanned (g, saved, _) =>
        (Some g, if saved then Some json_UnmarshalTypeError else None)
      | SyntaxErr => (m, Some json_SyntaxError)
      | NeedMore => (m, Some (truncated term))
      end
    else if Ascii.eqb c "n" then
      match scan_word "ull" t with
      | Scanned rest =>
        match top_literal rest term None with
        | None => (None, None)
        | Some e => (m, Some e)
        end
      | SyntaxErr => (m, Some json_SyntaxError)
      | NeedMore => (m, Some (truncated term))
      end
    else
      let mismatch := Some json_UnmarshalTypeError in
      let err :=
        if Ascii.eqb c "[" then
          match scan_value fuel 0 (String c t) with
          | Scanned _ => mismatch
          | SyntaxErr => Some json_SyntaxError
          | NeedMore => Some (truncated term)
          end
        else if Ascii.eqb c dquote then
          top_scan (scan_bind (scan_string t) (fun '(_, r) => Scanned r))
                   term mismatch
        else if Ascii.eqb c "-" then
          top_scan (scan_number stateNeg t) term mismatch
        else if Ascii.eqb c "0" then
          top_scan (scan_number state0 t) term mismatch
        else if Ascii.eqb c "t" then
          top_scan (scan_word "rue" t) term mismatch
        else if Ascii.eqb c "f" then
          top_scan (scan_word "alse" t) term mismatch
        else if isDigit19 c then
          top_scan (scan_number state1 t) term mismatch
        else Some json_SyntaxError in
      (m, err)
  end.

Definition Decode (data : string) (term : error) (m : gomap)
  : gomap * option error :=
  Decode_fuel (String.length data) data term m.

End json.

(** ** Calls with state

    A Go call that reads and writes a state [S] and returns an [A] or
    panics. *)

Definition Go (S A : Type) : Type := S -> outcome A * S.

Global Instance Go_ret {S} : MRet (Go S) := fun _ a s => (Returns a, s).

Global Instance Go_bind {S} : MBind (Go S) := fun _ _ k x s =>
  match x s with
  | (Returns a, s') => k a s'
  | (Panics msg, s') => (Panics msg, s')
  end.

Definition panic {S A} (msg : string) : Go S A := fun s => (Panics msg, s).
Definition get {S} : Go S S := fun s => (Returns s, s).
Definition put {S} (s : S) : Go S unit := fun _ => (Returns tt, s).

(** Runs a call on a part of the state. *)
Definition zoom {S T A} (proj : S -> T) (upd : T -> S -> S) (x : Go T A)
  : Go S A :=
  fun s => let '(r, t) := x (proj s) in (r, upd t s).

(** ** The operating system: files *)

(** [sys_Reads name] stands for the [Read] calls that one decoding makes on
    the file, one or more, taken together; the other entries are one system
    call each. *)
Inductive syscall : Type :=
| sys_OpenFile (name : string)
| sys_Reads (name : string)
| sys_Truncate (name : string) (size : nat)
| sys_Seek (name : string) (offset : nat) (whence : nat)
| sys_Write (name : string) (b : string).

(** A failing call: the text of its error and, for a read or a write, the
    number of bytes that went through before it failed. *)
Record fault : Type := { fault_text : string; fault_count : nat }.

(** [files]: the content of each file; [faults]: what the next entries of
    the trace meet, [None] or nothing left for one that goes well; [trace]:
    the calls made so far, the latest first. *)
Record World : Type := {
  files : gmap string string;
  faults : list (option fault);
  trace : list syscall
}.

Definition contents (w : World) (name : string) : string :=
  default "" (files w !! name).

Definition set_contents (name data : string) (w : World) : World :=
  {| files := <[name := data]> (files w);
     faults := faults w;
     trace := trace w |}.

(** Records the call and takes the fault it meets, if any. *)
Definition sys (c : syscall) : Go World (option fault) := fun w =>
  (Returns (mjoin (head (faults w))),
   {| files := files w; faults := tail (faults w); trace := c :: trace w |}).

(** An open file. The program opens its file with
    [O_RDWR|O_CREATE|O_APPEND]: every write goes to the end of the file,
    wherever the file offset is, so the offset is not kept. *)
Record File : Type := { File_name : string }.

Definition os_OpenFile (name : string) : Go World (option File * option error) :=
  fl ← sys (sys_OpenFile name);
  match fl with
  | Some ft => mret (None, Some (os_Error (fault_text ft)))
  | None =>
    w ← get;
    _ ← match files w !! name with
         | Some _ => mret tt
         | None => put (set_contents name "" w)
         end;
    mret (Some {| File_name := name |}, None)
  end.

Fixpoint zeros (n : nat) : string :=
  match n with
  | O => ""
  | S n' => String zero (zeros n')
  end.

Definition resize (size : nat) (data : string) : string :=
  String.substring 0 size data +:+ zeros (size - String.length data).

(** [f.Truncate(size)] *)
Definition File_Truncate (f : File) (size : nat) : Go World (option error) :=
  fl ← sys (sys_Truncate (File_name f) size);
  match fl with
  | Some ft => mret (Some (os_Error (fault_text ft)))
  | None =>
    w ← get;
    _ ← put (set_contents (File_name f) (resize size (contents w (File_name f))) w);
    mret None
  end.

(** [f.Seek(offset, whence)], used with [whence = 0] only. *)
Definition File_Seek (f : File) (offset whence : nat)
  : Go World (nat * option error) :=
  fl ← sys (sys_Seek (File_name f) offset whence);
  match fl with
  | Some ft => mret (O, Some (os_Error (fault_text ft)))
  | None => mret (offset, None)
  end.

(** [f.Write(b)] in append mode. *)
Definition File_Write (f : File) (b : string) : Go World (nat * option error) :=
  fl ← sys (sys_Write (File_name f) b);
  w ← get;
  match fl with
  | Some ft =>
    let done := String.substring 0 (fault_count ft) b in
    _ ← put (set_contents (File_name f) (contents w (File_name f) +:+ done) w);
    mret (String.length done, Some (os_Error (fault_text ft)))
  | None =>
    _ ← put (set_contents (File_name f) (contents w (File_name f) +:+ b) w);
    mret (String.length b, None)
  end.

(** The file as the stream the decoder sees through its [Read] calls: its
    bytes, then [io.EOF]; or the bytes read before a [Read] failed, then the
    error of that [Read]. The number of [Read] calls is not modelled: they
    are the one entry [sys_Reads] of the trace, and the fault taken is that of
    the first failing one. *)
Definition File_stream (f : File) : Go World (string * error) :=
  fl ← sys (sys_Reads (File_name f));
  w ← get;
  match fl with
  | Some ft =>
    mret (String.substring 0 (fault_count ft) (contents w (File_name f)),
          os_Error (fault_text ft))
  | None => mret (contents w (File_name f), io_EOF)
  end.

(** [json.NewDecoder(f).Decode(&m)] *)
Definition Decoder_Decode (f : File) (m : gomap)
  : Go World (gomap * option error) :=
  '(data, term) ← File_stream f;
  mret (json.Decode data term m).

(** [json.NewEncoder(f).Encode(&m)] *)
Definition Encoder_Encode (f : File) (m : gomap) : Go World (option error) :=
  '(_, err) ← File_Write f (json.Encode_bytes m);
  mret err.

(** ** main.go *)

(** *** memory *)

Record MemStorage : Type := { MemStorage_m : gomap }.

Definition MemStorage_Get (key : string)
  : Go MemStorage (string * option error) :=
  ms ← get;
  let '(value, ok) := map_index (MemStorage_m ms) key in
  if negb ok then mret (value, Some (errorString "err not found"))
  else mret (value, None).

Definition MemStorage_Set (key value : string)
  : Go MemStorage (option error) :=
  ms ← get;
  match map_assign (MemStorage_m ms) key value with
  | Panics msg => panic msg
  | Returns m' =>
    _ ← put {| MemStorage_m := m' |};
    mret None
  end.

(** *** file *)

Record FileStorage : Type := {
  FileStorage_ms : MemStorage;
  FileStorage_f : File
}.

(** A call of a method of [fs.ms]. *)
Definition on_ms {A} (x : Go MemStorage A) : Go (FileStorage * World) A :=
  zoom (fun s => FileStorage_ms s.1)
       (fun ms s => ({| FileStorage_ms := ms;
                        FileStorage_f := FileStorage_f s.1 |}, s.2))
       x.

(** A call into the operating system. *)
Definition on_world {A} (x : Go World A) : Go (FileStorage * World) A :=
  zoom snd (fun w s => (s.1, w)) x.

Definition FileStorage_Get (key : string)
  : Go (FileStorage * World) (string * option error) :=
  on_ms (MemStorage_Get key).

Definition FileStorage_Set (key value : string)
  : Go (FileStorage * World) (option error) :=
  err ← on_ms (MemStorage_Set key value);
  match err with
  | Some e =>
    mret (Some (wrapError "unable to add new key in memorystorage: " e))
  | None =>
    (* the file is rewritten from scratch *)
    '(fs, _) ← get;
    err ← on_world (File_Truncate (FileStorage_f fs) 0);
    match err with
    | Some e => mret (Some (wrapError "unable to truncate file: " e))
    | None =>
      '(_, err) ← on_world (File_Seek (FileStorage_f fs) 0 0);
      match err with
      | Some e =>
        mret (Some (wrapError "unable to get the beginning of file: " e))
      | None =>
        '(fs, _) ← get;
        err ← on_world (Encoder_Encode (FileStorage_f fs)
                          (MemStorage_m (FileStorage_ms fs)));
        match err with
        | Some e =>
          mret (Some (wrapError "unable to encode data into the file: " e))
        | None => mret None
        end
      end
    end
  end.

(** *** The interface [Storage]

    A value of the interface holds a [*MemStorage] or a [*FileStorage]; a
    method call goes to the method of that type. *)

Inductive Storage : Type :=
| Storage_Mem (ms : MemStorage)
| Storage_File (fs : FileStorage).

Definition Storage_Get (key : string)
  : Go (Storage * World) (string * option error) := fun '(s, w) =>
  match s with
  | Storage_Mem ms =>
    let '(r, ms') := MemStorage_Get key ms in (r, (Storage_Mem ms', w))
  | Storage_File fs =>
    let '(r, (fs', w')) := FileStorage_Get key (fs, w) in
    (r, (Storage_File fs', w'))
  end.

Definition Storage_Set (key value : string)
  : Go (Storage * World) (option error) := fun '(s, w) =>
  match s with
  | Storage_Mem ms =>
    let '(r, ms') := MemStorage_Set key value ms in (r, (Storage_Mem ms', w))
  | Storage_File fs =>
    let '(r, (fs', w')) := FileStorage_Set key value (fs, w) in
    (r, (Storage_File fs', w'))
  end.

Definition NewMemStorage : Storage :=
  Storage_Mem {| MemStorage_m := make_map |}.

Definition NewFileStorage (filename : string)
  : Go World (option Storage * option error) :=
  (* the file is opened, or created if it does not exist, for reading and
     writing, in append mode *)
  '(file, err) ← os_OpenFile filename;
  match file, err with
  | Some file, None =>
    (* the data are restored from the file, where they are kept as JSON *)
    let m := make_map in
    '(m, err) ← Decoder_Decode file m;
    match err with
    | Some io_EOF | None => (* the file may be empty *)
      mret (Some (Storage_File {| FileStorage_ms := {| MemStorage_m := m |};
                                  FileStorage_f := file |}),
            None)
    | Some e =>
      mret (None,
            Some (wrapError ("unable to decode contents of file " +:+ filename
                             +:+ ": ") e))
    end
  | _, Some e =>
    mret (None,
          Some (wrapError ("unable to open file " +:+ filename +:+ ": ") e))
  | None, None => (* [os.OpenFile] returns a file or an error *)
    mret (None, None)
  end.

(** ** net/http: the response of a handler

    The [http.ResponseWriter] the server hands to a handler, as far as the
    program uses it: the header map, [WriteHeader] and [Write]. The status
    codes of the program, 200 and 500, allow a body, and its routes take
    [GET] and [POST] only, so every byte written is part of the response.
    Writing to the client does not fail here. *)

(** [http.Header]. The keys the program sets are in canonical form. *)
Definition Header : Type := gmap string (list string).

Definition Header_Set (key value : string) (h : Header) : Header :=
  <[key := [value]]> h.

Definition Header_Del (key : string) (h : Header) : Header := delete key h.

Definition StatusOK : N := 200.
Definition StatusInternalServerError : N := 500.

(** [handlerHeader]: the map [w.Header()] returns; [wroteHeader]: once the
    header is written, the status code and the header as it was then;
    [written]: the bytes of the body so far. *)
Record ResponseWriter : Type := {
  handlerHeader : Header;
  wroteHeader : option (N * Header);
  written : string
}.

(** [w.WriteHeader(code)]: the first call fixes the status code and the
    header; a later call is logged as superfluous and changes nothing. *)
Definition ResponseWriter_WriteHeader (code : N) : Go ResponseWriter unit :=
  w ← get;
  match wroteHeader w with
  | Some _ => mret tt
  | None =>
    put {| handlerHeader := handlerHeader w;
           wroteHeader := Some (code, handlerHeader w);
           written := written w |}
  end.

(** [w.Write(data)]: writes the header with [StatusOK] if it is not
    written yet, then the data. *)
Definition ResponseWriter_Write (data : string)
  : Go ResponseWriter (nat * option error) :=
  w ← get;
  _ ← match wroteHeader w with
       | Some _ => mret tt
       | None => ResponseWriter_WriteHeader StatusOK
       end;
  w ← get;
  _ ← put {| handlerHeader := handlerHeader w;
             wroteHeader := wroteHeader w;
             written := written w +:+ data |};
  mret (String.length data, None).

(** [http.Error(w, error, code)] *)
Definition http_Error (error : string) (code : N) : Go ResponseWriter unit :=
  w ← get;
  let h := Header_Del "Content-Length" (handlerHeader w) in
  let h := Header_Set "Content-Type" "text/plain; charset=utf-8" h in
  let h := Header_Set "X-Content-Type-Options" "nosniff" h in
  _ ← put {| handlerHeader := h;
             wroteHeader := wroteHeader w;
             written := written w |};
  _ ← ResponseWriter_WriteHeader code;
  (* [fmt.Fprintln(w, error)] *)
  _ ← ResponseWriter_Write (error +:+ str1 newline);
  mret tt.

(** The response writer of a new request. *)
Definition new_response : ResponseWriter :=
  {| handlerHeader := ∅; wroteHeader := None; written := "" |}.

(** When the handler has returned without writing the header, the server
    writes it with [StatusOK]. *)
Definition finishRequest : Go ResponseWriter unit :=
  w ← get;
  match wroteHeader w with
  | Some _ => mret tt
  | None => ResponseWriter_WriteHeader StatusOK
  end.

(** A request: its method, the path of its URL, and the variables of the
    route that matched it, which the router attaches to the request
    ([None], a nil map, before that). *)
Record Request : Type := {
  Method : string;
  URL_Path : string;
  Vars : gomap
}.

(** [mux.Vars(r)] *)
Definition mux_Vars (r : Request) : gomap := Vars r.

(** ** main.go: the handlers *)

Section Handlers.

Variable json_text : error -> string.

(** The state of a handler: the store it was made for, the operating
    system, and the response writer. *)
Definition on_storage {A} (x : Go (Storage * World) A)
  : Go (Storage * World * ResponseWriter) A :=
  zoom fst (fun st s => (st, s.2)) x.

Definition on_response {A} (x : Go ResponseWriter A)
  : Go (Storage * World * ResponseWriter) A :=
  zoom snd (fun w s => (s.1, w)) x.

(** [getHandler(s)], the function it returns. *)
Definition getHandler (r : Request)
  : Go (Storage * World * ResponseWriter) unit :=
  let vars := mux_Vars r in
  let key := (map_index vars "key").1 in
  '(value, err) ← on_storage (Storage_Get key);
  _ ← match err with
       | Some e =>
         on_response (http_Error (Error json_text e)
                        StatusInternalServerError)
       | None => mret tt
       end;
  _ ← on_response (ResponseWriter_Write value);
  mret tt.

(** [postHandler(s)], the function it returns. *)
Definition postHandler (r : Request)
  : Go (Storage * World * ResponseWriter) unit :=
  let vars := mux_Vars r in
  let key := (map_index vars "key").1 in
  let value := (map_index vars "value").1 in
  err ← on_storage (Storage_Set key value);
  match err with
  | Some e =>
    on_response (http_Error (Error json_text e) StatusInternalServerError)
  | None =>
    _ ← on_response (ResponseWriter_Write value);
    mret tt
  end.

(** ** gorilla/mux: the router

    A route of the program has a path template whose variables are whole
    parts of the path, such as [/file/{key}], and a list of methods. The
    regular expression of that template is [^/file/(?P<v0>[^/]+)$]: a path
    matches when, cut at its slashes, it has the parts of the template, with
    a part that is not empty for each variable. *)

(** The parts of a path between its slashes. *)
Fixpoint split_slash (s : string) : list string :=
  match s with
  | EmptyString => [""]
  | String c t =>
    if Ascii.eqb c "/" then "" :: split_slash t
    else match split_slash t with
         | x :: xs => String c x :: xs
         | [] => [String c ""]
         end
  end.

Fixpoint join_slash (parts : list string) : string :=
  match parts with
  | [] => ""
  | [x] => x
  | x :: xs => x +:+ "/" +:+ join_slash xs
  end.

(** The name of the variable a part of a template stands for, if it is
    one: the part is the name in braces. *)
Definition variable_name (part : string) : option string :=
  match part with
  | String "{" t =>
    match String.length t with
    | S n =>
      if String.eqb (String.substring n 1 t) "}"
      then Some (String.substring 0 n t) else None
    | O => None
    end
  | _ => None
  end.

Fixpoint match_parts (template path : list string)
    (vars : gmap string string) : option (gmap string string) :=
  match template, path with
  | [], [] => Some vars
  | t :: template', p :: path' =>
    match variable_name t with
    | Some name =>
      if String.eqb p "" then None
      else match_parts template' path' (<[name := p]> vars)
    | None =>
      if String.eqb t p then match_parts template' path' vars else None
    end
  | _, _ => None
  end.

(** The store a handler was made for: a variable of [main]. *)
Inductive captured : Type := captured_fileStorage | captured_memStorage.

(** [r.HandleFunc(template, handler).Methods(methods...)] *)
Record Route : Type := {
  Route_template : string;
  Route_handler : captured
                  * (Request -> Go (Storage * World * ResponseWriter) unit);
  Route_methods : list string
}.

(** [route.Match]: the path first, then the method; the variables of the
    match. *)
Definition Route_Match (route : Route) (req : Request)
  : option (gmap string string) :=
  match match_parts (split_slash (Route_template route))
                    (split_slash (URL_Path req)) ∅ with
  | Some vars =>
    if bool_decide (Method req ∈ Route_methods route) then Some vars
    else None
  | None => None
  end.

(** [router.Match]: the first route that matches. *)
Fixpoint Router_Match (routes : list Route) (req : Request)
  : option (Route * gmap string string) :=
  match routes with
  | [] => None
  | route :: routes' =>
    match Route_Match route req with
    | Some vars => Some (route, vars)
    | None => Router_Match routes' req
    end
  end.

(** [path.Clean] on a rooted path: no empty part, no part [.], and each
    part [..] removed together with the part before it, if there is one. *)
Fixpoint clean_parts (parts kept : list string) : list string :=
  match parts with
  | [] => rev kept
  | p :: parts' =>
    if String.eqb p "" || String.eqb p "." then clean_parts parts' kept
    else if String.eqb p ".." then clean_parts parts' (tail kept)
    else clean_parts parts' (p :: kept)
  end.

Definition path_Clean (p : string) : string :=
  "/" +:+ join_slash (clean_parts (split_slash p) []).

Definition last_byte (s : string) : option ascii :=
  match String.length s with
  | O => None
  | S n => String.get n s
  end.

(** [cleanPath] of the router: the canonical form of a path, which keeps a
    slash at the end. *)
Definition cleanPath (p : string) : string :=
  if String.eqb p "" then "/" else
  let p := match p with
           | String "/" _ => p
           | _ => "/" +:+ p
           end in
  let np := path_Clean p in
  if bool_decide (last_byte p = Some "/"%char) && negb (String.eqb np "/")
  then np +:+ "/" else np.

(** ** main.go: [main] *)

(** The two stores of [main]. [fileStorage] is what [NewFileStorage]
    returned, [None] for the nil interface. *)
Record Server : Type := {
  fileStorage : option Storage;
  memStorage : Storage
}.

Definition MethodGet : string := "GET".
Definition MethodPost : string := "POST".

(** The routes of [main], in the order of their registration. *)
Definition routes : list Route :=
  [ {| Route_template := "/file/{key}";
       Route_handler := (captured_fileStorage, getHandler);
       Route_methods := [MethodGet] |};
    {| Route_template := "/memory/{key}";
       Route_handler := (captured_memStorage, getHandler);
       Route_methods := [MethodGet] |};
    {| Route_template := "/file/{key}/{value}";
       Route_handler := (captured_fileStorage, postHandler);
       Route_methods := [MethodPost] |};
    {| Route_template := "/memory/{key}/{value}";
       Route_handler := (captured_memStorage, postHandler);
       Route_methods := [MethodPost] |} ].

(** What the router does with a request: it redirects to the canonical
    form of the path; or no route matches, and the router answers by itself
    (not found, or method not allowed); or the handler of the first route
    that matches has run and has written the response. *)
Inductive served : Type :=
| Redirected (path : string)
| NotRouted
| Handled (w : ResponseWriter).

(** The handler of a route on a request, with the store it was made for. *)
Definition call_handler (route : Route) (req : Request)
  : Go (Server * World) ResponseWriter := fun '(srv, w) =>
  let store :=
    match (Route_handler route).1 with
    | captured_fileStorage => fileStorage srv
    | captured_memStorage => Some (memStorage srv)
    end in
  match store with
  | None =>
    (Panics "invalid memory address or nil pointer dereference", (srv, w))
  | Some s =>
    let '(r, (s', w', rw)) :=
      (_ ← (Route_handler route).2 req; on_response finishRequest)
        (s, w, new_response) in
    let srv' :=
      match (Route_handler route).1 with
      | captured_fileStorage =>
        {| fileStorage := Some s'; memStorage := memStorage srv |}
      | captured_memStorage =>
        {| fileStorage := fileStorage srv; memStorage := s' |}
      end in
    (match r with
     | Returns _ => Returns rw
     | Panics msg => Panics msg
     end, (srv', w'))
  end.

(** [r.ServeHTTP(w, req)] for the router [r] of [main]. *)
Definition Router_ServeHTTP (req : Request) : Go (Server * World) served :=
  let path := URL_Path req in
  if negb (String.eqb (cleanPath path) path) then
    mret (Redirected (cleanPath path))
  else
    match Router_Match routes req with
    | Some (route, vars) =>
      let req := {| Method := Method req;
                    URL_Path := URL_Path req;
                    Vars := Some vars |} in
      w ← call_handler route req;
      mret (Handled w)
    | None => mret NotRouted
    end.

(** How [main] goes on after its first lines: [log.Fatalf] has printed the
    message and ended the program, or the server listens with the two
    stores. *)
Inductive started : Type :=
| Fatal (msg : string)
| Serving (srv : Server).

(** [main], up to the call of [http.ListenAndServe]. *)
Definition main : Go World started :=
  '(fileStorage, err) ← NewFileStorage "somefile.json";
  match err with
  | Some e =>
    mret (Fatal ("unable to create file storage: " +:+ Error json_text e))
  | None =>
    let memStorage := NewMemStorage in
    mret (Serving {| fileStorage := fileStorage; memStorage := memStorage |})
  end.

(** The server answers the request [OPTIONS *] by itself and hands every
    other request to the router. *)
Definition serverHandler_ServeHTTP (req : Request)
  : Go (Server * World) served :=
  if String.eqb (URL_Path req) "*" && String.eqb (Method req) "OPTIONS" then
    mret NotRouted
  else Router_ServeHTTP req.

(** [http.ListenAndServe] on the requests of the clients. The model serves
    them one after the other: the program has no lock, and what requests
    served at the same time do to the stores is not modelled. A panic of a
    handler ends its request only: the server recovers from it and goes on.
    The listening socket is not modelled. *)
Fixpoint ListenAndServe (reqs : list Request) (st : Server * World)
  : list (outcome served) * (Server * World) :=
  match reqs with
  | [] => ([], st)
  | req :: reqs' =>
    let '(r, st') := serverHandler_ServeHTTP req st in
    let '(rs, st'') := ListenAndServe reqs' st' in
    (r :: rs, st'')
  end.

End Handlers.

(** ** Vocabulary of the statements *)

(** The map a store holds. *)
Definition Storage_map (s : Storage) : gomap :=
  match s with
  | Storage_Mem ms => MemStorage_m ms
  | Storage_File fs => MemStorage_m (FileStorage_ms fs)
  end.

(** The value a Go map has for a key, if any; a nil map has none. *)
Definition stored (m : gomap) (key : string) : option string :=
  match m with
  | Some g => g !! key
  | None => None
  end.

(** The next [n] entries of the trace meet no fault. *)
Definition calm (n : nat) (w : World) : Prop :=
  Forall (fun x => x = None) (take n (faults w)).

(** A request to a store, as the HTTP handlers make them. *)
Inductive request : Type :=
| req_Get (key : string)
| req_Set (key value : string).

(** The state after a request, whatever the request returned. *)
Definition serve1 (r : request) (st : Storage * World) : Storage * World :=
  match r with
  | req_Get key => snd (Storage_Get key st)
  | req_Set key value => snd (Storage_Set key value st)
  end.

(** The state after the requests, served in turn. *)
Definition serve (rs : list request) (st : Storage * World)
  : Storage * World :=
  foldl (fun st r => serve1 r st) st rs.

Definition sets_key (key : string) (r : request) : Prop :=
  match r with
  | req_Set k _ => k = key
  | req_Get _ => False
  end.

(** The steps of [FileStorage.Set] that call the operating system. *)
Inductive step : Type := step_Truncate | step_Seek | step_Encode.

(** The text [Set] puts before the error of the step. *)
Definition step_text (s : step) : string :=
  match s with
  | step_Truncate => "unable to truncate file: "
  | step_Seek => "unable to get the beginning of file: "
  | step_Encode => "unable to encode data into the file: "
  end.

(** The faults with which [Set] fails at the step: the steps before it go
    well. *)
Definition fail_at (s : step) (ft : fault) : list (option fault) :=
  match s with
  | step_Truncate => [Some ft]
  | step_Seek => [None; Some ft]
  | step_Encode => [None; None; Some ft]
  end.

(** The system calls of [Set] up to the step, the latest first. *)
Definition calls_to (s : step) (name data : string) : list syscall :=
  match s with
  | step_Truncate => [sys_Truncate name 0]
  | step_Seek => [sys_Seek name 0 0; sys_Truncate name 0]
  | step_Encode => [sys_Write name data; sys_Seek name 0 0; sys_Truncate name 0]
  end.

(** What the file holds once [Set] has failed at the step. *)
Definition left_in_file (s : step) (ft : fault) (old data : string) : string :=
  match s with
  | step_Truncate => old
  | step_Seek => ""
  | step_Encode => String.substring 0 (fault_count ft) data
  end.

(** The file store with another map. *)
Definition with_map (fs : FileStorage) (m : gomap) : FileStorage :=
  {| FileStorage_ms := {| MemStorage_m := m |};
     FileStorage_f := FileStorage_f fs |}.

(** The store with another map. *)
Definition Storage_with_map (s : Storage) (m : gomap) : Storage :=
  match s with
  | Storage_Mem _ => Storage_Mem {| MemStorage_m := m |}
  | Storage_File fs => Storage_File (with_map fs m)
  end.

(** What [Get] returns for a key, from what the map has for it. *)
Definition Get_result (o : option string) : string * option error :=
  match o with
  | Some value => (value, None)
  | None => ("", Some (errorString "err not found"))
  end.

(** The world once a file has been opened and the decoder has read it
    without a fault. *)
Definition opened (name : string) (w : World) : World :=
  {| files := match files w !! name with
              | Some _ => files w
              | None => <[name := ""]> (files w)
              end;
     faults := drop 2 (faults w);
     trace := sys_Reads name :: sys_OpenFile name :: trace w |}.

(** What [NewFileStorage] returns once the decoder has returned. *)
Definition decoded_store (filename : string) (r : gomap * option error)
  : option Storage * option error :=
  match r.2 with
  | Some io_EOF | None =>
    (Some (Storage_File {| FileStorage_ms := {| MemStorage_m := r.1 |};
                           FileStorage_f := {| File_name := filename |} |}),
     None)
  | Some e =>
    (None,
     Some (wrapError ("unable to decode contents of file " +:+ filename
                      +:+ ": ") e))
  end.

(** What the files hold once [Set] has failed at the step. *)
Definition files_left (s : step) (ft : fault) (name data : string)
    (fl : gmap string string) : gmap string string :=
  match s with
  | step_Truncate => fl
  | _ => <[name := left_in_file s ft "" data]> fl
  end.

(** A JSON text written with apostrophes where it has double quotes. *)
Fixpoint sq (s : string) : string :=
  match s with
  | EmptyString => ""
  | String c t => String (if Ascii.eqb c "'" then dquote else c) (sq t)
  end.

(** A world without files and without faults. *)
Definition no_files : World := {| files := ∅; faults := []; trace := [] |}.

(** A world with one file and without faults. *)
Definition one_file (name data : string) : World :=
  {| files := {[name := data]}; faults := []; trace := [] |}.

(** The file store of a file, with a map. *)
Definition file_store (name : string) (m : gomap) : FileStorage :=
  {| FileStorage_ms := {| MemStorage_m := m |};
     FileStorage_f := {| File_name := name |} |}.

(** *** Requests and responses *)

Definition GET (path : string) : Request :=
  {| Method := MethodGet; URL_Path := path; Vars := None |}.

Definition POST (path : string) : Request :=
  {| Method := MethodPost; URL_Path := path; Vars := None |}.

(** The response with the status 200 and a body, no header set. *)
Definition response_ok (value : string) : ResponseWriter :=
  {| handlerHeader := ∅;
     wroteHeader := Some (StatusOK, ∅);
     written := value |}.

(** The header of the responses of [http.Error]. *)
Definition error_header : Header :=
  {[ "Content-Type" := ["text/plain; charset=utf-8"];
     "X-Content-Type-Options" := ["nosniff"] ]}.

(** The response with the status 500 and a line of text. *)
Definition response_error (text : string) : ResponseWriter :=
  {| handlerHeader := error_header;
     wroteHeader := Some (StatusInternalServerError, error_header);
     written := text +:+ str1 newline |}.

(** The response of [getHandler], from what the map has for the key. *)
Definition get_response (o : option string) : ResponseWriter :=
  match o with
  | Some value => response_ok value
  | None => response_error "err not found"
  end.

Fixpoint no_slash (s : string) : bool :=
  match s with
  | EmptyString => true
  | String c t => negb (Ascii.eqb c "/") && no_slash t
  end.

(** What a variable of a route of [main] can be: a part of a canonical
    path, so not empty, without a slash, and neither [.] nor [..]. *)
Definition path_part (s : string) : bool :=
  negb (String.eqb s "") && no_slash s
  && negb (String.eqb s ".") && negb (String.eqb s "..").

(** The prefix of the paths of the routes for a store of [main]. *)
Definition prefix_of (c : captured) : string :=
  match c with
  | captured_fileStorage => "/file/"
  | captured_memStorage => "/memory/"
  end.

(** The requests on which a handler runs. *)
Inductive call : Type :=
| call_get (c : captured) (key : string)
| call_post (c : captured) (key value : string).

Definition request_of (c : call) : Request :=
  match c with
  | call_get c key => GET (prefix_of c +:+ key)
  | call_post c key value => POST (prefix_of c +:+ key +:+ "/" +:+ value)
  end.

Definition well_formed (c : call) : Prop :=
  match c with
  | call_get _ key => path_part key = true
  | call_post _ key value => path_part key = true /\ path_part value = true
  end.

(** The variables the router attaches to the request of a call. *)
Definition vars_of (c : call) : gmap string string :=
  match c with
  | call_get _ key => {["key" := key]}
  | call_post _ key value => <["value" := value]> {["key" := key]}
  end.

(** The map of a memory store after requests: each [Set] in turn. *)
Definition replay (rs : list request) (g : gmap string string)
  : gmap string string :=
  foldl (fun g r => match r with
                    | req_Set key value => <[key := value]> g
                    | req_Get _ => g
                    end) g rs.

(** A part of a canonical path: not empty, and neither [.] nor [..]. *)
Definition proper (p : string) : Prop := p <> "" /\ p <> "." /\ p <> "..".

(** The store of [main] a handler was made for, and the server with
    another store in its place. *)
Definition store_of (c : captured) (srv : Server) : option Storage :=
  match c with
  | captured_fileStorage => fileStorage srv
  | captured_memStorage => Some (memStorage srv)
  end.

Definition set_store (c : captured) (s : Storage) (srv : Server) : Server :=
  match c with
  | captured_fileStorage =>
    {| fileStorage := Some s; memStorage := memStorage srv |}
  | captured_memStorage =>
    {| fileStorage := fileStorage srv; memStorage := s |}
  end.

Definition captured_of (c : call) : captured :=
  match c with
  | call_get c _ => c
  | call_post c _ _ => c
  end.

Definition handler_of (json_text : error -> string) (c : call)
  : Request -> Go (Storage * World * ResponseWriter) unit :=
  match c with
  | call_get _ _ => getHandler json_text
  | call_post _ _ _ => postHandler json_text
  end.

(** What a call does: the response of its handler, and the stores and the
    world after it. *)
Definition run_call (json_text : error -> string) (c : call)
  : Go (Server * World) served := fun '(srv, w) =>
  match store_of (captured_of c) srv with
  | None =>
    (Panics "invalid memory address or nil pointer dereference", (srv, w))
  | Some s =>
    match c with
    | call_get _ key =>
      (Returns (Handled (get_response (stored (Storage_map s) key))),
       (srv, w))
    | call_post cap key value =>
      match Storage_Set key value (s, w) with
      | (Returns None, (s', w')) =>
        (Returns (Handled (response_ok value)), (set_store cap s' srv, w'))
      | (Returns (Some e), (s', w')) =>
        (Returns (Handled (response_error (Error json_text e))),
         (set_store cap s' srv, w'))
      | (Panics msg, (s', w')) => (Panics msg, (set_store cap s' srv, w'))
      end
    end
  end.

(** The request has the method and the path of the call. *)
Definition is_request (c : call) (req : Request) : Prop :=
  Method req = Method (request_of c)
  /\ URL_Path req = URL_Path (request_of c).

(** The request is a [POST] on a key of the store. *)
Definition posts_to (cap : captured) (req : Request) : Prop :=
  exists key value,
    well_formed (call_post cap key value)
    /\ is_request (call_post cap key value) req.

(** The stores are of the kinds [main] makes: a file store on
    [somefile.json] and a memory store. *)
Definition wired (srv : Server) : Prop :=
  (exists fs, fileStorage srv = Some (Storage_File fs)
              /\ File_name (FileStorage_f fs) = "somefile.json")
  /\ exists ms, memStorage srv = Storage_Mem ms.

(** ** Definitions for the statements and the proofs *)

Import utf8 json.

Ltac Zify.zify_post_hook ::= Z.to_euclidean_division_equations.
Local Arguments String.append !_ _ / : simpl nomatch.

Definition seq2 (b0 b1 : N) : Prop :=
  0xC2 <= b0 <= 0xDF /\ 0x80 <= b1 <= 0xBF.

Definition seq3 (b0 b1 b2 : N) : Prop :=
  0xE0 <= b0 <= 0xEF /\ 0x80 <= b1 <= 0xBF /\ (b0 = 0xE0 -> 0xA0 <= b1)
  /\ (b0 = 0xED -> b1 <= 0x9F) /\ 0x80 <= b2 <= 0xBF.

Definition seq4 (b0 b1 b2 b3 : N) : Prop :=
  0xF0 <= b0 <= 0xF4 /\ 0x80 <= b1 <= 0xBF /\ (b0 = 0xF0 -> 0x90 <= b1)
  /\ (b0 = 0xF4 -> b1 <= 0x8F) /\ 0x80 <= b2 <= 0xBF /\ 0x80 <= b3 <= 0xBF.

Definition rune2 (b0 b1 : N) : N := (b0 - 0xC0) * 64 + (b1 - 0x80).
Definition rune3 (b0 b1 b2 : N) : N :=
  (b0 - 0xE0) * 4096 + (b1 - 0x80) * 64 + (b2 - 0x80).
Definition rune4 (b0 b1 b2 b3 : N) : N :=
  (b0 - 0xF0) * 262144 + (b1 - 0x80) * 4096 + (b2 - 0x80) * 64 + (b3 - 0x80).

(** What [DecodeRune] says about the bytes it has read. *)
Inductive decoded (c0 : ascii) (p : string) : N -> nat -> Prop :=
| decoded_ascii :
    byte_val c0 < RuneSelf -> decoded c0 p (byte_val c0) 1
| decoded_invalid :
    RuneSelf <= byte_val c0 -> decoded c0 p RuneError 1
| decoded_2 c1 p' :
    p = String c1 p' -> seq2 (byte_val c0) (byte_val c1) ->
    decoded c0 p (rune2 (byte_val c0) (byte_val c1)) 2
| decoded_3 c1 c2 p' :
    p = String c1 (String c2 p') ->
    seq3 (byte_val c0) (byte_val c1) (byte_val c2) ->
    decoded c0 p (rune3 (byte_val c0) (byte_val c1) (byte_val c2)) 3
| decoded_4 c1 c2 c3 p' :
    p = String c1 (String c2 (String c3 p')) ->
    seq4 (byte_val c0) (byte_val c1) (byte_val c2) (byte_val c3) ->
    decoded c0 p
      (rune4 (byte_val c0) (byte_val c1) (byte_val c2) (byte_val c3)) 4.

(** The shape of an encoded rune. *)
Inductive encoded : string -> Prop :=
| encoded_1 c : byte_val c < RuneSelf -> encoded (str1 c)
| encoded_2 c0 c1 :
    seq2 (byte_val c0) (byte_val c1) -> encoded (String c0 (str1 c1))
| encoded_3 c0 c1 c2 :
    seq3 (byte_val c0) (byte_val c1) (byte_val c2) ->
    encoded (String c0 (String c1 (str1 c2)))
| encoded_4 c0 c1 c2 c3 :
    seq4 (byte_val c0) (byte_val c1) (byte_val c2) (byte_val c3) ->
    encoded (String c0 (String c1 (String c2 (str1 c3)))).

(** A chunk of a literal: the scanner goes through it, and [unquote] turns
    it into [dec]. *)
Definition chunk (p dec : string) : Prop :=
  (forall x, scan_string (p +:+ x) = keep p (scan_string x))
  /\ (forall x, unquote (p +:+ x) = emit dec (unquote x)).

(** What reading back the encoding of a string gives: the string with its
    invalid bytes replaced. *)
Definition coerce (s : string) : string := unquote_string (escape s).

Definition store_entry (g : gmap string string) (kv : string * string)
  : gmap string string := <[coerce kv.1 := coerce kv.2]> g.

(** All keys and values of the map are valid UTF-8. *)
Definition valid_map (m : gomap) : Prop :=
  match m with
  | None => True
  | Some g => forall k v, g !! k = Some v ->
                ValidString k = true /\ ValidString v = true
  end.

(** What decoding the encoding of a map gives: the map with its keys and
    values coerced to valid UTF-8, the entries stored in the order of the
    keys. *)
Definition recode (m : gomap) : gomap :=
  match m with
  | None => None
  | Some g => Some (foldl store_entry ∅ (sorted_entries g))
  end.

(** *** The grammar of the files *)

(** White space only. *)
Definition blank (s : string) : Prop := skipSpace s = "".

(** The bytes of a string literal between its quotes: bytes from 0x20 on
    other than the quote and the backslash, and escapes. *)
Inductive literal_body : string -> Prop :=
| body_end : literal_body ""
| body_byte c s :
    c <> dquote -> c <> backslash -> 0x20 <= byte_val c ->
    literal_body s -> literal_body (String c s)
| body_escape e s :
    isSimpleEscape e = true -> literal_body s ->
    literal_body (String backslash (String e s))
| body_unicode h1 h2 h3 h4 s :
    isHex h1 = true -> isHex h2 = true -> isHex h3 = true ->
    isHex h4 = true -> literal_body s ->
    literal_body
      (String backslash (String "u"
         (String h1 (String h2 (String h3 (String h4 s)))))).

Definition string_literal (s : string) : Prop :=
  exists body, literal_body body /\ s = String dquote (body +:+ str1 dquote).

Definition string_or_null (s : string) : Prop :=
  string_literal s \/ s = "null".

(** The members of an object whose values are in [value]: pairs of a key
    and a value with a colon between them, separated by commas, white space
    allowed around each. *)
Inductive members (value : string -> Prop) : string -> Prop :=
| members_last ws1 k ws2 ws3 v ws4 :
    blank ws1 -> string_literal k -> blank ws2 -> blank ws3 -> value v ->
    blank ws4 ->
    members value (ws1 +:+ k +:+ ws2 +:+ ":" +:+ ws3 +:+ v +:+ ws4)
| members_more ws1 k ws2 ws3 v ws4 ms :
    blank ws1 -> string_literal k -> blank ws2 -> blank ws3 -> value v ->
    blank ws4 -> members value ms ->
    members value
      (ws1 +:+ k +:+ ws2 +:+ ":" +:+ ws3 +:+ v +:+ ws4 +:+ "," +:+ ms).

Definition object_text (value : string -> Prop) (s : string) : Prop :=
  (exists ws, blank ws /\ s = "{" +:+ ws +:+ "}")
  \/ (exists ms, members value ms /\ s = "{" +:+ ms +:+ "}").

(** A JSON object of string keys to string values, and nothing else but
    white space. *)
Definition string_object (s : string) : Prop :=
  exists ws o ws',
    blank ws /\ object_text string_literal o /\ blank ws'
    /\ s = ws +:+ o +:+ ws'.

(** What the construction of a file store reads without an error: white
    space only; or, after white space, [null] or an object of string keys to
    values that are strings or [null], followed by anything. *)
Definition readable (s : string) : Prop :=
  blank s
  \/ exists ws rest,
       blank ws
       /\ (s = ws +:+ "null" +:+ rest
           \/ exists o, object_text string_or_null o /\ s = ws +:+ o +:+ rest).

(** *** JSON texts, after RFC 8259

    The objects of strings that the specification calls valid JSON, written
    byte by byte after the grammar of the RFC and without the functions of
    the decoder: the text of an object, and the keys and values it
    denotes. *)

(** White space: spaces, tabs, line feeds and carriage returns. *)
Inductive json_ws : string -> Prop :=
| json_ws_end : json_ws ""
| json_ws_more c s :
    N_of_ascii c = 0x20 \/ N_of_ascii c = 0x09 \/ N_of_ascii c = 0x0A
    \/ N_of_ascii c = 0x0D ->
    json_ws s -> json_ws (String c s).

(** The value of a hexadecimal digit, in either case. *)
Definition hex_digit (c : ascii) : option N :=
  let n := N_of_ascii c in
  if (0x30 <=? n) && (n <=? 0x39) then Some (n - 0x30)        (* 0 to 9 *)
  else if (0x41 <=? n) && (n <=? 0x46) then Some (n - 0x37)   (* A to F *)
  else if (0x61 <=? n) && (n <=? 0x66) then Some (n - 0x57)   (* a to f *)
  else None.

(** The 16-bit code unit that the four digits of a [\u] escape name. *)
Definition code_unit (h1 h2 h3 h4 : ascii) : option N :=
  match hex_digit h1, hex_digit h2, hex_digit h3, hex_digit h4 with
  | Some a, Some b, Some c, Some d => Some (4096 * a + 256 * b + 16 * c + d)
  | _, _, _, _ => None
  end.

(** The code of the character that a two-character escape stands for:
    the quotation mark, the backslash and the slash for themselves, and
    [b], [f], [n], [r], [t] for the control characters. *)
Definition escaped_char (e : ascii) : option N :=
  match N_of_ascii e with
  | 0x22 => Some 0x22
  | 0x5C => Some 0x5C
  | 0x2F => Some 0x2F
  | 0x62 => Some 0x08
  | 0x66 => Some 0x0C
  | 0x6E => Some 0x0A
  | 0x72 => Some 0x0D
  | 0x74 => Some 0x09
  | _ => None
  end.

Definition bytes (l : list N) : string :=
  string_of_list_ascii (map ascii_of_N l).

(** A Unicode scalar value: a code point that is not a surrogate. *)
Definition scalar_value (r : N) : Prop :=
  r < 0xD800 \/ 0xE000 <= r <= 0x10FFFF.

(** The UTF-8 encoding of a scalar value (RFC 3629). *)
Definition utf8_encoding (r : N) : string :=
  if r <? 0x80 then bytes [r]
  else if r <? 0x800 then bytes [0xC0 + r / 0x40; 0x80 + r mod 0x40]
  else if r <? 0x10000 then
    bytes [0xE0 + r / 0x1000; 0x80 + r / 0x40 mod 0x40; 0x80 + r mod 0x40]
  else
    bytes [0xF0 + r / 0x40000; 0x80 + r / 0x1000 mod 0x40;
           0x80 + r / 0x40 mod 0x40; 0x80 + r mod 0x40].

(** [json_chars body value]: [body], the bytes of a string literal between
    its quotes, denotes the string [value]. A character other than the
    quotation mark, the backslash and the control characters stands for
    itself; a two-character escape for its character; a [\u] escape for the
    character of its code unit; two [\u] escapes with a high and a low
    surrogate for the character of the pair. A [\u] escape with a surrogate
    that is not part of a pair names no character and is left out. *)
Inductive json_chars : string -> string -> Prop :=
| json_chars_end : json_chars "" ""
| json_chars_plain r body value :
    scalar_value r -> 0x20 <= r -> r <> 0x22 -> r <> 0x5C ->
    json_chars body value ->
    json_chars (utf8_encoding r +:+ body) (utf8_encoding r +:+ value)
| json_chars_escape e r body value :
    escaped_char e = Some r -> json_chars body value ->
    json_chars (bytes [0x5C] +:+ String e body) (bytes [r] +:+ value)
| json_chars_unicode h1 h2 h3 h4 r body value :
    code_unit h1 h2 h3 h4 = Some r -> scalar_value r ->
    json_chars body value ->
    json_chars
      (bytes [0x5C; 0x75]
       +:+ String h1 (String h2 (String h3 (String h4 body))))
      (utf8_encoding r +:+ value)
| json_chars_pair h1 h2 h3 h4 l1 l2 l3 l4 hi lo body value :
    code_unit h1 h2 h3 h4 = Some hi -> 0xD800 <= hi < 0xDC00 ->
    code_unit l1 l2 l3 l4 = Some lo -> 0xDC00 <= lo < 0xE000 ->
    json_chars body value ->
    json_chars
      (bytes [0x5C; 0x75]
       +:+ String h1 (String h2 (String h3 (String h4
             (bytes [0x5C; 0x75]
              +:+ String l1 (String l2 (String l3 (String l4 body))))))))
      (utf8_encoding (0x10000 + (hi - 0xD800) * 0x400 + (lo - 0xDC00))
       +:+ value).

(** A string literal and the string it denotes. *)
Definition json_string (text value : string) : Prop :=
  exists body,
    json_chars body value /\ text = bytes [0x22] +:+ body +:+ bytes [0x22].

(** The members of an object, with the keys and the values they denote, in
    the order of the text. *)
Inductive json_members : string -> list (string * string) -> Prop :=
| json_members_last ws1 k key ws2 ws3 v value ws4 :
    json_ws ws1 -> json_string k key -> json_ws ws2 -> json_ws ws3 ->
    json_string v value -> json_ws ws4 ->
    json_members (ws1 +:+ k +:+ ws2 +:+ ":" +:+ ws3 +:+ v +:+ ws4)
                 [(key, value)]
| json_members_more ws1 k key ws2 ws3 v value ws4 ms kvs :
    json_ws ws1 -> json_string k key -> json_ws ws2 -> json_ws ws3 ->
    json_string v value -> json_ws ws4 -> json_members ms kvs ->
    json_members
      (ws1 +:+ k +:+ ws2 +:+ ":" +:+ ws3 +:+ v +:+ ws4 +:+ "," +:+ ms)
      ((key, value) :: kvs).

(** An object of strings. *)
Definition json_object (text : string) (kvs : list (string * string)) : Prop :=
  (exists ws, json_ws ws /\ text = "{" +:+ ws +:+ "}" /\ kvs = [])
  \/ (exists ms, json_members ms kvs /\ text = "{" +:+ ms +:+ "}").

(** A JSON text that is an object of strings: the object, with white space
    allowed before and after it. *)
Definition json_file (data : string) (kvs : list (string * string)) : Prop :=
  exists ws o ws',
    json_ws ws /\ json_object o kvs /\ json_ws ws' /\ data = ws +:+ o +:+ ws'.

(** ** Bytes, runes and the JSON codec *)

Lemma byte_val_lt c : byte_val c < 256.
Proof. apply N_ascii_bounded. Qed.

Lemma to_byte_val c : to_byte (byte_val c) = c.
Proof.
  unfold to_byte, byte_val. rewrite N.mod_small by apply N_ascii_bounded.
  apply ascii_N_embedding.
Qed.

Lemma byte_val_to_byte n : byte_val (to_byte n) = n mod 256.
Proof. unfold to_byte, byte_val. apply N_ascii_embedding. lia. Qed.

Lemma to_byte_eq n c : n = byte_val c -> to_byte n = c.
Proof. intros ->. apply to_byte_val. Qed.

Lemma land_shift_low (a b n : N) : b < 2 ^ n -> N.land (N.shiftl a n) b = 0.
Proof.
  intros Hb. apply N.bits_inj; intros m; rewrite N.land_spec, N.bits_0.
  destruct (N.lt_ge_cases m n) as [Hm|Hm].
  - rewrite N.shiftl_spec_low by exact Hm; reflexivity.
  - rewrite <- (N.mod_small b (2^n)) by exact Hb.
    rewrite N.mod_pow2_bits_high by exact Hm. apply Bool.andb_false_r.
Qed.

Lemma lor_shift_add (a b n : N) : b < 2 ^ n -> N.lor (N.shiftl a n) b = a * 2 ^ n + b.
Proof.
  intros Hb. rewrite <- N.shiftl_mul_pow2.
  rewrite N.add_nocarry_lxor by (apply land_shift_low; exact Hb).
  symmetry. apply N.lxor_lor. apply land_shift_low; exact Hb.
Qed.

Lemma lor_disjoint (k x y : N) : x mod 2 ^ k = 0 -> y < 2 ^ k -> N.lor x y = x + y.
Proof.
  intros Hx Hy.
  assert (x = N.shiftl (x / 2 ^ k) k) as Hs.
  { rewrite N.shiftl_mul_pow2. pose proof (N.div_mod x (2 ^ k)) as Hdm.
    assert (2 ^ k <> 0) by (apply N.pow_nonzero; discriminate).
    specialize (Hdm H). rewrite Hx, N.add_0_r in Hdm. rewrite N.mul_comm. exact Hdm. }
  rewrite Hs at 1. rewrite lor_shift_add by exact Hy.
  rewrite <- N.shiftl_mul_pow2, <- Hs. reflexivity.
Qed.

Lemma land_ones' (k a : N) : N.land a (2 ^ k - 1) = a mod 2 ^ k.
Proof. rewrite <- N.land_ones. f_equal. rewrite N.ones_equiv. apply N.sub_1_r. Qed.

Ltac bits_to_arith :=
  repeat match goal with
  | |- context [N.shiftr ?a ?n] => rewrite (N.shiftr_div_pow2 a n)
  | |- context [N.shiftl ?a ?n] => rewrite (N.shiftl_mul_pow2 a n)
  | |- context [N.land ?a 0x3F] => change (N.land a 0x3F) with (N.land a (2 ^ 6 - 1)); rewrite (land_ones' 6 a)
  | |- context [N.land ?a 0x1F] => change (N.land a 0x1F) with (N.land a (2 ^ 5 - 1)); rewrite (land_ones' 5 a)
  | |- context [N.land ?a 0x0F] => change (N.land a 0x0F) with (N.land a (2 ^ 4 - 1)); rewrite (land_ones' 4 a)
  | |- context [N.land ?a 0x07] => change (N.land a 0x07) with (N.land a (2 ^ 3 - 1)); rewrite (land_ones' 3 a)
  end;
  change (2 ^ 3) with 8; change (2 ^ 4) with 16; change (2 ^ 5) with 32;
  change (2 ^ 6) with 64; change (2 ^ 12) with 4096; change (2 ^ 18) with 262144;
  repeat match goal with
  | |- context [N.lor ?x ?y] =>
    first [ rewrite (lor_disjoint 3 x y) by (change (2 ^ 3) with 8; lia)
          | rewrite (lor_disjoint 4 x y) by (change (2 ^ 4) with 16; lia)
          | rewrite (lor_disjoint 5 x y) by (change (2 ^ 5) with 32; lia)
          | rewrite (lor_disjoint 6 x y) by (change (2 ^ 6) with 64; lia)
          | rewrite (lor_disjoint 12 x y) by (change (2 ^ 12) with 4096; lia)
          | rewrite (lor_disjoint 18 x y) by (change (2 ^ 18) with 262144; lia) ]
  end.

Lemma first_cases c :
  match first c with
  | as_ => byte_val c <= 0x7F
  | xx => 0x80 <= byte_val c <= 0xC1 \/ 0xF5 <= byte_val c
  | lead sz lo hi =>
    (sz = 2%nat /\ lo = 0x80 /\ hi = 0xBF /\ 0xC2 <= byte_val c <= 0xDF)
    \/ (sz = 3%nat /\
        ((byte_val c = 0xE0 /\ lo = 0xA0 /\ hi = 0xBF)
         \/ (0xE1 <= byte_val c <= 0xEF /\ byte_val c <> 0xED /\ lo = 0x80 /\ hi = 0xBF)
         \/ (byte_val c = 0xED /\ lo = 0x80 /\ hi = 0x9F)))
    \/ (sz = 4%nat /\
        ((byte_val c = 0xF0 /\ lo = 0x90 /\ hi = 0xBF)
         \/ (0xF1 <= byte_val c <= 0xF3 /\ lo = 0x80 /\ hi = 0xBF)
         \/ (byte_val c = 0xF4 /\ lo = 0x80 /\ hi = 0x8F)))
  end.
Proof.
  unfold first. pose proof (byte_val_lt c) as Hc.
  repeat match goal with
  | |- context [?a <=? ?b] => destruct (N.leb_spec a b)
  | |- context [?a =? ?b] => destruct (N.eqb_spec a b)
  end; unfold locb, hicb; lia.
Qed.

Lemma outside_false b lo hi : outside b lo hi = false -> lo <= b <= hi.
Proof.
  unfold outside. intros H. apply orb_false_elim in H as [H1 H2].
  apply N.ltb_ge in H1, H2. lia.
Qed.

Ltac decide_cmp :=
  repeat match goal with
  | |- context [?a <=? ?b] => destruct (N.leb_spec a b); try lia
  | |- context [?a <? ?b] => destruct (N.ltb_spec a b); try lia
  | |- context [?a =? ?b] => destruct (N.eqb_spec a b); try lia
  end.

Lemma outside_in b lo hi : lo <= b <= hi -> outside b lo hi = false.
Proof. unfold outside. intros. decide_cmp; reflexivity. Qed.

Lemma first_lead c :
  0xC2 <= byte_val c <= 0xF4 ->
  exists sz lo hi, first c = lead sz lo hi /\
    (byte_val c <= 0xDF -> sz = 2%nat /\ lo = 0x80 /\ hi = 0xBF) /\
    (0xE0 <= byte_val c <= 0xEF -> sz = 3%nat /\
       lo = (if byte_val c =? 0xE0 then 0xA0 else 0x80) /\
       hi = (if byte_val c =? 0xED then 0x9F else 0xBF)) /\
    (0xF0 <= byte_val c -> sz = 4%nat /\
       lo = (if byte_val c =? 0xF0 then 0x90 else 0x80) /\
       hi = (if byte_val c =? 0xF4 then 0x8F else 0xBF)).
Proof.
  intros H. unfold first, locb, hicb.
  decide_cmp; (do 3 eexists); (split; [reflexivity|]); repeat split; lia.
Qed.

Lemma DecodeRune_seq2 c0 c1 p :
  seq2 (byte_val c0) (byte_val c1) ->
  DecodeRune (String c0 (String c1 p))
  = (rune2 (byte_val c0) (byte_val c1), 2%nat).
Proof.
  intros (H0 & H1). unfold DecodeRune.
  destruct (first_lead c0) as (sz & lo & hi & -> & Hsz & _); [lia|].
  destruct Hsz as (-> & -> & ->); [lia|].
  rewrite outside_in by lia. simpl. f_equal.
  unfold mask2, maskx, rune2. bits_to_arith. lia.
Qed.

Lemma DecodeRune_seq3 c0 c1 c2 p :
  seq3 (byte_val c0) (byte_val c1) (byte_val c2) ->
  DecodeRune (String c0 (String c1 (String c2 p)))
  = (rune3 (byte_val c0) (byte_val c1) (byte_val c2), 3%nat).
Proof.
  intros (H0 & H1 & Hlo & Hhi & H2). unfold DecodeRune.
  destruct (first_lead c0) as (sz & lo & hi & -> & _ & Hsz & _); [lia|].
  destruct Hsz as (-> & -> & ->); [lia|].
  rewrite outside_in by (decide_cmp; lia).
  rewrite (outside_in _ locb hicb) by (unfold locb, hicb; lia). simpl. f_equal.
  unfold mask3, maskx, rune3. bits_to_arith. lia.
Qed.

Lemma DecodeRune_seq4 c0 c1 c2 c3 p :
  seq4 (byte_val c0) (byte_val c1) (byte_val c2) (byte_val c3) ->
  DecodeRune (String c0 (String c1 (String c2 (String c3 p))))
  = (rune4 (byte_val c0) (byte_val c1) (byte_val c2) (byte_val c3), 4%nat).
Proof.
  intros (H0 & H1 & Hlo & Hhi & H2 & H3). unfold DecodeRune.
  destruct (first_lead c0) as (sz & lo & hi & -> & _ & _ & Hsz); [lia|].
  destruct Hsz as (-> & -> & ->); [lia|].
  rewrite outside_in by (decide_cmp; lia).
  rewrite !(outside_in _ locb hicb) by (unfold locb, hicb; lia). simpl. f_equal.
  unfold mask4, maskx, rune4. bits_to_arith. lia.
Qed.

Ltac bad :=
  match goal with
  | E : first _ = _, Hbad : forall q, decoded _ q _ _,
    Hif : forall q b, decoded _ q _ _ |- _ =>
    unfold DecodeRune; rewrite E;
    repeat match goal with
    | H : outside _ _ _ = _ |- _ => rewrite H
    end;
    cbn -[N.lor N.shiftl N.land byte_val outside];
    first [apply Hbad | apply Hif]
  end.

Lemma DecodeRune_decoded c0 p :
  decoded c0 p (DecodeRune (String c0 p)).1 (DecodeRune (String c0 p)).2.
Proof.
  pose proof (first_cases c0) as Hf. pose proof (byte_val_lt c0) as Hc0.
  destruct (first c0) as [| |sz lo hi] eqn:E.
  - unfold DecodeRune. rewrite E. apply decoded_ascii. unfold RuneSelf. lia.
  - unfold DecodeRune. rewrite E. apply decoded_invalid. unfold RuneSelf. lia.
  - assert (forall q, decoded c0 q RuneError 1) as Hbad.
    { intros q. apply decoded_invalid. unfold RuneSelf. lia. }
    assert (forall q (b : bool), decoded c0 q
              (if b then (RuneError, 1%nat) else (RuneError, 1%nat)).1
              (if b then (RuneError, 1%nat) else (RuneError, 1%nat)).2) as Hif.
    { intros q []; apply Hbad. }
    destruct p as [|c1 p].
    { unfold DecodeRune. rewrite E. apply Hif. }
    destruct (outside (byte_val c1) lo hi) eqn:Ho1.
    { bad. }
    pose proof (outside_false _ _ _ Ho1) as Hr1.
    destruct Hf as [(-> & -> & -> & Hb0)|[(-> & Hf)|(-> & Hf)]].
    + rewrite DecodeRune_seq2 by (unfold seq2; lia). simpl.
      eapply decoded_2; [reflexivity|unfold seq2; lia].
    + destruct p as [|c2 p].
      { bad. }
      destruct (outside (byte_val c2) locb hicb) eqn:Ho2.
      { bad. }
      apply outside_false in Ho2. unfold locb, hicb in Ho2.
      rewrite DecodeRune_seq3 by (unfold seq3; lia). simpl.
      eapply decoded_3; [reflexivity|unfold seq3; lia].
    + destruct p as [|c2 p].
      { bad. }
      destruct (outside (byte_val c2) locb hicb) eqn:Ho2.
      { bad. }
      apply outside_false in Ho2. unfold locb, hicb in Ho2.
      destruct p as [|c3 p].
      { bad. }
      destruct (outside (byte_val c3) locb hicb) eqn:Ho3.
      { bad. }
      apply outside_false in Ho3. unfold locb, hicb in Ho3.
      rewrite DecodeRune_seq4 by (unfold seq4; lia). simpl.
      eapply decoded_4; [reflexivity|unfold seq4; lia].
Qed.

Lemma EncodeRune_ascii r : r < RuneSelf -> EncodeRune r = str1 (to_byte r).
Proof. unfold EncodeRune, RuneSelf, rune1Max. intros. decide_cmp. reflexivity. Qed.

Lemma EncodeRune_rune2 c0 c1 :
  seq2 (byte_val c0) (byte_val c1) ->
  EncodeRune (rune2 (byte_val c0) (byte_val c1)) = String c0 (str1 c1).
Proof.
  intros (H0 & H1). unfold EncodeRune, rune1Max, rune2Max, rune2.
  set (b0 := byte_val c0) in *. set (b1 := byte_val c1) in *.
  decide_cmp. unfold str1. f_equal; [|f_equal]; apply to_byte_eq;
    unfold t2, tx, maskx; bits_to_arith; lia.
Qed.

Lemma EncodeRune_rune3 c0 c1 c2 :
  seq3 (byte_val c0) (byte_val c1) (byte_val c2) ->
  EncodeRune (rune3 (byte_val c0) (byte_val c1) (byte_val c2))
  = String c0 (String c1 (str1 c2)).
Proof.
  intros (H0 & H1 & Hlo & Hhi & H2).
  unfold EncodeRune, rune1Max, rune2Max, rune3Max, MaxRune, surrogateMin,
    surrogateMax, rune3.
  set (b0 := byte_val c0) in *. set (b1 := byte_val c1) in *.
  set (b2 := byte_val c2) in *.
  decide_cmp; simpl; unfold enc3, str1; (f_equal; [|f_equal; [|f_equal]]);
    apply to_byte_eq; unfold t3, tx, maskx; bits_to_arith; lia.
Qed.

Lemma EncodeRune_rune4 c0 c1 c2 c3 :
  seq4 (byte_val c0) (byte_val c1) (byte_val c2) (byte_val c3) ->
  EncodeRune (rune4 (byte_val c0) (byte_val c1) (byte_val c2) (byte_val c3))
  = String c0 (String c1 (String c2 (str1 c3))).
Proof.
  intros (H0 & H1 & Hlo & Hhi & H2 & H3).
  unfold EncodeRune, rune1Max, rune2Max, rune3Max, MaxRune, surrogateMin,
    surrogateMax, rune4.
  set (b0 := byte_val c0) in *. set (b1 := byte_val c1) in *.
  set (b2 := byte_val c2) in *. set (b3 := byte_val c3) in *.
  decide_cmp; simpl; unfold str1; (f_equal; [|f_equal; [|f_equal; [|f_equal]]]);
    apply to_byte_eq; unfold t4, tx, maskx; bits_to_arith; lia.
Qed.

Lemma append_assoc (a b c : string) : (a +:+ b) +:+ c = a +:+ (b +:+ c).
Proof. induction a as [|x a IH]; simpl; [reflexivity|]. f_equal. exact IH. Qed.

Lemma append_nil_r (a : string) : a +:+ "" = a.
Proof. induction a as [|x a IH]; simpl; [reflexivity|]. f_equal. exact IH. Qed.

Lemma length_append (a b : string) :
  String.length (a +:+ b) = (String.length a + String.length b)%nat.
Proof. induction a as [|x a IH]; simpl; [reflexivity|]. f_equal. exact IH. Qed.

Lemma byte_val_to_byte_small n : n < 256 -> byte_val (to_byte n) = n.
Proof. intros. rewrite byte_val_to_byte. apply N.mod_small. assumption. Qed.

Lemma enc3_encoded r :
  0x800 <= r <= 0xFFFF -> ~ (0xD800 <= r <= 0xDFFF) -> encoded (enc3 r).
Proof.
  intros Hr Hs. apply encoded_3. unfold seq3, t3, tx, maskx.
  rewrite !byte_val_to_byte. bits_to_arith. lia.
Qed.

Lemma EncodeRune_encoded r : encoded (EncodeRune r).
Proof.
  unfold EncodeRune, rune1Max, rune2Max, rune3Max, MaxRune, surrogateMin,
    surrogateMax.
  decide_cmp; simpl;
  first
    [ apply encoded_1; rewrite byte_val_to_byte_small; unfold RuneSelf; lia
    | apply encoded_2; unfold seq2, t2, tx, maskx;
      rewrite !byte_val_to_byte; bits_to_arith; lia
    | apply enc3_encoded; unfold RuneError; lia
    | apply encoded_4; unfold seq4, t4, tx, maskx;
      rewrite !byte_val_to_byte; bits_to_arith; lia ].
Qed.

Lemma ValidString_ascii c s :
  byte_val c < RuneSelf -> ValidString (String c s) = ValidString s.
Proof. intros H. simpl. apply N.ltb_lt in H. rewrite H. reflexivity. Qed.

Lemma ValidString_encoded e s :
  encoded e -> ValidString (e +:+ s) = ValidString s.
Proof.
  intros [c H|c0 c1 H|c0 c1 c2 H|c0 c1 c2 c3 H].
  - apply ValidString_ascii, H.
  - change (String c0 (str1 c1) +:+ s) with (String c0 (String c1 s)).
    cbn [ValidString]. rewrite DecodeRune_seq2 by exact H.
    destruct H as (H0 & _). unfold RuneSelf.
    destruct (N.ltb_spec (byte_val c0) 128); [lia|reflexivity].
  - change (String c0 (String c1 (str1 c2)) +:+ s)
      with (String c0 (String c1 (String c2 s))).
    cbn [ValidString]. rewrite DecodeRune_seq3 by exact H.
    destruct H as (H0 & _). unfold RuneSelf.
    destruct (N.ltb_spec (byte_val c0) 128); [lia|reflexivity].
  - change (String c0 (String c1 (String c2 (str1 c3))) +:+ s)
      with (String c0 (String c1 (String c2 (String c3 s)))).
    cbn [ValidString]. rewrite DecodeRune_seq4 by exact H.
    destruct H as (H0 & _). unfold RuneSelf.
    destruct (N.ltb_spec (byte_val c0) 128); [lia|reflexivity].
Qed.

Lemma ValidString_EncodeRune r s :
  ValidString (EncodeRune r +:+ s) = ValidString s.
Proof. apply ValidString_encoded, EncodeRune_encoded. Qed.

Lemma string_len_ind (P : string -> Prop) :
  (forall s, (forall t, (String.length t < String.length s)%nat -> P t) -> P s) ->
  forall s, P s.
Proof.
  intros H s. remember (String.length s) as n eqn:Hn.
  revert s Hn. induction n as [n IH] using lt_wf_ind. intros s ->.
  apply H. intros t Ht. eapply IH; [exact Ht|reflexivity].
Qed.

Lemma simpleEscape_ascii e x : simpleEscape e = Some x -> byte_val x < RuneSelf.
Proof.
  unfold simpleEscape, RuneSelf.
  repeat match goal with
  | |- context [?a =? ?b] => destruct (N.eqb_spec a b)
  end; simpl; intros [= <-]; try (vm_compute; reflexivity); lia.
Qed.

Lemma emit_Some pre x out :
  emit pre x = Some out -> exists o, x = Some o /\ out = pre +:+ o.
Proof. destruct x; simpl; [intros [= <-]; eauto|discriminate]. Qed.

Lemma unquote_valid s out : unquote s = Some out -> ValidString out = true.
Proof.
  revert out. induction s as [s IH] using string_len_ind. intros out H.
  destruct s as [|c t]; [injection H as <-; reflexivity|].
  cbn [unquote] in H.
  repeat match type of H with
  | context [match ?x with _ => _ end] => destruct x eqn:?
  end; try discriminate;
  apply emit_Some in H as (o & Ho & ->);
  (apply IH in Ho; [|subst; simpl; lia]);
  first
    [ rewrite ValidString_EncodeRune; exact Ho
    | rewrite ValidString_encoded; [exact Ho|];
      apply encoded_1;
      first [ eapply simpleEscape_ascii; eassumption
            | apply N.ltb_lt; assumption ] ].
Qed.

Lemma DecodeRune_ascii c0 p :
  byte_val c0 < RuneSelf -> DecodeRune (String c0 p) = (byte_val c0, 1%nat).
Proof.
  intros H. unfold DecodeRune. pose proof (first_cases c0) as Hf.
  unfold RuneSelf in H.
  destruct (first c0) as [| |sz lo hi]; [reflexivity|lia|].
  destruct Hf as [(_ & _ & _ & Hb)|[(_ & Hb)|(_ & Hb)]]; lia.
Qed.

Lemma decoded_DecodeRune c0 p r size :
  decoded c0 p r size -> (size = 1%nat \/ DecodeRune (String c0 p) = (r, size)).
Proof.
  intros [H|H|c1 p' -> H|c1 c2 p' -> H|c1 c2 c3 p' -> H]; auto.
  - right. apply DecodeRune_seq2, H.
  - right. apply DecodeRune_seq3, H.
  - right. apply DecodeRune_seq4, H.
Qed.

Lemma DecodeRune_take s : DecodeRune (take_UTFMax s) = DecodeRune s.
Proof.
  destruct s as [|c0 p]; [reflexivity|].
  unfold take_UTFMax, UTFMax. cbn [substring].
  pose proof (DecodeRune_decoded c0 p) as Hd.
  destruct (DecodeRune (String c0 p)) as [r size] eqn:E. cbn [fst snd] in Hd.
  inversion Hd as [H|H|c1 p' Hp H|c1 c2 p' Hp H|c1 c2 c3 p' Hp H]; subst.
  - apply DecodeRune_ascii, H.
  - pose proof (DecodeRune_decoded c0 (substring 0 3 p)) as Hd'.
    destruct (DecodeRune (String c0 (substring 0 3 p))) as [r' size'].
    cbn [fst snd] in Hd'.
    inversion Hd' as [H'|H'|c1 p' Hp H'|c1 c2 p' Hp H'|c1 c2 c3 p' Hp H'];
      subst; try reflexivity.
    + unfold RuneSelf in *. lia.
    + destruct p as [|d1 p]; [discriminate|]. cbn [substring] in Hp.
      injection Hp as -> _. rewrite DecodeRune_seq2 in E by exact H'.
      discriminate.
    + destruct p as [|d1 [|d2 p]]; try discriminate. cbn [substring] in Hp.
      injection Hp as -> -> _. rewrite DecodeRune_seq3 in E by exact H'.
      discriminate.
    + destruct p as [|d1 [|d2 [|d3 p]]]; try discriminate.
      cbn [substring] in Hp. injection Hp as -> -> -> _.
      rewrite DecodeRune_seq4 in E by exact H'. discriminate.
  - cbn [substring]. rewrite DecodeRune_seq2 by exact H. reflexivity.
  - cbn [substring]. rewrite DecodeRune_seq3 by exact H. reflexivity.
  - cbn [substring]. rewrite DecodeRune_seq4 by exact H. reflexivity.
Qed.

Lemma byte_val_inj c d : byte_val c = byte_val d -> c = d.
Proof.
  intros H. rewrite <- (to_byte_val c), <- (to_byte_val d), H. reflexivity.
Qed.

Lemma eqb_byte c d : byte_val c <> byte_val d -> Ascii.eqb c d = false.
Proof. intros H. apply Ascii.eqb_neq. intros ->. apply H. reflexivity. Qed.

Lemma chunk_ascii b :
  byte_val b < RuneSelf ->
  chunk (if htmlSafeSet b then str1 b else escape_ascii b) (str1 b).
Proof.
  destruct b as [[] [] [] [] [] [] [] []]; intros H;
    try (exfalso; vm_compute in H; discriminate H);
    split; intros x; reflexivity.
Qed.

Lemma scan_plain c x :
  RuneSelf <= byte_val c ->
  scan_string (String c x) = keep (str1 c) (scan_string x).
Proof.
  intros H. unfold RuneSelf in H. cbn [scan_string].
  rewrite !eqb_byte by (vm_compute byte_val at 2; lia).
  destruct (N.ltb_spec (byte_val c) 0x20); [lia|reflexivity].
Qed.

Lemma keep_keep a b x : keep a (keep b x) = keep (a +:+ b) x.
Proof. destruct x as [[raw rest]| |]; simpl; [|reflexivity..]. rewrite append_assoc. reflexivity. Qed.

Lemma unquote_high c x :
  RuneSelf <= byte_val c ->
  unquote (String c x) =
    let '(rr, size) := DecodeRune (String c x) in
    match size, x with
    | 1%nat, _ => emit (EncodeRune rr) (unquote x)
    | 2%nat, String _ t1 => emit (EncodeRune rr) (unquote t1)
    | 3%nat, String _ (String _ t2) => emit (EncodeRune rr) (unquote t2)
    | 4%nat, String _ (String _ (String _ t3)) =>
      emit (EncodeRune rr) (unquote t3)
    | _, _ => None
    end.
Proof.
  intros H. unfold RuneSelf in H. cbn [unquote].
  rewrite !eqb_byte by (vm_compute byte_val at 2; lia).
  unfold RuneSelf.
  destruct (N.ltb_spec (byte_val c) 0x20); [lia|].
  destruct (N.ltb_spec (byte_val c) 0x80); [lia|]. reflexivity.
Qed.

Lemma chunk_replacement : chunk (String backslash "ufffd") (EncodeRune RuneError).
Proof. split; intros x; reflexivity. Qed.

Lemma chunk_2 c0 c1 :
  seq2 (byte_val c0) (byte_val c1) ->
  chunk (String c0 (str1 c1)) (String c0 (str1 c1)).
Proof.
  intros H. pose proof H as (H0 & H1). split; intros x.
  - cbn [String.append str1]. rewrite !scan_plain by (unfold RuneSelf; lia).
    rewrite keep_keep. reflexivity.
  - cbn [String.append str1]. rewrite unquote_high by (unfold RuneSelf; lia).
    rewrite DecodeRune_seq2 by exact H. rewrite EncodeRune_rune2 by exact H.
    reflexivity.
Qed.

Lemma chunk_3 c0 c1 c2 :
  seq3 (byte_val c0) (byte_val c1) (byte_val c2) ->
  chunk (String c0 (String c1 (str1 c2))) (String c0 (String c1 (str1 c2))).
Proof.
  intros H. pose proof H as (H0 & H1 & _ & _ & H2). split; intros x.
  - cbn [String.append str1]. rewrite !scan_plain by (unfold RuneSelf; lia).
    rewrite !keep_keep. reflexivity.
  - cbn [String.append str1]. rewrite unquote_high by (unfold RuneSelf; lia).
    rewrite DecodeRune_seq3 by exact H. rewrite EncodeRune_rune3 by exact H.
    reflexivity.
Qed.

Lemma chunk_4 c0 c1 c2 c3 :
  seq4 (byte_val c0) (byte_val c1) (byte_val c2) (byte_val c3) ->
  chunk (String c0 (String c1 (String c2 (str1 c3))))
        (String c0 (String c1 (String c2 (str1 c3)))).
Proof.
  intros H. pose proof H as (H0 & H1 & _ & _ & H2 & H3). split; intros x.
  - cbn [String.append str1]. rewrite !scan_plain by (unfold RuneSelf; lia).
    rewrite !keep_keep. reflexivity.
  - cbn [String.append str1]. rewrite unquote_high by (unfold RuneSelf; lia).
    rewrite DecodeRune_seq4 by exact H. rewrite EncodeRune_rune4 by exact H.
    reflexivity.
Qed.

(** The line and paragraph separators, which the encoder escapes. *)
Lemma chunk_separator c0 c1 c2 :
  seq3 (byte_val c0) (byte_val c1) (byte_val c2) ->
  let c := rune3 (byte_val c0) (byte_val c1) (byte_val c2) in
  ((c =? 0x2028) || (c =? 0x2029)) = true ->
  chunk (String backslash "u202" +:+ str1 (hex_at (N.land c 0xF)))
        (String c0 (String c1 (str1 c2))).
Proof.
  intros H c Hc. rewrite <- (EncodeRune_rune3 c0 c1 c2 H). fold c.
  apply orb_true_iff in Hc as [Hc|Hc]; apply N.eqb_eq in Hc; rewrite Hc;
    split; intros x; reflexivity.
Qed.

(** One turn of the loop of [escape]: from the source [src +:+ t'] it takes
    [src] and writes [chunk], which [unquote] reads as [dec]; [dec] is [src]
    unless [src] is a byte that is not valid UTF-8. *)
Lemma escape_step b t :
  exists p src dec t',
    String b t = src +:+ t'
    /\ (String.length t' < String.length (String b t))%nat
    /\ escape (String b t) = p +:+ escape t'
    /\ chunk p dec
    /\ (ValidString (String b t) = true -> dec = src /\ ValidString t' = true).
Proof.
  destruct (N.ltb_spec (byte_val b) RuneSelf) as [Hb|Hb].
  - exists (if htmlSafeSet b then str1 b else escape_ascii b), (str1 b),
      (str1 b), t.
    split; [reflexivity|]. split; [simpl; lia|]. split.
    { cbn [escape]. apply N.ltb_lt in Hb. rewrite Hb. reflexivity. }
    split; [apply chunk_ascii, Hb|].
    rewrite ValidString_ascii by exact Hb. auto.
  - assert ((byte_val b <? RuneSelf) = false) as Hbf by (apply N.ltb_ge, Hb).
    pose proof (DecodeRune_decoded b t) as Hd.
    assert (escape (String b t) =
      let '(c, size) := DecodeRune (String b t) in
      if (c =? RuneError) && (size =? 1)%nat then
        String backslash "ufffd" +:+ escape t
      else
        match size, t with
        | 2%nat, String b1 t1 => String b (String b1 (escape t1))
        | 3%nat, String b1 (String b2 t2) =>
          if (c =? 0x2028) || (c =? 0x2029) then
            String backslash "u202"
              +:+ String (hex_at (N.land c 0xF)) (escape t2)
          else String b (String b1 (String b2 (escape t2)))
        | 4%nat, String b1 (String b2 (String b3 t3)) =>
          String b (String b1 (String b2 (String b3 (escape t3))))
        | _, _ => ""
        end) as He.
    { cbn [escape]. rewrite Hbf, DecodeRune_take. reflexivity. }
    assert (ValidString (String b t) =
      match snd (DecodeRune (String b t)), t with
      | 2%nat, String _ t1 => ValidString t1
      | 3%nat, String _ (String _ t2) => ValidString t2
      | 4%nat, String _ (String _ (String _ t3)) => ValidString t3
      | _, _ => false
      end) as Hv.
    { cbn [ValidString]. rewrite Hbf. reflexivity. }
    destruct (DecodeRune (String b t)) as [r size]. cbn [fst snd] in Hd, Hv.
    inversion Hd as [H|H|c1 p' Hp H|c1 c2 p' Hp H|c1 c2 c3 p' Hp H]; subst.
    + unfold RuneSelf in *. lia.
    + exists (String backslash "ufffd"), (str1 b), (EncodeRune RuneError), t.
      split; [reflexivity|]. split; [simpl; lia|]. split; [exact He|].
      split; [apply chunk_replacement|]. rewrite Hv. discriminate.
    + exists (String b (str1 c1)), (String b (str1 c1)), (String b (str1 c1)), p'.
      split; [reflexivity|]. split; [simpl; lia|]. split.
      { rewrite He. cbn [Nat.eqb]. rewrite Bool.andb_false_r. reflexivity. }
      split; [apply chunk_2, H|]. rewrite Hv. auto.
    + set (c := rune3 (byte_val b) (byte_val c1) (byte_val c2)) in *.
      destruct ((c =? 0x2028) || (c =? 0x2029)) eqn:Hsep.
      * exists (String backslash "u202" +:+ str1 (hex_at (N.land c 0xF))),
          (String b (String c1 (str1 c2))), (String b (String c1 (str1 c2))), p'.
        split; [reflexivity|]. split; [simpl; lia|]. split.
        { rewrite He. cbn [Nat.eqb]. rewrite Bool.andb_false_r. reflexivity. }
        split; [apply chunk_separator; assumption|]. rewrite Hv. auto.
      * exists (String b (String c1 (str1 c2))),
          (String b (String c1 (str1 c2))), (String b (String c1 (str1 c2))), p'.
        split; [reflexivity|]. split; [simpl; lia|]. split.
        { rewrite He. cbn [Nat.eqb]. rewrite Bool.andb_false_r. reflexivity. }
        split; [apply chunk_3, H|]. rewrite Hv. auto.
    + exists (String b (String c1 (String c2 (str1 c3)))),
        (String b (String c1 (String c2 (str1 c3)))),
        (String b (String c1 (String c2 (str1 c3)))), p'.
      split; [reflexivity|]. split; [simpl; lia|]. split.
      { rewrite He. cbn [Nat.eqb]. rewrite Bool.andb_false_r. reflexivity. }
      split; [apply chunk_4, H|]. rewrite Hv. auto.
Qed.

Lemma emit_emit a b x : emit a (emit b x) = emit (a +:+ b) x.
Proof. destruct x; simpl; [|reflexivity]. rewrite append_assoc. reflexivity. Qed.

(** The scanner accepts what the encoder writes for a string, whatever the
    string. *)
Lemma scan_string_escape s rest :
  scan_string (escape s +:+ String dquote rest) = Scanned (escape s, rest).
Proof.
  induction s as [s IH] using string_len_ind.
  destruct s as [|b t]; [reflexivity|].
  destruct (escape_step b t) as (p & src & dec & t' & _ & Hlen & -> & [Hs _] & _).
  rewrite append_assoc, Hs, IH by exact Hlen. reflexivity.
Qed.

(** Reading back what the encoder writes for a valid UTF-8 string gives the
    string. *)
Lemma unquote_escape s :
  ValidString s = true -> unquote (escape s) = Some s.
Proof.
  induction s as [s IH] using string_len_ind. intros Hv.
  destruct s as [|b t]; [reflexivity|].
  destruct (escape_step b t)
    as (p & src & dec & t' & Hsrc & Hlen & -> & [_ Hu] & Hval).
  destruct (Hval Hv) as [-> Hv']. rewrite Hu, IH by assumption.
  simpl. rewrite Hsrc. reflexivity.
Qed.

Lemma coerce_valid s : ValidString s = true -> coerce s = s.
Proof. intros H. unfold coerce, unquote_string. rewrite unquote_escape by exact H. reflexivity. Qed.

Lemma appendString_app s x :
  appendString s +:+ x = String dquote (escape s +:+ String dquote x).
Proof. unfold appendString. cbn [String.append]. rewrite append_assoc. reflexivity. Qed.

Lemma scan_value_string fuel depth v x :
  scan_value (S fuel) depth (appendString v +:+ x)
  = Scanned (VString (escape v), x).
Proof.
  rewrite appendString_app. cbn [scan_value skipSpace].
  change (isSpace dquote) with false. cbv iota.
  change (Ascii.eqb dquote "{") with false.
  change (Ascii.eqb dquote "[") with false.
  change (Ascii.eqb dquote dquote) with true. cbv iota.
  rewrite scan_string_escape. reflexivity.
Qed.

(** One member written by the encoder, read by the decoder. *)
Lemma object_members_step fuel kv x g saved :
  (1 <= fuel)%nat ->
  object_members (S fuel) (encode_entry kv +:+ x) g saved
  = match skipSpace x with
    | EmptyString => NeedMore
    | String c2 t2 =>
      if Ascii.eqb c2 "," then object_members fuel t2 (store_entry g kv) saved
      else if Ascii.eqb c2 "}" then Scanned (store_entry g kv, saved, t2)
      else SyntaxErr
    end.
Proof.
  intros Hfuel. destruct kv as [k v]. unfold encode_entry. cbn [fst snd].
  rewrite !append_assoc, appendString_app.
  cbn [object_members skipSpace]. change (isSpace dquote) with false.
  cbv iota. change (Ascii.eqb dquote dquote) with true. cbn [negb].
  rewrite scan_string_escape. cbn [scan_bind].
  cbn [String.append skipSpace]. change (isSpace ":") with false.
  cbv iota. change (Ascii.eqb ":" ":") with true. cbn [negb].
  destruct fuel as [|fuel]; [lia|].
  rewrite scan_value_string. cbn [scan_bind element].
  rewrite Bool.orb_false_r. reflexivity.
Qed.

Lemma object_members_entries kvs : forall kv g saved fuel rest,
  (length kvs + 1 < fuel)%nat ->
  object_members fuel
    (encode_entry kv +:+ encode_entries false kvs +:+ String "}" rest) g saved
  = Scanned (foldl store_entry (store_entry g kv) kvs, saved, rest).
Proof.
  induction kvs as [|kv' kvs IH]; intros kv g saved fuel rest Hfuel.
  all: destruct fuel as [|fuel]; [simpl in Hfuel; lia|].
  all: rewrite object_members_step by (simpl in Hfuel; lia).
  - reflexivity.
  - cbn [encode_entries String.append skipSpace].
    change (isSpace ",") with false. cbv iota.
    change (Ascii.eqb "," ",") with true. cbv iota.
    rewrite append_assoc, IH by (simpl in Hfuel; lia). reflexivity.
Qed.

Lemma length_encode_entries first kvs :
  (length kvs <= String.length (encode_entries first kvs))%nat.
Proof.
  revert first. induction kvs as [|kv kvs IH]; intros first; [simpl; lia|].
  cbn [encode_entries]. rewrite !length_append. specialize (IH false).
  unfold encode_entry, appendString. simpl. rewrite !length_append. simpl. lia.
Qed.

Lemma foldl_store_valid (l : list (string * string)) g :
  Forall (fun kv => ValidString kv.1 = true /\ ValidString kv.2 = true) l ->
  foldl store_entry g l = foldl (fun g kv => <[kv.1 := kv.2]> g) g l.
Proof.
  intros H. revert g. induction H as [|kv l [H1 H2] _ IH]; intros g; [reflexivity|].
  simpl. rewrite <- IH. unfold store_entry. rewrite !coerce_valid by assumption.
  reflexivity.
Qed.

Lemma foldl_insert_list_to_map (l : list (string * string)) :
  foldl (fun g kv => <[kv.1 := kv.2]> g) (∅ : gmap string string) l
  = list_to_map (reverse l).
Proof.
  induction l as [|kv l IH] using rev_ind; [reflexivity|].
  rewrite foldl_app, reverse_app. simpl. rewrite IH. reflexivity.
Qed.

Lemma foldl_insert_sorted (g : gmap string string) :
  foldl (fun g kv => <[kv.1 := kv.2]> g) ∅ (sorted_entries g) = g.
Proof.
  rewrite foldl_insert_list_to_map. symmetry. apply list_to_map_flip.
  unfold sorted_entries. rewrite reverse_Permutation.
  rewrite merge_sort_Permutation. reflexivity.
Qed.

Lemma sorted_entries_valid g :
  valid_map (Some g) ->
  Forall (fun kv => ValidString kv.1 = true /\ ValidString kv.2 = true)
         (sorted_entries g).
Proof.
  intros H. apply Forall_forall. intros [k v] Hin. apply H.
  apply elem_of_map_to_list. unfold sorted_entries in Hin.
  rewrite merge_sort_Permutation in Hin. exact Hin.
Qed.

Lemma skipSpace_entry kv x :
  exists t, encode_entry kv +:+ x = String dquote t
            /\ skipSpace (encode_entry kv +:+ x) = String dquote t.
Proof.
  unfold encode_entry. rewrite !append_assoc, appendString_app. eauto.
Qed.

Lemma Decode_Encode_bytes m :
  Decode (Encode_bytes m) io_EOF make_map = (recode m, None).
Proof.
  destruct m as [g|]; [|reflexivity].
  unfold Encode_bytes, mapEncoder, recode.
  destruct (sorted_entries g) as [|kv l]; [reflexivity|].
  set (x := encode_entries false l +:+ String "}" (str1 newline)).
  assert ((("{" +:+ encode_entries true (kv :: l) +:+ "}") +:+ str1 newline)
          = String "{" (encode_entry kv +:+ x)) as ->.
  { unfold x. cbn [encode_entries String.append]. rewrite !append_assoc.
    reflexivity. }
  assert (length l + 1 < String.length (String "{" (encode_entry kv +:+ x)))%nat
    as Hlen.
  { unfold x. cbn [String.length]. rewrite !length_append.
    pose proof (length_encode_entries false l). simpl. lia. }
  unfold Decode, Decode_fuel. cbn [skipSpace]. change (isSpace "{") with false. cbv iota.
  change (Ascii.eqb "{" "{") with true. cbv iota.
  destruct (skipSpace_entry kv x) as (t & Ht & ->).
  change (Ascii.eqb dquote "}") with false. cbv iota.
  unfold x at 2. rewrite object_members_entries by exact Hlen. reflexivity.
Qed.

Lemma recode_valid m : valid_map m -> recode m = m.
Proof.
  destruct m as [g|]; [|reflexivity]. intros H. unfold recode. f_equal.
  rewrite foldl_store_valid by (apply sorted_entries_valid, H).
  apply foldl_insert_sorted.
Qed.

Lemma unquote_string_valid raw : ValidString (unquote_string raw) = true.
Proof.
  unfold unquote_string. destruct (unquote raw) eqn:E; [|reflexivity].
  eapply unquote_valid, E.
Qed.

Lemma element_valid k : ValidString (element k).1 = true.
Proof. destruct k; try reflexivity. apply unquote_string_valid. Qed.

Lemma valid_map_insert g k v :
  valid_map (Some g) -> ValidString k = true -> ValidString v = true ->
  valid_map (Some (<[k := v]> g)).
Proof.
  intros Hg Hk Hv k' v' Hl. destruct (decide (k = k')) as [<-|Hne].
  - rewrite lookup_insert_eq in Hl. injection Hl as <-. auto.
  - rewrite lookup_insert_ne in Hl by exact Hne. apply Hg, Hl.
Qed.

Lemma object_members_valid fuel : forall s g saved g' saved' rest,
  valid_map (Some g) ->
  object_members fuel s g saved = Scanned (g', saved', rest) ->
  valid_map (Some g').
Proof.
  induction fuel as [|fuel IH]; intros s g saved g' saved' rest Hg H;
    [discriminate|].
  cbn [object_members] in H.
  destruct (skipSpace s) as [|c t]; [discriminate|].
  destruct (negb (Ascii.eqb c dquote)); [discriminate|].
  destruct (scan_string t) as [[rawkey r1]| |]; try discriminate.
  cbn [scan_bind] in H.
  destruct (skipSpace r1) as [|c1 t1]; [discriminate|].
  destruct (negb (Ascii.eqb c1 ":")); [discriminate|].
  destruct (scan_value fuel 1 t1) as [[k r2]| |]; try discriminate.
  cbn [scan_bind] in H.
  pose proof (element_valid k) as Hk.
  destruct (element k) as [value bad]. cbn [fst] in Hk.
  assert (valid_map (Some (<[unquote_string rawkey := value]> g))) as Hg'.
  { apply valid_map_insert; [exact Hg|apply unquote_string_valid|exact Hk]. }
  destruct (skipSpace r2) as [|c2 t2]; [discriminate|].
  destruct (Ascii.eqb c2 ",").
  - eapply IH; [exact Hg'|exact H].
  - destruct (Ascii.eqb c2 "}"); [|discriminate].
    injection H as <- _ _. exact Hg'.
Qed.

(** The decoder stores valid UTF-8 only. *)
Lemma Decode_valid data term m m' e :
  valid_map m -> Decode data term m = (m', e) -> valid_map m'.
Proof.
  intros Hm. unfold Decode, Decode_fuel.
  destruct (skipSpace data) as [|c t]; [intros [= <- _]; exact Hm|].
  destruct (Ascii.eqb c "{").
  - set (g0 := match m with Some g => g | None => ∅ end).
    assert (valid_map (Some g0)) as Hg0.
    { unfold g0. destruct m; [exact Hm|]. intros k v Hl.
      rewrite lookup_empty in Hl. discriminate. }
    destruct (skipSpace t) as [|c1 t1]; [intros [= <- _]; exact Hm|].
    destruct (Ascii.eqb c1 "}"); [intros [= <- _]; exact Hg0|].
    destruct (object_members _ _ _ _) as [[[g saved] rest]| |] eqn:E;
      intros [= <- _]; try exact Hm.
    eapply object_members_valid; [exact Hg0|exact E].
  - destruct (Ascii.eqb c "n"); [|intros [= <- _]; exact Hm].
    destruct (scan_word "ull" t); try (intros [= <- _]; exact Hm).
    destruct (top_literal _ _ _); intros [= <- _]; [exact Hm|exact I].
Qed.

(** ** The decoder and the grammar of the files *)

Lemma skipSpace_split s : exists ws, blank ws /\ s = ws +:+ skipSpace s.
Proof.
  induction s as [|c s (ws & Hws & IH)]; [exists ""; split; reflexivity|].
  cbn [skipSpace]. destruct (isSpace c) eqn:E.
  - exists (String c ws). split.
    + unfold blank. cbn [skipSpace]. rewrite E. exact Hws.
    + cbn [String.append]. f_equal. exact IH.
  - exists "". split; reflexivity.
Qed.

Lemma keep_Scanned pre x raw rest :
  keep pre x = Scanned (raw, rest) ->
  exists raw', x = Scanned (raw', rest) /\ raw = pre +:+ raw'.
Proof.
  destruct x as [[raw' rest']| |]; simpl; try discriminate.
  intros [= <- <-]. eauto.
Qed.

Lemma scan_string_sound s : forall raw rest,
  scan_string s = Scanned (raw, rest) ->
  literal_body raw /\ s = raw +:+ String dquote rest.
Proof.
  induction s as [s IH] using string_len_ind. intros raw rest H.
  destruct s as [|c t]; [discriminate|]. cbn [scan_string] in H.
  destruct (Ascii.eqb_spec c dquote) as [->|Hq].
  { injection H as <- <-. split; [constructor|reflexivity]. }
  destruct (Ascii.eqb_spec c backslash) as [->|Hb].
  - destruct t as [|e t1]; [discriminate|].
    destruct (isSimpleEscape e) eqn:He.
    + apply keep_Scanned in H as (raw' & H & ->).
      apply IH in H as [Hl ->]; [|simpl; lia].
      split; [apply body_escape; assumption|reflexivity].
    + destruct (Ascii.eqb_spec e "u") as [->|]; [|discriminate].
      destruct t1 as [|h1 [|h2 [|h3 [|h4 t5]]]];
        repeat match type of H with
        | context [negb (isHex ?h)] => destruct (isHex h) eqn:?; cbn [negb] in H
        end; try discriminate.
      apply keep_Scanned in H as (raw' & H & ->).
      apply IH in H as [Hl ->]; [|simpl; lia].
      split; [apply body_unicode; assumption|reflexivity].
  - destruct (N.ltb_spec (byte_val c) 0x20); [discriminate|].
    apply keep_Scanned in H as (raw' & H & ->).
    apply IH in H as [Hl ->]; [|simpl; lia].
    split; [apply body_byte; assumption|reflexivity].
Qed.

Lemma scan_word_sound w : forall s rest,
  scan_word w s = Scanned rest -> s = w +:+ rest.
Proof.
  induction w as [|a w IH]; intros s rest H; simpl in H.
  - injection H as <-. reflexivity.
  - destruct s as [|c t]; [discriminate|].
    destruct (Ascii.eqb_spec a c) as [->|]; [|discriminate].
    apply IH in H as ->. reflexivity.
Qed.

Lemma tagged_Scanned k x k' rest :
  tagged k x = Scanned (k', rest) -> k' = k /\ x = Scanned rest.
Proof. destruct x; simpl; try discriminate. intros [= <- <-]. auto. Qed.

(** A value the decoder stores without a type error is a string literal
    or [null]. *)
Lemma scan_value_sound fuel depth s k rest :
  scan_value fuel depth s = Scanned (k, rest) ->
  (element k).2 = false ->
  exists ws v, blank ws /\ string_or_null v /\ s = ws +:+ v +:+ rest.
Proof.
  intros H Hk. destruct fuel as [|fuel]; [discriminate|].
  cbn [scan_value] in H.
  destruct (skipSpace_split s) as (ws & Hws & Hs).
  destruct (skipSpace s) as [|c t]; [discriminate|].
  exists ws.
  repeat match type of H with
  | (if Ascii.eqb ?a ?b then _ else _) = _ =>
    destruct (Ascii.eqb_spec a b) as [->|?]
  | (if ?b then _ else _) = _ => destruct b
  | match skipSpace ?x with _ => _ end = _ => destruct (skipSpace x)
  | scan_bind (scan_value _ _ _) _ = _ => destruct (scan_value _ _ _) as [[? ?]| |]; cbn [scan_bind] in H
  | tagged _ _ = _ => apply tagged_Scanned in H as [-> H]
  | Scanned _ = Scanned _ => injection H as <- <-
  end; try discriminate.
  - destruct (scan_string t) as [[raw r]| |] eqn:E; try discriminate.
    cbn [scan_bind] in H. injection H as <- <-.
    apply scan_string_sound in E as [Hl ->].
    exists (String dquote (raw +:+ str1 dquote)). split; [exact Hws|].
    split; [left; eexists; eauto|].
    rewrite Hs. f_equal. cbn [String.append]. rewrite append_assoc. reflexivity.
  - apply scan_word_sound in H as ->. exists "null".
    split; [exact Hws|]. split; [right; reflexivity|]. exact Hs.
Qed.

Lemma object_members_saved fuel : forall s g saved g' rest,
  object_members fuel s g saved = Scanned (g', false, rest) -> saved = false.
Proof.
  induction fuel as [|fuel IH]; intros s g saved g' rest H; [discriminate|].
  cbn [object_members] in H.
  destruct (skipSpace s) as [|c t]; [discriminate|].
  destruct (negb (Ascii.eqb c dquote)); [discriminate|].
  destruct (scan_string t) as [[rawkey r1]| |]; try discriminate.
  cbn [scan_bind] in H.
  destruct (skipSpace r1) as [|c1 t1]; [discriminate|].
  destruct (negb (Ascii.eqb c1 ":")); [discriminate|].
  destruct (scan_value fuel 1 t1) as [[k r2]| |]; try discriminate.
  cbn [scan_bind] in H. destruct (element k) as [value bad].
  destruct (skipSpace r2) as [|c2 t2]; [discriminate|].
  destruct (Ascii.eqb c2 ",").
  - apply IH in H. apply orb_false_elim in H as [H _]. exact H.
  - destruct (Ascii.eqb c2 "}"); [|discriminate].
    injection H as _ H _. apply orb_false_elim in H as [H _]. exact H.
Qed.

(** The members the decoder stores without a type error. *)
Lemma object_members_sound fuel : forall s g saved g' rest,
  object_members fuel s g saved = Scanned (g', false, rest) ->
  exists ms, members string_or_null ms /\ s = ms +:+ String "}" rest.
Proof.
  induction fuel as [|fuel IH]; intros s g saved g' rest H; [discriminate|].
  cbn [object_members] in H.
  destruct (skipSpace_split s) as (ws1 & Hws1 & Hs).
  destruct (skipSpace s) as [|c t]; [discriminate|].
  destruct (Ascii.eqb_spec c dquote) as [->|]; [|discriminate]. cbn [negb] in H.
  destruct (scan_string t) as [[rawkey r1]| |] eqn:Ek; try discriminate.
  cbn [scan_bind] in H. apply scan_string_sound in Ek as [Hk ->].
  destruct (skipSpace_split r1) as (ws2 & Hws2 & Hr1).
  destruct (skipSpace r1) as [|c1 t1]; [discriminate|].
  destruct (Ascii.eqb_spec c1 ":") as [->|]; [|discriminate]. cbn [negb] in H.
  destruct (scan_value fuel 1 t1) as [[k r2]| |] eqn:Ev; try discriminate.
  cbn [scan_bind] in H.
  pose proof (scan_value_sound fuel 1 t1 k r2 Ev) as Hv.
  destruct (element k) as [value bad]. cbn [snd] in Hv.
  destruct (skipSpace_split r2) as (ws4 & Hws4 & Hr2).
  destruct (skipSpace r2) as [|c2 t2]; [discriminate|].
  assert (bad = false) as ->.
  { destruct (Ascii.eqb c2 ",").
    - apply object_members_saved in H. apply orb_false_elim in H as [_ H].
      exact H.
    - destruct (Ascii.eqb c2 "}"); [|discriminate].
      injection H as _ H _. apply orb_false_elim in H as [_ H]. exact H. }
  destruct (Hv eq_refl) as (ws3 & v & Hws3 & Hval & Ht1).
  assert (s = ws1 +:+ String dquote (rawkey +:+ str1 dquote) +:+ ws2 +:+ ":"
              +:+ ws3 +:+ v +:+ ws4 +:+ String c2 t2) as Hs'.
  { rewrite Hs. f_equal. cbn [String.append]. f_equal.
    rewrite append_assoc. f_equal. cbn [String.append]. f_equal.
    rewrite Hr1. f_equal. f_equal. rewrite Ht1. f_equal. f_equal. exact Hr2. }
  assert (string_literal (String dquote (rawkey +:+ str1 dquote))) as Hlit
    by (eexists; eauto).
  destruct (Ascii.eqb_spec c2 ",") as [->|].
  - apply IH in H as (ms & Hms & ->).
    exists (ws1 +:+ String dquote (rawkey +:+ str1 dquote) +:+ ws2 +:+ ":"
            +:+ ws3 +:+ v +:+ ws4 +:+ "," +:+ ms).
    split; [apply members_more; assumption|].
    rewrite Hs'. rewrite !append_assoc. reflexivity.
  - destruct (Ascii.eqb_spec c2 "}") as [->|]; [|discriminate].
    injection H as _ _ <-.
    exists (ws1 +:+ String dquote (rawkey +:+ str1 dquote) +:+ ws2 +:+ ":"
            +:+ ws3 +:+ v +:+ ws4).
    split; [apply members_last; assumption|].
    rewrite Hs'. rewrite !append_assoc. reflexivity.
Qed.

(** What [Decode] reads without an error, or with [io.EOF], is readable. *)
Lemma Decode_sound data m m' e :
  Decode data io_EOF m = (m', e) -> e = None \/ e = Some io_EOF ->
  readable data.
Proof.
  unfold Decode, Decode_fuel. destruct (skipSpace_split data) as (ws & Hws & Hd).
  destruct (skipSpace data) as [|c t] eqn:Hsk.
  { intros _ _. left. exact Hsk. }
  intros H He. right. exists ws.
  destruct (Ascii.eqb_spec c "{") as [->|Hc].
  - destruct (skipSpace_split t) as (ws1 & Hws1 & Ht).
    destruct (skipSpace t) as [|c1 t1].
    { injection H as _ <-. destruct He; discriminate. }
    destruct (Ascii.eqb_spec c1 "}") as [->|].
    + exists t1. split; [exact Hws|]. right. exists ("{" +:+ ws1 +:+ "}").
      split; [left; eauto|]. rewrite Hd. f_equal. cbn [String.append].
      f_equal. rewrite Ht, append_assoc. reflexivity.
    + destruct (object_members _ t _ false) as [[[g saved] rest]| |] eqn:E;
        try (injection H as _ <-; destruct He; discriminate).
      destruct saved; [injection H as _ <-; destruct He; discriminate|].
      apply object_members_sound in E as (ms & Hms & ->).
      exists rest. split; [exact Hws|]. right. exists ("{" +:+ ms +:+ "}").
      split; [right; eauto|]. rewrite Hd. f_equal. cbn [String.append].
      f_equal. rewrite append_assoc. reflexivity.
  - destruct (Ascii.eqb_spec c "n") as [->|Hn].
    + destruct (scan_word "ull" t) as [rest| |] eqn:E;
        try (injection H as _ <-; destruct He; discriminate).
      apply scan_word_sound in E as ->. exists rest. split; [exact Hws|].
      left. exact Hd.
    + exfalso. injection H as _ <-.
      unfold top_scan, top_literal, truncated, scan_bind in He.
      repeat match type of He with
      | context [if ?b then _ else _] => destruct b
      | context [match ?x with _ => _ end] => destruct x
      end; cbn in He; destruct He; discriminate.
Qed.

(** *** The readable files are read *)

Lemma skipSpace_blank ws x : blank ws -> skipSpace (ws +:+ x) = skipSpace x.
Proof.
  unfold blank. induction ws as [|c ws IH]; intros H; [reflexivity|].
  cbn [skipSpace String.append] in *. destruct (isSpace c); [auto|discriminate].
Qed.

Lemma scan_string_complete body : literal_body body ->
  forall rest, scan_string (body +:+ String dquote rest) = Scanned (body, rest).
Proof.
  induction 1 as [|c s Hq Hb Hc _ IH|e s He _ IH|h1 h2 h3 h4 s H1 H2 H3 H4 _ IH];
    intros rest; cbn [String.append scan_string].
  - reflexivity.
  - destruct (Ascii.eqb_spec c dquote); [contradiction|].
    destruct (Ascii.eqb_spec c backslash); [contradiction|].
    destruct (N.ltb_spec (byte_val c) 0x20); [lia|]. rewrite IH. reflexivity.
  - rewrite He, IH. reflexivity.
  - rewrite H1, H2, H3, H4, IH. reflexivity.
Qed.

Lemma scan_word_complete w rest : scan_word w (w +:+ rest) = Scanned rest.
Proof.
  induction w as [|a w IH]; [reflexivity|]. cbn [String.append scan_word].
  rewrite Ascii.eqb_refl. exact IH.
Qed.

Lemma scan_value_text ws v :
  blank ws -> string_or_null v ->
  exists k, (element k).2 = false
    /\ forall fuel depth rest,
         scan_value (S fuel) depth (ws +:+ v +:+ rest) = Scanned (k, rest).
Proof.
  intros Hws [(body & Hb & ->)| ->].
  - exists (VString body). split; [reflexivity|]. intros fuel depth rest.
    cbn [scan_value]. rewrite skipSpace_blank by exact Hws.
    cbn [String.append skipSpace]. change (isSpace dquote) with false.
    cbv iota. change (Ascii.eqb dquote "{") with false.
    change (Ascii.eqb dquote "[") with false.
    change (Ascii.eqb dquote dquote) with true. cbv iota.
    rewrite append_assoc. cbn [String.append str1].
    rewrite scan_string_complete by exact Hb. reflexivity.
  - exists VNull. split; [reflexivity|]. intros fuel depth rest.
    cbn [scan_value]. rewrite skipSpace_blank by exact Hws.
    cbn [String.append skipSpace]. change (isSpace "n") with false.
    cbv iota. change (Ascii.eqb "n" "{") with false.
    change (Ascii.eqb "n" "[") with false.
    change (Ascii.eqb "n" dquote) with false.
    change (Ascii.eqb "n" "-") with false.
    change (Ascii.eqb "n" "0") with false.
    change (Ascii.eqb "n" "t") with false.
    change (Ascii.eqb "n" "f") with false.
    change (Ascii.eqb "n" "n") with true. cbv iota.
    reflexivity.
Qed.

Lemma string_literal_length k : string_literal k -> (2 <= String.length k)%nat.
Proof.
  intros (body & _ & ->). cbn [String.length]. rewrite length_append. simpl. lia.
Qed.

(** One member of the grammar, read by the decoder: the key and the value
    it stores depend on the member only. *)
Lemma object_members_entry ws1 k ws2 ws3 v ws4 :
  blank ws1 -> string_literal k -> blank ws2 -> blank ws3 ->
  string_or_null v -> blank ws4 ->
  exists key value, forall fuel x g saved,
    (1 <= fuel)%nat ->
    object_members (S fuel)
      (ws1 +:+ k +:+ ws2 +:+ ":" +:+ ws3 +:+ v +:+ ws4 +:+ x) g saved
    = match skipSpace x with
      | EmptyString => NeedMore
      | String c2 t2 =>
        if Ascii.eqb c2 "," then
          object_members fuel t2 (<[key := value]> g) saved
        else if Ascii.eqb c2 "}" then
          Scanned (<[key := value]> g, saved, t2)
        else SyntaxErr
      end.
Proof.
  intros Hws1 (body & Hb & ->) Hws2 Hws3 Hv Hws4.
  destruct (scan_value_text ws3 v Hws3 Hv) as (kd & Hbad & Hscan).
  exists (unquote_string body), (element kd).1.
  intros fuel x g saved Hfuel.
  destruct fuel as [|fuel]; [lia|].
  cbn [object_members]. rewrite skipSpace_blank by exact Hws1.
  cbn [String.append skipSpace]. change (isSpace dquote) with false.
  cbv iota. change (Ascii.eqb dquote dquote) with true. cbn [negb].
  rewrite append_assoc. cbn [String.append str1].
  rewrite scan_string_complete by exact Hb. cbn [scan_bind].
  rewrite skipSpace_blank by exact Hws2.
  cbn [String.append skipSpace]. change (isSpace ":") with false.
  cbv iota. change (Ascii.eqb ":" ":") with true. cbn [negb].
  rewrite Hscan. cbn [scan_bind]. destruct (element kd) as [value bad].
  cbn [fst snd] in *. subst bad. rewrite Bool.orb_false_r.
  rewrite skipSpace_blank by exact Hws4. reflexivity.
Qed.

(** The members of the grammar, read by the decoder: what they add to the
    map depends on the members only, not on what follows the object. *)
Lemma object_members_text ms : members string_or_null ms ->
  exists f : gmap string string -> gmap string string,
    forall fuel rest g saved,
      (String.length ms <= fuel)%nat ->
      object_members fuel (ms +:+ String "}" rest) g saved
      = Scanned (f g, saved, rest).
Proof.
  induction 1 as [ws1 k ws2 ws3 v ws4 H1 Hk H2 H3 Hv H4
                 |ws1 k ws2 ws3 v ws4 ms H1 Hk H2 H3 Hv H4 _ (f & IH)];
    pose proof (string_literal_length k Hk) as Hk2;
    destruct (object_members_entry ws1 k ws2 ws3 v ws4)
      as (key & value & Hm); try assumption.
  - exists (fun g => <[key := value]> g). intros fuel rest g saved Hlen.
    rewrite !length_append in Hlen. destruct fuel as [|fuel]; [lia|].
    rewrite !append_assoc. rewrite Hm by lia. reflexivity.
  - exists (fun g => f (<[key := value]> g)). intros fuel rest g saved Hlen.
    rewrite !length_append in Hlen. destruct fuel as [|fuel]; [lia|].
    rewrite !append_assoc. rewrite Hm by lia.
    cbn [String.append skipSpace]. change (isSpace ",") with false.
    cbv iota. change (Ascii.eqb "," ",") with true. cbv iota.
    apply IH. cbn [String.length] in Hlen. lia.
Qed.

Lemma members_head value ms :
  members value ms ->
  exists ws t, blank ws /\ ms = ws +:+ String dquote t.
Proof.
  intros [ws1 k ws2 ws3 v ws4 H1 (body & _ & ->) _ _ _ _
         |ws1 k ws2 ws3 v ws4 ms' H1 (body & _ & ->) _ _ _ _ _];
    exists ws1; eexists; (split; [exact H1|]); cbn [String.append];
    reflexivity.
Qed.

(** An object of the grammar is decoded, whatever follows it and however
    the stream ends; the map depends on the object only. *)
Lemma Decode_object o : object_text string_or_null o ->
  exists g, forall ws rest term,
    blank ws -> Decode (ws +:+ o +:+ rest) term make_map = (Some g, None).
Proof.
  intros [(ws1 & Hws1 & ->)|(ms & Hms & ->)].
  - exists ∅. intros ws rest term Hws. unfold Decode, Decode_fuel.
    rewrite skipSpace_blank by exact Hws. cbn [String.append skipSpace].
    change (isSpace "{") with false. cbv iota.
    change (Ascii.eqb "{" "{") with true. cbv iota.
    rewrite append_assoc, skipSpace_blank by exact Hws1.
    cbn [String.append skipSpace]. change (isSpace "}") with false. cbv iota.
    change (Ascii.eqb "}" "}") with true. cbv iota. reflexivity.
  - destruct (object_members_text ms Hms) as (f & Hf). exists (f ∅).
    intros ws rest term Hws. unfold Decode, Decode_fuel.
    remember (String.length (ws +:+ ("{" +:+ ms +:+ "}") +:+ rest)) as fuel
      eqn:Hfuel.
    assert (String.length ms <= fuel)%nat as Hlen.
    { subst fuel. rewrite !length_append. cbn [String.length].
      rewrite ?length_append. lia. }
    clear Hfuel. rewrite skipSpace_blank by exact Hws.
    cbn [String.append skipSpace]. change (isSpace "{") with false. cbv iota.
    change (Ascii.eqb "{" "{") with true. cbv iota.
    destruct (members_head _ _ Hms) as (ws1 & t & Hws1 & Hhead).
    rewrite append_assoc. cbn [String.append].
    assert (skipSpace (ms +:+ String "}" rest)
            = String dquote (t +:+ String "}" rest)) as ->.
    { rewrite Hhead, append_assoc, skipSpace_blank by exact Hws1.
      reflexivity. }
    change (Ascii.eqb dquote "}") with false. cbv iota.
    unfold make_map. rewrite Hf by exact Hlen. reflexivity.
Qed.

Lemma Decode_null ws rest :
  blank ws -> Decode (ws +:+ "null" +:+ rest) io_EOF make_map = (None, None).
Proof.
  intros Hws. unfold Decode, Decode_fuel.
  rewrite skipSpace_blank by exact Hws. destruct rest; reflexivity.
Qed.

(** A readable file is read without an error, or with [io.EOF]. *)
Lemma Decode_complete data :
  readable data ->
  exists m, Decode data io_EOF make_map = (m, None)
            \/ Decode data io_EOF make_map = (m, Some io_EOF).
Proof.
  intros [Hb|(ws & rest & Hws & [->|(o & Ho & ->)])].
  - unfold Decode, Decode_fuel. rewrite Hb. eauto.
  - rewrite Decode_null by exact Hws. eauto.
  - destruct (Decode_object o Ho) as (g & Hg). rewrite Hg by exact Hws. eauto.
Qed.

Lemma unreadable data e :
  (Decode data io_EOF make_map).2 = Some e -> e <> io_EOF -> ~ readable data.
Proof.
  intros H He Hr. apply Decode_complete in Hr as (m & [Hr|Hr]);
    rewrite Hr in H; cbn [snd] in H; congruence.
Qed.

(** Whether the decoder succeeds does not depend on how the stream ends. *)
Lemma top_literal_Some rest term e :
  exists e', top_literal rest term (Some e) = Some e'.
Proof.
  destruct rest, term; simpl; eauto.
Qed.

Lemma top_scan_Some x term e : exists e', top_scan x term (Some e) = Some e'.
Proof.
  destruct x; simpl; eauto. apply top_literal_Some.
Qed.

Lemma Decode_fuel_term fuel data term m m' :
  Decode_fuel fuel data term m = (m', None) ->
  Decode_fuel fuel data io_EOF m = (m', None).
Proof.
  unfold Decode_fuel. destruct (skipSpace data) as [|c t]; [discriminate|].
  destruct (Ascii.eqb c "{").
  { match goal with
    | |- context [match ?r with Scanned _ => _ | SyntaxErr => _ | NeedMore => _ end] =>
      destruct r as [[[g saved] rest]| |]
    end; try discriminate. exact (fun H => H). }
  destruct (Ascii.eqb c "n").
  { destruct (scan_word "ull" t) as [rest| |]; try discriminate.
    destruct rest, term; simpl; try discriminate; exact (fun H => H). }
  intros H. exfalso. injection H as _ H. revert H.
  repeat match goal with
  | |- context [if ?b then _ else _] => destruct b
  end;
  try match goal with
  | |- context [top_scan ?x ?t (Some ?e)] =>
    destruct (top_scan_Some x t e) as (e' & ->)
  end; try discriminate;
  match goal with
  | |- context [match ?r with Scanned _ => _ | SyntaxErr => _ | NeedMore => _ end] =>
    destruct r
  end; discriminate.
Qed.

Lemma Decode_term data term m m' :
  Decode data term m = (m', None) -> Decode data io_EOF m = (m', None).
Proof.
  apply Decode_fuel_term.
Qed.

Lemma truncated_not_EOF term : truncated term <> io_EOF.
Proof.
  destruct term; discriminate.
Qed.

(** When the stream ends with an error, the decoder does not return
    [io.EOF]. *)
Lemma Decode_not_EOF data term m :
  term <> io_EOF -> (Decode data term m).2 <> Some io_EOF.
Proof.
  intros Ht. pose proof (truncated_not_EOF term) as Htr.
  assert (forall rest e, e <> io_EOF ->
            top_literal rest term (Some e) <> Some io_EOF) as Htl.
  { intros rest e He. destruct rest, term; simpl; congruence. }
  assert (forall x e, e <> io_EOF -> top_scan x term (Some e) <> Some io_EOF)
    as Hts.
  { intros x e He. destruct x; simpl; [apply Htl, He|discriminate|congruence]. }
  unfold Decode, Decode_fuel. destruct (skipSpace data) as [|c t];
    [simpl; congruence|].
  destruct (Ascii.eqb c "{").
  { match goal with
    | |- context [match ?r with Scanned _ => _ | SyntaxErr => _ | NeedMore => _ end] =>
      destruct r as [[[g []] rest]| |]
    end; simpl; congruence. }
  destruct (Ascii.eqb c "n").
  { destruct (scan_word "ull" t) as [rest| |]; simpl; try congruence.
    destruct rest, term; simpl; congruence. }
  cbn [snd].
  repeat match goal with
  | |- context [if ?b then _ else _] => destruct b
  end; try (apply Hts; discriminate); try discriminate.
  match goal with
  | |- context [match ?r with Scanned _ => _ | SyntaxErr => _ | NeedMore => _ end] =>
    destruct r
  end; congruence.
Qed.

(** What the decoder has read with success from the beginning of a file
    is what it reads from the whole file. *)
Lemma Decode_prefix p x term m :
  Decode p term make_map = (m, None) ->
  Decode (p +:+ x) io_EOF make_map = (m, None).
Proof.
  intros H. apply Decode_term in H.
  pose proof (Decode_sound _ _ _ _ H (or_introl eq_refl))
    as [Hb|(ws & rest & Hws & [->|(o & Ho & ->)])].
  - unfold Decode, Decode_fuel in H. rewrite Hb in H. discriminate.
  - rewrite Decode_null in H by exact Hws. injection H as <-.
    rewrite !append_assoc. apply Decode_null, Hws.
  - destruct (Decode_object o Ho) as (g & Hg).
    rewrite Hg in H by exact Hws. injection H as <-.
    rewrite !append_assoc. apply Hg, Hws.
Qed.

(** *** Files that are not objects of strings *)

Lemma blank_head ws x c y :
  blank ws -> ws +:+ x = String c y -> isSpace c = false ->
  ws = "" /\ x = String c y.
Proof.
  unfold blank. destruct ws as [|d ws]; [auto|].
  cbn [skipSpace String.append]. intros Hb [= -> _] Hc. rewrite Hc in Hb.
  discriminate.
Qed.

Lemma object_text_inv value o :
  object_text value o ->
  exists t, o = String "{" t
    /\ ((exists ws, blank ws /\ t = ws +:+ "}")
        \/ (exists ms, members value ms /\ t = ms +:+ "}")).
Proof.
  intros [(ws & Hws & ->)|(ms & Hms & ->)]; eexists;
    (split; [reflexivity|]); eauto.
Qed.

Lemma string_object_head s :
  string_object s -> exists t, skipSpace s = String "{" t.
Proof.
  intros (ws & o & ws' & Hws & Ho & _ & ->).
  apply object_text_inv in Ho as (t & -> & _).
  rewrite skipSpace_blank by exact Hws. eexists. reflexivity.
Qed.

Lemma string_object_brace s :
  string_object (String "{" s) ->
  exists ws', blank ws'
    /\ ((exists ws1, blank ws1 /\ s = ws1 +:+ String "}" ws')
        \/ (exists ms, members string_literal ms
                       /\ s = ms +:+ String "}" ws')).
Proof.
  intros (ws & o & ws' & Hws & Ho & Hws' & Hs).
  apply object_text_inv in Ho as (t & -> & Ht).
  symmetry in Hs. apply blank_head in Hs as [_ Hs]; [|exact Hws|reflexivity].
  cbn [String.append] in Hs. injection Hs as <-. exists ws'.
  split; [exact Hws'|].
  destruct Ht as [(ws1 & H1 & ->)|(ms & Hms & ->)];
    [left; exists ws1|right; exists ms];
    (split; [assumption|]); rewrite append_assoc; reflexivity.
Qed.

Lemma members_inv value ms :
  members value ms ->
  exists ws1 body ws2 ws3 v ws4 tail,
    blank ws1 /\ literal_body body /\ blank ws2 /\ blank ws3 /\ value v
    /\ blank ws4
    /\ ms = ws1 +:+ String dquote
              (body +:+ String dquote
                 (ws2 +:+ String ":" (ws3 +:+ v +:+ ws4 +:+ tail))).
Proof.
  intros [ws1 k ws2 ws3 v ws4 H1 (body & Hb & ->) H2 H3 Hv H4
         |ws1 k ws2 ws3 v ws4 ms' H1 (body & Hb & ->) H2 H3 Hv H4 _].
  - exists ws1, body, ws2, ws3, v, ws4, "". repeat (split; [assumption|]).
    cbn [String.append]. rewrite !append_assoc, append_nil_r. reflexivity.
  - exists ws1, body, ws2, ws3, v, ws4, ("," +:+ ms').
    repeat (split; [assumption|]).
    cbn [String.append]. rewrite !append_assoc. reflexivity.
Qed.

Lemma not_string_object_blank : ~ string_object " ".
Proof. intros H. apply string_object_head in H as [t H]. discriminate H. Qed.

Lemma not_string_object_null : ~ string_object "null".
Proof. intros H. apply string_object_head in H as [t H]. discriminate H. Qed.

Lemma not_string_object_trailing : ~ string_object "{} x".
Proof.
  intros H. apply string_object_brace in H
    as (ws' & Hws' & [(ws1 & H1 & Hs)|(ms & Hms & Hs)]).
  - symmetry in Hs. apply blank_head in Hs as [_ Hs]; [|exact H1|reflexivity].
    injection Hs as ->. discriminate Hws'.
  - apply members_inv in Hms
      as (ws1 & body & ws2 & ws3 & v & ws4 & tail & H1 & _ & _ & _ & _ & _ & ->).
    symmetry in Hs. rewrite append_assoc in Hs.
    apply blank_head in Hs as [_ Hs]; [|exact H1|reflexivity].
    discriminate Hs.
Qed.

Lemma not_string_object_null_member : ~ string_object (sq "{'a':null}").
Proof.
  intros H. apply string_object_brace in H
    as (ws' & Hws' & [(ws1 & H1 & Hs)|(ms & Hms & Hs)]).
  - symmetry in Hs. apply blank_head in Hs as [_ Hs]; [|exact H1|reflexivity].
    discriminate Hs.
  - apply members_inv in Hms
      as (ws1 & body & ws2 & ws3 & v & ws4 & tail
          & H1 & Hb & H2 & H3 & (vb & _ & ->) & _ & ->).
    symmetry in Hs. rewrite append_assoc in Hs.
    apply blank_head in Hs as [_ Hs]; [|exact H1|reflexivity].
    cbn [String.append sq] in Hs. injection Hs as Hs.
    rewrite append_assoc in Hs. cbn [String.append] in Hs.
    assert (body = "a") as ->.
    { inversion Hb as [|c s Hq _ _ Hs'|e s _ _|h1 h2 h3 h4 s _ _ _ _ _]; subst;
        cbn [String.append] in Hs; try discriminate Hs.
      injection Hs as -> Hs.
      inversion Hs' as [|c' s' Hq' _ _ _|e s' _ _|h1 h2 h3 h4 s' _ _ _ _ _];
        subst; cbn [String.append] in Hs; try discriminate Hs; [reflexivity|].
      injection Hs as -> _. exfalso. apply Hq'. reflexivity. }
    cbn [String.append] in Hs. injection Hs as Hs.
    rewrite append_assoc in Hs.
    apply blank_head in Hs as [_ Hs]; [|exact H2|reflexivity].
    cbn [String.append] in Hs. injection Hs as Hs.
    rewrite !append_assoc in Hs.
    apply blank_head in Hs as [_ Hs]; [|exact H3|reflexivity].
    discriminate Hs.
Qed.

(** *** Enough fuel *)

Lemma skipSpace_length s : (String.length (skipSpace s) <= String.length s)%nat.
Proof.
  induction s as [|c s IH]; [reflexivity|]. cbn [skipSpace].
  destruct (isSpace c); simpl in *; lia.
Qed.

Lemma scan_string_length s raw rest :
  scan_string s = Scanned (raw, rest) ->
  (String.length rest < String.length s)%nat.
Proof.
  intros H. apply scan_string_sound in H as [_ ->].
  rewrite length_append. simpl. lia.
Qed.

Lemma scan_word_length w s rest :
  scan_word w s = Scanned rest -> (String.length rest <= String.length s)%nat.
Proof.
  intros H. apply scan_word_sound in H as ->. rewrite length_append. lia.
Qed.

Lemma scan_number_length s : forall st rest,
  scan_number st s = Scanned rest ->
  (String.length rest <= String.length s)%nat.
Proof.
  induction s as [|c s IH]; intros st rest H.
  - simpl in H. destruct (numEnd st); [injection H as <-; reflexivity|discriminate].
  - cbn [scan_number] in H.
    destruct st;
      repeat match type of H with
      | (if ?b then _ else _) = _ => destruct b
      end;
      first [ discriminate H
            | injection H as <-; reflexivity
            | apply IH in H; simpl; lia ].
Qed.

Ltac scan_step H :=
  match type of H with
  | match skipSpace ?x with _ => _ end = _ =>
    let E := fresh "Esk" in
    pose proof (skipSpace_length x);
    destruct (skipSpace x) eqn:E; [discriminate H|]
  | (if ?b then _ else _) = _ => destruct b; [try discriminate H|try discriminate H]
  | scan_bind ?X _ = _ =>
    let E := fresh "Esc" in
    destruct X as [[? ?]| |] eqn:E; cbn [scan_bind] in H; [|discriminate H..]
  | tagged _ ?X = _ =>
    let E := fresh "Esc" in
    destruct X eqn:E; cbn [tagged scan_bind] in H; [|discriminate H..]
  end.

Lemma scan_length fuel : forall depth s,
  (forall k rest, scan_value fuel depth s = Scanned (k, rest) ->
                  (String.length rest < String.length s)%nat)
  /\ (forall rest, scan_members fuel depth s = Scanned rest ->
                   (String.length rest < String.length s)%nat)
  /\ (forall rest, scan_elements fuel depth s = Scanned rest ->
                   (String.length rest < String.length s)%nat).
Proof.
  induction fuel as [|fuel IH]; intros depth s.
  { repeat split; intros; discriminate. }
  assert (forall d t k rest, scan_value fuel d t = Scanned (k, rest) ->
            (String.length rest < String.length t)%nat) as IHv
    by (intros d t; apply (IH d t)).
  assert (forall d t rest, scan_members fuel d t = Scanned rest ->
            (String.length rest < String.length t)%nat) as IHm
    by (intros d t; apply (IH d t)).
  assert (forall d t rest, scan_elements fuel d t = Scanned rest ->
            (String.length rest < String.length t)%nat) as IHe
    by (intros d t; apply (IH d t)).
  clear IH. split; [|split].
  - intros k rest H. cbn [scan_value] in H.
    repeat scan_step H;
      repeat match goal with
      | E : scan_value _ _ _ = Scanned _ |- _ => apply IHv in E
      | E : scan_members _ _ _ = Scanned _ |- _ => apply IHm in E
      | E : scan_elements _ _ _ = Scanned _ |- _ => apply IHe in E
      | E : scan_string _ = Scanned _ |- _ => apply scan_string_length in E
      | E : scan_number _ _ = Scanned _ |- _ => apply scan_number_length in E
      | E : scan_word _ _ = Scanned _ |- _ => apply scan_word_length in E
      end;
      try (injection H as <- <-); simpl in *; lia.
  - intros rest H. cbn [scan_members] in H.
    repeat scan_step H;
      repeat match goal with
      | E : scan_value _ _ _ = Scanned _ |- _ => apply IHv in E
      | E : scan_members _ _ _ = Scanned _ |- _ => apply IHm in E
      | E : scan_string _ = Scanned _ |- _ => apply scan_string_length in E
      end;
      try (apply IHm in H); try (injection H as <-); simpl in *; lia.
  - intros rest H. cbn [scan_elements] in H.
    repeat scan_step H;
      repeat match goal with
      | E : scan_value _ _ _ = Scanned _ |- _ => apply IHv in E
      end;
      try (apply IHe in H); try (injection H as <-); simpl in *; lia.
Qed.

(** The scanners do not depend on their fuel once it is the length of the
    input. *)
Lemma scan_fuel f1 : forall f2 depth s,
  (String.length s <= f1)%nat -> (String.length s <= f2)%nat ->
  scan_value f1 depth s = scan_value f2 depth s
  /\ scan_members f1 depth s = scan_members f2 depth s
  /\ scan_elements f1 depth s = scan_elements f2 depth s.
Proof.
  assert (forall f d, scan_value f d "" = NeedMore
                      /\ scan_members f d "" = NeedMore
                      /\ scan_elements f d "" = NeedMore) as Hnil
    by (intros [|f] d; repeat split; reflexivity).
  induction f1 as [|f IH]; intros f2 depth s H1 H2.
  { destruct s; [|simpl in H1; lia].
    destruct (Hnil 0%nat depth) as (-> & -> & ->).
    destruct (Hnil f2 depth) as (-> & -> & ->). auto. }
  destruct f2 as [|f'].
  { destruct s; [|simpl in H2; lia].
    destruct (Hnil (S f) depth) as (-> & -> & ->).
    destruct (Hnil 0%nat depth) as (-> & -> & ->). auto. }
  assert (forall d t, (String.length t <= f)%nat ->
            (String.length t <= f')%nat ->
            scan_value f d t = scan_value f' d t) as IHv
    by (intros d t ? ?; apply IH; assumption).
  assert (forall d t, (String.length t <= f)%nat ->
            (String.length t <= f')%nat ->
            scan_members f d t = scan_members f' d t) as IHm
    by (intros d t ? ?; apply IH; assumption).
  assert (forall d t, (String.length t <= f)%nat ->
            (String.length t <= f')%nat ->
            scan_elements f d t = scan_elements f' d t) as IHe
    by (intros d t ? ?; apply IH; assumption).
  clear IH.
  pose proof (skipSpace_length s) as Hsk.
  split; [|split].
  - cbn [scan_value]. destruct (skipSpace s) as [|c t]; [reflexivity|].
    cbn [String.length] in Hsk.
    destruct (Ascii.eqb c "{").
    { destruct (_ <? _); [reflexivity|]. pose proof (skipSpace_length t).
      destruct (skipSpace t) as [|c1 t1]; [reflexivity|].
      destruct (Ascii.eqb c1 "}"); [reflexivity|].
      rewrite IHm by lia. reflexivity. }
    destruct (Ascii.eqb c "[").
    { destruct (_ <? _); [reflexivity|]. pose proof (skipSpace_length t).
      destruct (skipSpace t) as [|c1 t1]; [reflexivity|].
      destruct (Ascii.eqb c1 "]"); [reflexivity|].
      rewrite IHv by lia.
      destruct (scan_value f' (depth + 1) t) as [[k r]| |] eqn:E;
        [|reflexivity..].
      apply scan_length in E. cbn [scan_bind]. rewrite IHe by lia. reflexivity. }
    reflexivity.
  - cbn [scan_members]. destruct (skipSpace s) as [|c t]; [reflexivity|].
    cbn [String.length] in Hsk.
    destruct (negb (Ascii.eqb c dquote)); [reflexivity|].
    destruct (scan_string t) as [[rawkey r1]| |] eqn:E; [|reflexivity..].
    apply scan_string_length in E. cbn [scan_bind].
    pose proof (skipSpace_length r1).
    destruct (skipSpace r1) as [|c1 t1]; [reflexivity|].
    cbn [String.length] in *.
    destruct (negb (Ascii.eqb c1 ":")); [reflexivity|].
    rewrite IHv by lia.
    destruct (scan_value f' depth t1) as [[k r2]| |] eqn:E2; [|reflexivity..].
    apply scan_length in E2. cbn [scan_bind].
    pose proof (skipSpace_length r2).
    destruct (skipSpace r2) as [|c2 t2]; [reflexivity|].
    cbn [String.length] in *.
    destruct (Ascii.eqb c2 ","); [|reflexivity].
    apply IHm; lia.
  - cbn [scan_elements]. destruct (skipSpace s) as [|c t]; [reflexivity|].
    cbn [String.length] in Hsk.
    destruct (Ascii.eqb c ","); [|reflexivity].
    rewrite IHv by lia.
    destruct (scan_value f' depth t) as [[k r]| |] eqn:E; [|reflexivity..].
    apply scan_length in E. cbn [scan_bind]. apply IHe; lia.
Qed.

Lemma object_members_fuel f1 : forall f2 s g saved,
  (String.length s <= f1)%nat -> (String.length s <= f2)%nat ->
  object_members f1 s g saved = object_members f2 s g saved.
Proof.
  induction f1 as [|f IH]; intros f2 s g saved H1 H2.
  { destruct s; [|simpl in H1; lia]. destruct f2; reflexivity. }
  destruct f2 as [|f'].
  { destruct s; [|simpl in H2; lia]. reflexivity. }
  pose proof (skipSpace_length s) as Hsk.
  cbn [object_members]. destruct (skipSpace s) as [|c t]; [reflexivity|].
  cbn [String.length] in Hsk.
  destruct (negb (Ascii.eqb c dquote)); [reflexivity|].
  destruct (scan_string t) as [[rawkey r1]| |] eqn:E; [|reflexivity..].
  apply scan_string_length in E. cbn [scan_bind].
  pose proof (skipSpace_length r1).
  destruct (skipSpace r1) as [|c1 t1]; [reflexivity|].
  cbn [String.length] in *.
  destruct (negb (Ascii.eqb c1 ":")); [reflexivity|].
  destruct (scan_fuel f f' 1 t1) as (-> & _); [lia..|].
  destruct (scan_value f' 1 t1) as [[k r2]| |] eqn:E2; [|reflexivity..].
  apply scan_length in E2. cbn [scan_bind]. destruct (element k) as [v bad].
  pose proof (skipSpace_length r2).
  destruct (skipSpace r2) as [|c2 t2]; [reflexivity|].
  cbn [String.length] in *.
  destruct (Ascii.eqb c2 ","); [|reflexivity].
  apply IH; lia.
Qed.

Lemma Decode_fuel_enough fuel data term m :
  (String.length data <= fuel)%nat ->
  Decode_fuel fuel data term m = Decode data term m.
Proof.
  intros Hf. unfold Decode, Decode_fuel.
  pose proof (skipSpace_length data) as Hsk.
  destruct (skipSpace data) as [|c t]; [reflexivity|].
  cbn [String.length] in Hsk.
  rewrite (proj1 (scan_fuel fuel (String.length data) 0 (String c t)
                    ltac:(cbn [String.length]; lia)
                    ltac:(cbn [String.length]; lia))).
  destruct (Ascii.eqb c "{"); [|reflexivity].
  pose proof (skipSpace_length t).
  destruct (skipSpace t) as [|c1 t1]; [reflexivity|].
  rewrite (object_members_fuel fuel (String.length data) t) by lia.
  reflexivity.
Qed.

(** *** [unquote] on the literals of the scanner *)

Lemma literal_body_tail c s :
  literal_body (String c s) -> c <> backslash -> literal_body s.
Proof. intros H Hc. inversion H; subst; first [assumption|contradiction]. Qed.

Lemma literal_body_escape e s :
  literal_body (String backslash (String e s)) ->
  (isSimpleEscape e = true /\ literal_body s)
  \/ (e = "u"%char /\ exists h1 h2 h3 h4 t,
        s = String h1 (String h2 (String h3 (String h4 t)))
        /\ isHex h1 = true /\ isHex h2 = true /\ isHex h3 = true
        /\ isHex h4 = true /\ literal_body t).
Proof.
  intros H. inversion H; subst.
  - contradiction.
  - left. auto.
  - right. split; [reflexivity|]. eauto 12.
Qed.

Lemma isSimpleEscape_simpleEscape e :
  isSimpleEscape e = true -> exists x, simpleEscape e = Some x.
Proof.
  unfold isSimpleEscape, simpleEscape.
  repeat match goal with
  | |- context [?a =? ?b] => destruct (N.eqb_spec a b)
  end; simpl; intros Hx; try discriminate; eauto.
Qed.

Lemma isSimpleEscape_not_u e : isSimpleEscape e = true -> Ascii.eqb e "u" = false.
Proof.
  intros H. destruct (Ascii.eqb_spec e "u") as [->|]; [discriminate H|reflexivity].
Qed.

Lemma isHex_getu4 h1 h2 h3 h4 :
  isHex h1 = true -> isHex h2 = true -> isHex h3 = true -> isHex h4 = true ->
  exists r, getu4 h1 h2 h3 h4 = Some r.
Proof.
  unfold isHex, getu4.
  destruct (hexval h1), (hexval h2), (hexval h3), (hexval h4);
    intros; try discriminate; eauto.
Qed.

Lemma emit_is_Some pre x : is_Some x -> is_Some (emit pre x).
Proof. intros [o ->]. eexists. reflexivity. Qed.

(** [unquote] accepts every literal the scanner accepts: the case [None]
    of [unquote_string] is never met in the decoder. *)
Lemma unquote_literal_body raw : literal_body raw -> is_Some (unquote raw).
Proof.
  induction raw as [raw IH] using string_len_ind. intros Hl.
  destruct raw as [|c t]; [eexists; reflexivity|].
  cbn [unquote]. destruct (Ascii.eqb_spec c backslash) as [->|Hb].
  - destruct t as [|e t1]; [inversion Hl; subst; contradiction|].
    apply literal_body_escape in Hl
      as [[He Hl]|(-> & h1 & h2 & h3 & h4 & t5 & -> & H1 & H2 & H3 & H4 & Hl)].
    + rewrite (isSimpleEscape_not_u e He).
      destruct (isSimpleEscape_simpleEscape e He) as [x ->].
      apply emit_is_Some, IH; [simpl; lia|exact Hl].
    + change (Ascii.eqb "u" "u") with true. cbv iota.
      destruct (isHex_getu4 h1 h2 h3 h4 H1 H2 H3 H4) as [rr ->].
      assert (is_Some (unquote t5)) as Ht5 by (apply IH; [simpl; lia|exact Hl]).
      destruct (utf16.IsSurrogate rr); [|apply emit_is_Some, Ht5].
      destruct t5 as [|b' [|u' [|g1 [|g2 [|g3 [|g4 t11]]]]]];
        try (apply emit_is_Some, Ht5).
      destruct (Ascii.eqb_spec b' backslash) as [->|];
        [|apply emit_is_Some, Ht5].
      destruct (Ascii.eqb_spec u' "u") as [->|]; [|apply emit_is_Some, Ht5].
      cbn [andb]. destruct (getu4 g1 g2 g3 g4); [|apply emit_is_Some, Ht5].
      destruct (negb _); apply emit_is_Some; [|exact Ht5].
      apply IH; [simpl; lia|].
      apply literal_body_escape in Hl as [[He _]|(_ & k1 & k2 & k3 & k4 & t
        & [= <- <- <- <- <-] & _ & _ & _ & _ & Hl)]; [discriminate He|exact Hl].
  - assert (c <> dquote /\ 0x20 <= byte_val c) as [Hq Hc]
      by (inversion Hl; subst; auto; contradiction).
    destruct (Ascii.eqb_spec c dquote); [contradiction|].
    destruct (N.ltb_spec (byte_val c) 0x20); [lia|]. cbn [orb].
    pose proof (literal_body_tail c t Hl Hb) as Ht.
    destruct (N.ltb_spec (byte_val c) RuneSelf) as [|Hhigh].
    { apply emit_is_Some, IH; [simpl; lia|exact Ht]. }
    pose proof (DecodeRune_decoded c t) as Hd.
    destruct (DecodeRune (String c t)) as [rr size]. cbn [fst snd] in Hd.
    assert (forall d s, byte_val d >= 0x80 -> literal_body (String d s) ->
              literal_body s) as Hcont.
    { intros d s Hge H'. apply (literal_body_tail d s H').
      intros ->. vm_compute in Hge. apply Hge. reflexivity. }
    inversion Hd as [Hs|Hs|c1 p' Hp Hs|c1 c2 p' Hp Hs|c1 c2 c3 p' Hp Hs]; subst.
    + unfold RuneSelf in *. lia.
    + apply emit_is_Some, IH; [simpl; lia|exact Ht].
    + destruct Hs as (_ & H1). apply emit_is_Some, IH; [simpl; lia|].
      apply (Hcont c1); [lia|exact Ht].
    + destruct Hs as (_ & H1 & _ & _ & H2).
      apply emit_is_Some, IH; [simpl; lia|].
      apply (Hcont c2); [lia|]. apply (Hcont c1); [lia|exact Ht].
    + destruct Hs as (_ & H1 & _ & _ & H2 & H3).
      apply emit_is_Some, IH; [simpl; lia|].
      apply (Hcont c3); [lia|]. apply (Hcont c2); [lia|].
      apply (Hcont c1); [lia|exact Ht].
Qed.

Lemma scan_string_unquote s raw rest :
  scan_string s = Scanned (raw, rest) -> is_Some (unquote raw).
Proof. intros H. apply scan_string_sound in H as [H _]. apply unquote_literal_body, H. Qed.

(** ** The JSON texts of the RFC are read as what they denote *)

Lemma json_ws_blank ws : json_ws ws -> blank ws.
Proof.
  unfold blank. induction 1 as [|c s Hc _ IH]; [reflexivity|].
  cbn [skipSpace]. unfold isSpace, byte_val.
  destruct Hc as [-> |[-> |[-> | ->]]]; exact IH.
Qed.

Lemma hex_digit_hexval c : hex_digit c = hexval c.
Proof.
  unfold hex_digit, hexval, byte_val.
  pose proof (byte_val_lt c) as Hc. unfold byte_val in Hc.
  decide_cmp; cbn [andb]; try reflexivity; f_equal; lia.
Qed.

Lemma hex_digit_lt c a : hex_digit c = Some a -> a < 16.
Proof.
  unfold hex_digit. decide_cmp; cbn [andb]; intros [= <-]; lia.
Qed.

Lemma hex_digit_isHex c a : hex_digit c = Some a -> isHex c = true.
Proof. unfold isHex. rewrite <- hex_digit_hexval. intros ->. reflexivity. Qed.

Lemma code_unit_getu4 h1 h2 h3 h4 :
  code_unit h1 h2 h3 h4 = getu4 h1 h2 h3 h4.
Proof.
  unfold code_unit, getu4. rewrite !hex_digit_hexval.
  destruct (hexval h1), (hexval h2), (hexval h3), (hexval h4);
    try reflexivity. f_equal. lia.
Qed.

Lemma code_unit_inv h1 h2 h3 h4 r :
  code_unit h1 h2 h3 h4 = Some r ->
  isHex h1 = true /\ isHex h2 = true /\ isHex h3 = true /\ isHex h4 = true
  /\ r < 0x10000.
Proof.
  unfold code_unit.
  destruct (hex_digit h1) as [a|] eqn:E1; [|discriminate].
  destruct (hex_digit h2) as [b|] eqn:E2; [|discriminate].
  destruct (hex_digit h3) as [c|] eqn:E3; [|discriminate].
  destruct (hex_digit h4) as [d|] eqn:E4; [|discriminate].
  intros [= <-].
  pose proof (hex_digit_lt _ _ E1). pose proof (hex_digit_lt _ _ E2).
  pose proof (hex_digit_lt _ _ E3). pose proof (hex_digit_lt _ _ E4).
  repeat split; try (eapply hex_digit_isHex; eassumption). lia.
Qed.

Lemma escaped_char_simpleEscape e r :
  escaped_char e = Some r ->
  isSimpleEscape e = true /\ simpleEscape e = Some (ascii_of_N r)
  /\ Ascii.eqb e "u" = false.
Proof.
  destruct e as [[] [] [] [] [] [] [] []]; intros H;
    try discriminate H; injection H as <-; repeat split; reflexivity.
Qed.

Lemma ascii_of_N_to_byte n : n < 256 -> ascii_of_N n = to_byte n.
Proof. intros H. unfold to_byte. rewrite N.mod_small by exact H. reflexivity. Qed.

Lemma byte_val_ascii_of_N n : n < 256 -> byte_val (ascii_of_N n) = n.
Proof.
  intros H. rewrite ascii_of_N_to_byte by exact H.
  apply byte_val_to_byte_small. exact H.
Qed.

(** The encoder of the library agrees with the encoding of the RFC. *)
Lemma EncodeRune_utf8_encoding r :
  scalar_value r -> EncodeRune r = utf8_encoding r.
Proof.
  intros Hr. unfold scalar_value in Hr.
  unfold EncodeRune, utf8_encoding, enc3, rune1Max, rune2Max, rune3Max,
    MaxRune, surrogateMin, surrogateMax, bytes, str1.
  decide_cmp; cbn [orb andb map string_of_list_ascii];
    repeat (f_equal; try (rewrite ascii_of_N_to_byte by lia; f_equal;
                          unfold t2, t3, t4, tx, maskx; bits_to_arith; lia)).
Qed.

Lemma chunk_nil : chunk "" "".
Proof.
  split; intros x; cbn [String.append].
  - destruct (scan_string x) as [[raw rest]| |]; reflexivity.
  - destruct (unquote x); reflexivity.
Qed.

Lemma chunk_app a a' b b' : chunk a a' -> chunk b b' -> chunk (a +:+ b) (a' +:+ b').
Proof.
  intros [Ha1 Ha2] [Hb1 Hb2]. split; intros x; rewrite append_assoc.
  - rewrite Ha1, Hb1, keep_keep. reflexivity.
  - rewrite Ha2, Hb2, emit_emit. reflexivity.
Qed.

(** A character that stands for itself. *)
Lemma chunk_plain r :
  scalar_value r -> 0x20 <= r -> r <> 0x22 -> r <> 0x5C ->
  chunk (utf8_encoding r) (utf8_encoding r).
Proof.
  intros Hr H20 Hq Hb. unfold scalar_value in Hr. unfold utf8_encoding, bytes.
  decide_cmp; cbn [map string_of_list_ascii].
  - assert (byte_val (ascii_of_N r) = r) as Hv
      by (apply byte_val_ascii_of_N; lia).
    split; intros x; cbn [String.append].
    + cbn [scan_string].
      rewrite !eqb_byte by (rewrite Hv; vm_compute byte_val; lia).
      rewrite Hv. destruct (N.ltb_spec r 0x20); [lia|]. reflexivity.
    + cbn [unquote].
      rewrite !eqb_byte by (rewrite Hv; vm_compute byte_val; lia).
      rewrite Hv. unfold RuneSelf.
      destruct (N.ltb_spec r 0x20); [lia|].
      destruct (N.ltb_spec r 0x80); [|lia]. reflexivity.
  - apply chunk_2. unfold seq2. rewrite !byte_val_ascii_of_N by lia. lia.
  - apply chunk_3. unfold seq3. rewrite !byte_val_ascii_of_N by lia. lia.
  - apply chunk_4. unfold seq4. rewrite !byte_val_ascii_of_N by lia. lia.
Qed.

(** A two-character escape. *)
Lemma chunk_escape e r :
  escaped_char e = Some r -> chunk (String backslash (str1 e)) (bytes [r]).
Proof.
  intros H. apply escaped_char_simpleEscape in H as (H1 & H2 & H3).
  split; intros x; cbn [String.append str1].
  - cbn [scan_string]. change (Ascii.eqb backslash dquote) with false.
    change (Ascii.eqb backslash backslash) with true. cbv iota.
    rewrite H1. reflexivity.
  - cbn [unquote]. change (Ascii.eqb backslash backslash) with true.
    cbv iota. rewrite H3, H2. reflexivity.
Qed.

Lemma scan_string_unicode h1 h2 h3 h4 x :
  isHex h1 = true -> isHex h2 = true -> isHex h3 = true -> isHex h4 = true ->
  scan_string (String backslash (String "u"
                 (String h1 (String h2 (String h3 (String h4 x))))))
  = keep (String backslash (String "u"
            (String h1 (String h2 (String h3 (str1 h4))))))
         (scan_string x).
Proof.
  intros H1 H2 H3 H4. cbn [scan_string].
  change (Ascii.eqb backslash dquote) with false.
  change (Ascii.eqb backslash backslash) with true.
  change (isSimpleEscape "u") with false.
  change (Ascii.eqb "u" "u") with true. cbv iota.
  rewrite H1, H2, H3, H4. reflexivity.
Qed.

Lemma unquote_unicode h1 h2 h3 h4 t5 :
  unquote (String backslash (String "u"
             (String h1 (String h2 (String h3 (String h4 t5))))))
  = match getu4 h1 h2 h3 h4 with
    | None => None
    | Some rr =>
      if utf16.IsSurrogate rr then
        match t5 with
        | String b' (String u' (String g1 (String g2 (String g3
            (String g4 t11))))) =>
          match
            (if Ascii.eqb b' backslash && Ascii.eqb u' "u"
             then getu4 g1 g2 g3 g4 else None)
          with
          | Some rr1 =>
            let dec := utf16.DecodeRune rr rr1 in
            if negb (dec =? utf16.replacementChar) then
              emit (EncodeRune dec) (unquote t11)
            else emit (EncodeRune utf16.replacementChar) (unquote t5)
          | None => emit (EncodeRune utf16.replacementChar) (unquote t5)
          end
        | _ => emit (EncodeRune utf16.replacementChar) (unquote t5)
        end
      else emit (EncodeRune rr) (unquote t5)
    end.
Proof. reflexivity. Qed.

(** A [\u] escape of a character that is not a surrogate. *)
Lemma chunk_unicode h1 h2 h3 h4 r :
  code_unit h1 h2 h3 h4 = Some r -> scalar_value r ->
  chunk (String backslash (String "u"
           (String h1 (String h2 (String h3 (str1 h4))))))
        (utf8_encoding r).
Proof.
  intros Hu Hr. pose proof (code_unit_inv _ _ _ _ _ Hu) as (H1 & H2 & H3 & H4 & Hlt).
  rewrite code_unit_getu4 in Hu.
  split; intros x; cbn [String.append str1].
  - apply scan_string_unicode; assumption.
  - rewrite unquote_unicode, Hu.
    assert (utf16.IsSurrogate r = false) as ->.
    { unfold utf16.IsSurrogate, utf16.surr1, utf16.surr3.
      unfold scalar_value in Hr. decide_cmp; reflexivity. }
    rewrite EncodeRune_utf8_encoding by exact Hr. reflexivity.
Qed.

(** Two [\u] escapes that make a surrogate pair. *)
Lemma chunk_pair h1 h2 h3 h4 l1 l2 l3 l4 hi lo :
  code_unit h1 h2 h3 h4 = Some hi -> 0xD800 <= hi < 0xDC00 ->
  code_unit l1 l2 l3 l4 = Some lo -> 0xDC00 <= lo < 0xE000 ->
  chunk (String backslash (String "u"
           (String h1 (String h2 (String h3 (String h4
              (String backslash (String "u"
                 (String l1 (String l2 (String l3 (str1 l4))))))))))))
        (utf8_encoding (0x10000 + (hi - 0xD800) * 0x400 + (lo - 0xDC00))).
Proof.
  intros Hh Hhi Hl Hlo.
  pose proof (code_unit_inv _ _ _ _ _ Hh) as (H1 & H2 & H3 & H4 & _).
  pose proof (code_unit_inv _ _ _ _ _ Hl) as (L1 & L2 & L3 & L4 & _).
  rewrite code_unit_getu4 in Hh, Hl.
  split; intros x; cbn [String.append str1].
  - rewrite scan_string_unicode by assumption.
    rewrite scan_string_unicode by assumption.
    rewrite keep_keep. reflexivity.
  - rewrite unquote_unicode, Hh.
    assert (utf16.IsSurrogate hi = true) as ->.
    { unfold utf16.IsSurrogate, utf16.surr1, utf16.surr3.
      decide_cmp; reflexivity. }
    cbv beta iota. change (Ascii.eqb backslash backslash) with true.
    change (Ascii.eqb "u" "u") with true. cbn [andb]. cbv beta iota zeta.
    rewrite Hl. cbv beta iota zeta.
    assert (utf16.DecodeRune hi lo
            = 0x10000 + (hi - 0xD800) * 0x400 + (lo - 0xDC00)) as ->.
    { unfold utf16.DecodeRune, utf16.surr1, utf16.surr2, utf16.surr3,
        utf16.surrSelf.
      decide_cmp. cbn [andb].
      rewrite lor_shift_add by (change (2 ^ 10) with 1024; lia).
      change (2 ^ 10) with 1024. lia. }
    assert ((0x10000 + (hi - 0xD800) * 0x400 + (lo - 0xDC00)
             =? utf16.replacementChar) = false) as ->.
    { apply N.eqb_neq. unfold utf16.replacementChar. lia. }
    cbn [negb]. rewrite EncodeRune_utf8_encoding
      by (unfold scalar_value; lia).
    reflexivity.
Qed.

(** The scanner goes through the bytes of a literal of the RFC, and
    [unquote] turns them into the string that they denote. *)
Lemma json_chars_chunk body value : json_chars body value -> chunk body value.
Proof.
  induction 1 as [|r body value Hr H20 Hq Hb _ IH
                  |e r body value He _ IH
                  |h1 h2 h3 h4 r body value Hu Hr _ IH
                  |h1 h2 h3 h4 l1 l2 l3 l4 hi lo body value Hh Hhi Hl Hlo _ IH].
  - exact chunk_nil.
  - apply chunk_app; [apply chunk_plain; assumption|exact IH].
  - change (bytes [0x5C] +:+ String e body)
      with (String backslash (str1 e) +:+ body).
    apply chunk_app; [apply chunk_escape; exact He|exact IH].
  - change (bytes [0x5C; 0x75]
            +:+ String h1 (String h2 (String h3 (String h4 body))))
      with (String backslash (String "u"
              (String h1 (String h2 (String h3 (str1 h4))))) +:+ body).
    apply chunk_app; [apply chunk_unicode; assumption|exact IH].
  - change (bytes [0x5C; 0x75]
            +:+ String h1 (String h2 (String h3 (String h4
                  (bytes [0x5C; 0x75]
                   +:+ String l1 (String l2 (String l3 (String l4 body))))))))
      with (String backslash (String "u"
              (String h1 (String h2 (String h3 (String h4
                 (String backslash (String "u"
                    (String l1 (String l2 (String l3 (str1 l4)))))))))))
            +:+ body).
    apply chunk_app; [eapply chunk_pair; eassumption|exact IH].
Qed.

Lemma json_chars_scan body value rest :
  json_chars body value ->
  scan_string (body +:+ String dquote rest) = Scanned (body, rest).
Proof.
  intros H. apply json_chars_chunk in H as [H _]. rewrite H.
  cbn [scan_string]. change (Ascii.eqb dquote dquote) with true. cbv iota.
  cbn [keep scan_bind]. rewrite append_nil_r. reflexivity.
Qed.

Lemma json_chars_unquote body value :
  json_chars body value -> unquote_string body = value.
Proof.
  intros H. apply json_chars_chunk in H as [_ H]. unfold unquote_string.
  rewrite <- (append_nil_r body), H. cbn [unquote emit].
  apply append_nil_r.
Qed.

Lemma skipSpace_json_ws ws x : json_ws ws -> skipSpace (ws +:+ x) = skipSpace x.
Proof. intros H. apply skipSpace_blank, json_ws_blank, H. Qed.

Lemma json_string_inv k key :
  json_string k key ->
  exists body,
    k = String dquote (body +:+ str1 dquote)
    /\ unquote_string body = key
    /\ forall rest,
         scan_string (body +:+ String dquote rest) = Scanned (body, rest).
Proof.
  intros (body & Hb & ->). exists body. split; [reflexivity|].
  split; [apply json_chars_unquote; exact Hb|].
  intros rest. apply json_chars_scan with (value := key). exact Hb.
Qed.

Lemma json_string_length k key :
  json_string k key -> (2 <= String.length k)%nat.
Proof.
  intros (body & _ & ->). cbn [bytes map string_of_list_ascii String.append].
  cbn [String.length]. rewrite length_append. simpl. lia.
Qed.

(** A string of the RFC as a value, read by the scanner. *)
Lemma scan_value_json ws v value :
  json_ws ws -> json_string v value ->
  exists body,
    unquote_string body = value
    /\ forall fuel depth rest,
         scan_value (S fuel) depth (ws +:+ v +:+ rest)
         = Scanned (VString body, rest).
Proof.
  intros Hws Hv. apply json_string_inv in Hv as (body & -> & Hu & Hs).
  exists body. split; [exact Hu|]. intros fuel depth rest.
  cbn [scan_value]. rewrite skipSpace_json_ws by exact Hws.
  cbn [String.append skipSpace]. change (isSpace dquote) with false.
  cbv iota. change (Ascii.eqb dquote "{") with false.
  change (Ascii.eqb dquote "[") with false.
  change (Ascii.eqb dquote dquote) with true. cbv iota.
  rewrite append_assoc. cbn [String.append str1].
  rewrite Hs. reflexivity.
Qed.

(** One member of an object of the RFC, read by the decoder: it stores
    the value that the member denotes under the key that it denotes. *)
Lemma object_members_json_entry ws1 k key ws2 ws3 v value ws4 :
  json_ws ws1 -> json_string k key -> json_ws ws2 -> json_ws ws3 ->
  json_string v value -> json_ws ws4 ->
  forall fuel x g saved,
    (1 <= fuel)%nat ->
    object_members (S fuel)
      (ws1 +:+ k +:+ ws2 +:+ ":" +:+ ws3 +:+ v +:+ ws4 +:+ x) g saved
    = match skipSpace x with
      | EmptyString => NeedMore
      | String c2 t2 =>
        if Ascii.eqb c2 "," then
          object_members fuel t2 (<[key := value]> g) saved
        else if Ascii.eqb c2 "}" then
          Scanned (<[key := value]> g, saved, t2)
        else SyntaxErr
      end.
Proof.
  intros Hws1 Hk Hws2 Hws3 Hv Hws4.
  apply json_string_inv in Hk as (body & -> & Hu & Hs).
  destruct (scan_value_json ws3 v value Hws3 Hv) as (vbody & Hvu & Hscan).
  intros fuel x g saved Hfuel.
  destruct fuel as [|fuel]; [lia|].
  cbn [object_members]. rewrite skipSpace_json_ws by exact Hws1.
  cbn [String.append skipSpace]. change (isSpace dquote) with false.
  cbv iota. change (Ascii.eqb dquote dquote) with true. cbn [negb].
  rewrite append_assoc. cbn [String.append str1].
  rewrite Hs. cbn [scan_bind].
  rewrite skipSpace_json_ws by exact Hws2.
  cbn [String.append skipSpace]. change (isSpace ":") with false.
  cbv iota. change (Ascii.eqb ":" ":") with true. cbn [negb].
  rewrite Hscan. cbn [scan_bind element]. rewrite Hu, Hvu.
  rewrite Bool.orb_false_r.
  rewrite skipSpace_json_ws by exact Hws4. reflexivity.
Qed.

(** The members of an object of the RFC, read by the decoder: each is
    stored in its turn, a later one over an earlier one of the same key. *)
Lemma object_members_json ms kvs :
  json_members ms kvs ->
  forall fuel rest g saved,
    (String.length ms <= fuel)%nat ->
    object_members fuel (ms +:+ String "}" rest) g saved
    = Scanned (foldl (fun g kv => <[kv.1 := kv.2]> g) g kvs, saved, rest).
Proof.
  induction 1 as [ws1 k key ws2 ws3 v value ws4 H1 Hk H2 H3 Hv H4
                 |ws1 k key ws2 ws3 v value ws4 ms kvs H1 Hk H2 H3 Hv H4 _ IH];
    intros fuel rest g saved Hlen;
    pose proof (json_string_length k key Hk) as Hk2;
    pose proof (object_members_json_entry ws1 k key ws2 ws3 v value ws4
                  H1 Hk H2 H3 Hv H4) as Hm;
    rewrite !length_append in Hlen; (destruct fuel as [|fuel]; [lia|]);
    rewrite !append_assoc; rewrite Hm by lia.
  - reflexivity.
  - cbn [String.append skipSpace]. change (isSpace ",") with false.
    cbv iota. change (Ascii.eqb "," ",") with true. cbv iota.
    cbn [foldl]. apply IH. cbn [String.length] in Hlen. lia.
Qed.

Lemma json_members_head ms kvs :
  json_members ms kvs ->
  exists ws t, json_ws ws /\ ms = ws +:+ String dquote t.
Proof.
  intros [ws1 k key ws2 ws3 v value ws4 H1 (body & _ & ->) _ _ _ _
         |ws1 k key ws2 ws3 v value ws4 ms' kvs' H1 (body & _ & ->) _ _ _ _ _];
    exists ws1; eexists; (split; [exact H1|]);
    cbn [bytes map string_of_list_ascii String.append]; reflexivity.
Qed.

(** A file that holds an object of the RFC is decoded into the map of its
    members, however the stream ends. *)
Lemma Decode_json_file data kvs term :
  json_file data kvs ->
  Decode data term make_map
  = (Some (foldl (fun g kv => <[kv.1 := kv.2]> g) ∅ kvs), None).
Proof.
  intros (ws & o & ws' & Hws & Ho & _ & ->).
  destruct Ho as [(ws1 & Hws1 & -> & ->)|(ms & Hms & ->)].
  - unfold Decode, Decode_fuel.
    rewrite skipSpace_json_ws by exact Hws. cbn [String.append skipSpace].
    change (isSpace "{") with false. cbv iota.
    change (Ascii.eqb "{" "{") with true. cbv iota.
    rewrite append_assoc, skipSpace_json_ws by exact Hws1.
    cbn [String.append skipSpace]. change (isSpace "}") with false. cbv iota.
    change (Ascii.eqb "}" "}") with true. cbv iota. reflexivity.
  - unfold Decode, Decode_fuel.
    remember (String.length (ws +:+ ("{" +:+ ms +:+ "}") +:+ ws')) as fuel
      eqn:Hfuel.
    assert (String.length ms <= fuel)%nat as Hlen.
    { subst fuel. rewrite !length_append. cbn [String.length].
      rewrite ?length_append. lia. }
    clear Hfuel. rewrite skipSpace_json_ws by exact Hws.
    cbn [String.append skipSpace]. change (isSpace "{") with false. cbv iota.
    change (Ascii.eqb "{" "{") with true. cbv iota.
    destruct (json_members_head _ _ Hms) as (ws1 & t & Hws1 & Hhead).
    rewrite append_assoc. cbn [String.append].
    assert (skipSpace (ms +:+ String "}" ws')
            = String dquote (t +:+ String "}" ws')) as ->.
    { rewrite Hhead, append_assoc, skipSpace_json_ws by exact Hws1.
      reflexivity. }
    change (Ascii.eqb dquote "}") with false. cbv iota.
    unfold make_map. rewrite (object_members_json ms kvs Hms) by exact Hlen.
    reflexivity.
Qed.

(** The map of the members: a key has the value of its last member. *)
Lemma foldl_insert_absent (kvs : list (string * string)) :
  forall (g : gmap string string) key,
    key ∉ kvs.*1 ->
    foldl (fun g kv => <[kv.1 := kv.2]> g) g kvs !! key = g !! key.
Proof.
  induction kvs as [|[k v] kvs IH]; intros g key Hk; [reflexivity|].
  cbn [foldl fmap list_fmap fst snd] in *.
  apply not_elem_of_cons in Hk as [Hne Hk].
  rewrite IH by exact Hk. apply lookup_insert_ne. congruence.
Qed.

Lemma foldl_insert_last (front back : list (string * string)) key value :
  forall g : gmap string string,
    key ∉ back.*1 ->
    foldl (fun g kv => <[kv.1 := kv.2]> g) g (front ++ (key, value) :: back)
    !! key = Some value.
Proof.
  intros g Hk. rewrite foldl_app. cbn [foldl fst snd].
  rewrite foldl_insert_absent by exact Hk. apply lookup_insert_eq.
Qed.

(** A character of one byte that stands for itself. *)
Lemma json_chars_ascii c body value :
  0x20 <= N_of_ascii c < 0x80 -> N_of_ascii c <> 0x22 ->
  N_of_ascii c <> 0x5C -> json_chars body value ->
  json_chars (String c body) (String c value).
Proof.
  intros Hc Hq Hb H.
  assert (utf8_encoding (N_of_ascii c) = String c "") as He.
  { unfold utf8_encoding, bytes. destruct (N.ltb_spec (N_of_ascii c) 0x80);
      [|lia]. cbn [map string_of_list_ascii]. rewrite ascii_N_embedding.
    reflexivity. }
  change (String c body) with (String c "" +:+ body).
  change (String c value) with (String c "" +:+ value).
  rewrite <- He. apply json_chars_plain; try assumption; [|lia].
  left. lia.
Qed.

(** Decides whether a given element is in a given list. *)
Ltac in_list :=
  lazymatch goal with
  | |- _ ∉ _ =>
    let H := fresh in
    simpl; intros H;
    repeat (apply elem_of_cons in H as [H|H]; [discriminate H|]);
    apply elem_of_nil in H; exact H
  | |- _ ∈ _ =>
    repeat first [apply list_elem_of_here|apply list_elem_of_further]
  end.

(** ** The program: what the calls do *)

Lemma resize_0 s : resize 0 s = "".
Proof. destruct s; reflexivity. Qed.

Lemma FileStorage_Set_nil fs w key value :
  MemStorage_m (FileStorage_ms fs) = None ->
  FileStorage_Set key value (fs, w)
  = (Panics "assignment to entry in nil map", (fs, w)).
Proof.
  destruct fs as [[m] f]. simpl. intros ->. reflexivity.
Qed.

Lemma FileStorage_Set_run fs w key value g :
  MemStorage_m (FileStorage_ms fs) = Some g ->
  let name := File_name (FileStorage_f fs) in
  let m' := Some (<[key := value]> g) in
  let data := Encode_bytes m' in
  FileStorage_Set key value (fs, w)
  = match faults w with
    | Some ft :: rest =>
      (Returns (Some (wrapError (step_text step_Truncate)
                                (os_Error (fault_text ft)))),
       (with_map fs m',
        {| files := files w; faults := rest;
           trace := calls_to step_Truncate name data ++ trace w |}))
    | _ =>
      match tail (faults w) with
      | Some ft :: rest =>
        (Returns (Some (wrapError (step_text step_Seek)
                                  (os_Error (fault_text ft)))),
         (with_map fs m',
          {| files := <[name := ""]> (files w); faults := rest;
             trace := calls_to step_Seek name data ++ trace w |}))
      | _ =>
        match tail (tail (faults w)) with
        | Some ft :: rest =>
          (Returns (Some (wrapError (step_text step_Encode)
                                    (os_Error (fault_text ft)))),
           (with_map fs m',
            {| files := <[name := String.substring 0 (fault_count ft) data]>
                          (files w);
               faults := rest;
               trace := calls_to step_Encode name data ++ trace w |}))
        | _ =>
          (Returns None,
           (with_map fs m',
            {| files := <[name := data]> (files w);
               faults := drop 3 (faults w);
               trace := calls_to step_Encode name data ++ trace w |}))
        end
      end
    end.
Proof.
  destruct fs as [[m] [name]], w as [fl fts tr]. simpl. intros ->.
  destruct fts as [|[ft1|] [|[ft2|] [|[ft3|] rest]]]; 
  unfold FileStorage_Set, on_ms, on_world, zoom, mbind, Go_bind, mret, Go_ret; simpl;
  unfold contents, set_contents; simpl; rewrite ?lookup_insert_eq; simpl; rewrite ?resize_0; simpl; rewrite ?insert_insert_eq; reflexivity.
Qed.

Lemma calm_2 w :
  calm 2 w ->
  faults w = [] \/ faults w = [None]
  \/ exists rest, faults w = None :: None :: rest.
Proof.
  unfold calm. destruct (faults w) as [|x [|y rest]]; simpl; intros H; auto.
  - inversion H; subst. auto.
  - inversion H as [|? ? -> H']; subst. inversion H' as [|? ? -> _]; subst.
    eauto.
Qed.

Lemma NewFileStorage_calm name w :
  calm 2 w ->
  NewFileStorage name w
  = (Returns (decoded_store name (Decode (contents w name) io_EOF make_map)),
     opened name w).
Proof.
  intros Hc. apply calm_2 in Hc. destruct w as [fl fts tr]. simpl in Hc.
  unfold NewFileStorage, os_OpenFile, Decoder_Decode, File_stream, sys,
    mbind, Go_bind, mret, Go_ret, get, put, contents, opened, set_contents,
    decoded_store.
  destruct Hc as [->|[->|[rest ->]]]; simpl;
    destruct (fl !! name) as [c|] eqn:E; simpl;
    rewrite ?lookup_insert_eq, ?E; simpl;
    repeat match goal with
    | |- context [Decode ?a ?b ?c] => destruct (Decode a b c) as [m [[]|]]
    end; reflexivity.
Qed.

Lemma Storage_Get_spec key s w :
  Storage_Get key (s, w)
  = (Returns (Get_result (stored (Storage_map s) key)), (s, w)).
Proof.
  destruct s as [[m]|[[m] f]]; simpl;
    unfold FileStorage_Get, on_ms, zoom, MemStorage_Get, map_index, mbind,
      Go_bind, get; simpl;
    destruct m as [g|]; simpl; try reflexivity;
    destruct (g !! key); reflexivity.
Qed.

Lemma Storage_Set_nil key value s w :
  Storage_map s = None ->
  Storage_Set key value (s, w)
  = (Panics "assignment to entry in nil map", (s, w)).
Proof.
  destruct s as [[m]|fs]; simpl.
  - intros ->. reflexivity.
  - intros H. rewrite FileStorage_Set_nil by exact H. reflexivity.
Qed.

(** What a successful [Set] has done. *)
Lemma Storage_Set_ok key value s w s' w' :
  Storage_Set key value (s, w) = (Returns None, (s', w')) ->
  exists g, Storage_map s = Some g
            /\ s' = Storage_with_map s (Some (<[key := value]> g)).
Proof.
  destruct (Storage_map s) as [g|] eqn:Hm.
  2:{ rewrite Storage_Set_nil by exact Hm. discriminate. }
  intros H. exists g. split; [reflexivity|].
  destruct s as [[m]|fs]; simpl in *.
  - subst m. injection H as <- _. reflexivity.
  - rewrite (FileStorage_Set_run fs w key value g Hm) in H.
    destruct (faults w) as [|[ft1|] [|[ft2|] [|[ft3|] rest]]];
      simpl in H; injection H; congruence.
Qed.

(** Whatever [Set] returns, it leaves the other keys as they were. *)
Lemma Storage_Set_other key value s w key' :
  key <> key' ->
  stored (Storage_map (Storage_Set key value (s, w)).2.1) key'
  = stored (Storage_map s) key'.
Proof.
  intros Hne. destruct (Storage_map s) as [g|] eqn:Hm.
  2:{ rewrite Storage_Set_nil by exact Hm. simpl. rewrite Hm. reflexivity. }
  destruct s as [[m]|fs]; simpl in *.
  - subst m. simpl. apply lookup_insert_ne, Hne.
  - rewrite (FileStorage_Set_run fs w key value g Hm).
    destruct (faults w) as [|[ft1|] [|[ft2|] [|[ft3|] rest]]]; simpl;
      apply lookup_insert_ne, Hne.
Qed.

Lemma serve_memory rs : forall g w,
  exists g' w',
    serve rs (Storage_Mem {| MemStorage_m := Some g |}, w)
    = (Storage_Mem {| MemStorage_m := Some g' |}, w').
Proof.
  induction rs as [|r rs IH]; intros g w; [eauto|].
  change (serve (r :: rs) (Storage_Mem {| MemStorage_m := Some g |}, w))
    with (serve rs (serve1 r (Storage_Mem {| MemStorage_m := Some g |}, w))).
  destruct r as [k|k v]; unfold serve1.
  - rewrite Storage_Get_spec. apply IH.
  - apply IH.
Qed.

(** What a successful [FileStorage.Set] has done. *)
Lemma FileStorage_Set_ok key value fs w fs' w' :
  FileStorage_Set key value (fs, w) = (Returns None, (fs', w')) ->
  exists g, MemStorage_m (FileStorage_ms fs) = Some g
    /\ fs' = with_map fs (Some (<[key := value]> g))
    /\ files w' = <[File_name (FileStorage_f fs) :=
                     Encode_bytes (Some (<[key := value]> g))]> (files w).
Proof.
  destruct (MemStorage_m (FileStorage_ms fs)) as [g|] eqn:Hm.
  2:{ rewrite FileStorage_Set_nil by exact Hm. discriminate. }
  rewrite (FileStorage_Set_run fs w key value g Hm). intros H. exists g.
  split; [reflexivity|].
  destruct (faults w) as [|[ft1|] [|[ft2|] [|[ft3|] rest]]];
    simpl in H; try discriminate; injection H as <- <-; auto.
Qed.

(** A file store that was constructed holds valid UTF-8 only. *)
Lemma NewFileStorage_ok name w s w' :
  NewFileStorage name w = (Returns (Some s, None), w') ->
  exists m, s = Storage_File (file_store name m) /\ valid_map m.
Proof.
  destruct w as [fl fts tr].
  unfold NewFileStorage, os_OpenFile, Decoder_Decode, File_stream, sys,
    mbind, Go_bind, mret, Go_ret, get, put, contents, set_contents.
  simpl. destruct (mjoin (head fts)); simpl; [discriminate|].
  destruct (fl !! name); simpl;
    destruct (mjoin (head (tail fts))); simpl;
    match goal with
    | |- context [Decode ?a ?b ?c] =>
      pose proof (Decode_valid a b c) as Hv;
      destruct (Decode a b c) as [m [e|]]
    end;
    try destruct e; simpl; intros H; try discriminate;
    injection H as <- _; eexists; (split; [reflexivity|]);
    eapply Hv; try reflexivity;
    intros k v Hl; rewrite lookup_empty in Hl; discriminate.
Qed.

Lemma substring_prefix n s : exists x, s = String.substring 0 n s +:+ x.
Proof.
  revert n. induction s as [|c s IH]; intros n.
  - exists "". destruct n; reflexivity.
  - destruct n as [|n]; [exists (String c s); reflexivity|].
    destruct (IH n) as (x & Hx). exists x. cbn [String.substring String.append].
    f_equal. exact Hx.
Qed.

(** A file store that was constructed, whatever the faults it met, holds
    the map the decoder reads from the whole file. *)
Lemma NewFileStorage_reads name w s w' :
  NewFileStorage name w = (Returns (Some s, None), w') ->
  exists m e,
    Decode (contents w name) io_EOF make_map = (m, e)
    /\ (e = None \/ e = Some io_EOF)
    /\ s = Storage_File (file_store name m).
Proof.
  destruct w as [fl fts tr].
  unfold NewFileStorage, os_OpenFile, Decoder_Decode, File_stream, sys,
    mbind, Go_bind, mret, Go_ret, get, put, contents, set_contents.
  simpl. destruct (mjoin (head fts)); simpl; [discriminate|].
  destruct (fl !! name) as [c|] eqn:Ef; simpl;
    destruct (mjoin (head (tail fts))) as [ft|]; simpl;
    rewrite ?lookup_insert_eq, ?Ef; simpl.
  3: destruct (fault_count ft); cbv; discriminate.
  1:
    match goal with
    | |- context [Decode (String.substring 0 ?n ?d) (os_Error ?t) ?c] =>
      pose proof (Decode_not_EOF (String.substring 0 n d) (os_Error t) c) as Hn;
      pose proof (Decode_prefix (String.substring 0 n d)) as Hp;
      destruct (substring_prefix n d) as (x & Hx);
      destruct (Decode (String.substring 0 n d) (os_Error t) c)
        as [m [e|]] eqn:E
    end;
    [ cbn [snd] in Hn; destruct e; simpl; try discriminate;
      exfalso; apply Hn; [discriminate|reflexivity]
    | simpl; intros [= <- _]; exists m, None;
      split; [|split; [left; reflexivity|reflexivity]];
      rewrite Hx at 1; eapply Hp; exact E ].
  - destruct (Decode c io_EOF make_map) as [m [e|]];
      try destruct e; simpl; try discriminate; intros [= <- _];
      eexists _, _; (split; [reflexivity|]); (split; [auto|reflexivity]).
  - intros [= <- _]. exists make_map, (Some io_EOF).
    split; [reflexivity|]. split; [auto|reflexivity].
Qed.

(** The construction returns a store and no error, or no store and an
    error. *)
Lemma NewFileStorage_returns name w :
  (exists s w', NewFileStorage name w = (Returns (Some s, None), w'))
  \/ (exists err w', NewFileStorage name w = (Returns (None, Some err), w')).
Proof.
  destruct w as [fl fts tr].
  unfold NewFileStorage, os_OpenFile, Decoder_Decode, File_stream, sys,
    mbind, Go_bind, mret, Go_ret, get, put, contents, set_contents.
  simpl. destruct (mjoin (head fts)); simpl; [right; eauto|].
  destruct (fl !! name) as [c|] eqn:Ef; simpl;
    destruct (mjoin (head (tail fts))) as [ft|]; simpl;
    rewrite ?lookup_insert_eq, ?Ef; simpl;
    repeat match goal with
    | |- context [Decode ?a ?b ?c] => destruct (Decode a b c) as [m [[]|]]
    end; eauto.
Qed.

Lemma serve_other_key key rs : forall s w,
  Forall (fun r => ~ sets_key key r) rs ->
  stored (Storage_map (serve rs (s, w)).1) key = stored (Storage_map s) key.
Proof.
  induction rs as [|r rs IH]; intros s w H; [reflexivity|].
  inversion H as [|? ? Hr Hrs]; subst.
  unfold serve in *. cbn [foldl].
  destruct (serve1 r (s, w)) as [s1 w1] eqn:E. rewrite IH by exact Hrs.
  destruct r as [k|k v]; unfold serve1 in E.
  - rewrite Storage_Get_spec in E. injection E as <- _. reflexivity.
  - pose proof (Storage_Set_other k v s w key) as Ho. rewrite E in Ho.
    apply Ho. intros ->. apply Hr. reflexivity.
Qed.

(** ** The statements of the specification *)

(** C1, as amended. After every successful [Set] of a file store the file
    holds exactly the bytes the encoder writes for the map in memory.
    Decoding the file gives that map with every key and value coerced to
    valid UTF-8 ([recode]); it gives the map itself when all its keys and
    values are valid UTF-8. *)
Theorem C1_file_is_encoding_of_map (fs : FileStorage) (w : World)
    (key value : string) (fs' : FileStorage) (w' : World) :
  FileStorage_Set key value (fs, w) = (Returns None, (fs', w')) ->
  let m := MemStorage_m (FileStorage_ms fs') in
  let file := contents w' (File_name (FileStorage_f fs')) in
  file = Encode_bytes m
  /\ Decode file io_EOF make_map = (recode m, None)
  /\ (valid_map m -> Decode file io_EOF make_map = (m, None)).
Proof.
  intros H. apply FileStorage_Set_ok in H as (g & Hg & -> & Hf). simpl.
  assert (contents w' (File_name (FileStorage_f fs))
          = Encode_bytes (Some (<[key := value]> g))) as ->.
  { unfold contents. rewrite Hf, lookup_insert_eq. reflexivity. }
  split; [reflexivity|]. rewrite Decode_Encode_bytes. split; [reflexivity|].
  intros Hv. rewrite recode_valid by exact Hv. reflexivity.
Qed.

(** C1 on a fresh file store, after [Set("k","v")]. *)
Lemma C1_file_is_encoding_of_map_witness :
  let st := (file_store "somefile.json" make_map,
             one_file "somefile.json" "") in
  let st' := (FileStorage_Set "k" "v" st).2 in
  let m := MemStorage_m (FileStorage_ms st'.1) in
  let file := contents st'.2 (File_name (FileStorage_f st'.1)) in
  file = Encode_bytes m
  /\ Decode file io_EOF make_map = (recode m, None)
  /\ (valid_map m -> Decode file io_EOF make_map = (m, None)).
Proof.
  intros st st'.
  apply (C1_file_is_encoding_of_map st.1 st.2 "k" "v" st'.1 st'.2).
  vm_compute. reflexivity.
Defined.

(** A key that is not valid UTF-8: the byte 0xFF. The file holds the
    replacement character in its place, and so does the map decoded from
    the file. *)
Lemma C1_counterexample :
  exists fs' w',
    FileStorage_Set (str1 "255"%char) "v"
      (file_store "somefile.json" make_map, one_file "somefile.json" "")
    = (Returns None, (fs', w'))
    /\ (Decode (contents w' "somefile.json") io_EOF make_map).1
       <> MemStorage_m (FileStorage_ms fs').
Proof.
  eexists _, _. split; [vm_compute; reflexivity|].
  intros H. apply (f_equal (fun m => stored m (str1 "255"%char))) in H.
  vm_compute in H. discriminate H.
Qed.

(** C2. For a store of either kind, after a successful [Set(k, v)] an
    immediately following [Get(k)] returns [v] with success. Applied to the
    second of two [Set]s of one key it gives the last value written: after
    [Set("x","1")] and [Set("x","2")], [Get("x")] returns ["2"]. *)
Theorem C2_set_then_get (s : Storage) (w : World) (key value : string)
    (s' : Storage) (w' : World) :
  Storage_Set key value (s, w) = (Returns None, (s', w')) ->
  Storage_Get key (s', w') = (Returns (value, None), (s', w')).
Proof.
  intros H. apply Storage_Set_ok in H as (g & Hg & ->).
  rewrite Storage_Get_spec.
  replace (stored (Storage_map (Storage_with_map s (Some (<[key:=value]> g))))
                  key) with (Some value); [reflexivity|].
  destruct s; simpl; rewrite lookup_insert_eq; reflexivity.
Qed.

(** The scenario of C2 on a memory store and on a file store. *)
Lemma C2_set_then_get_witness :
  let mem1 := (Storage_Set "x" "1" (NewMemStorage, no_files)).2 in
  let file1 :=
    (Storage_Set "x" "1"
       (Storage_File (file_store "somefile.json" make_map),
        one_file "somefile.json" "")).2 in
  (Storage_Set "x" "2" mem1
     = (Returns None, (Storage_Set "x" "2" mem1).2)
   /\ Storage_Get "x" (Storage_Set "x" "2" mem1).2
      = (Returns ("2", None), (Storage_Set "x" "2" mem1).2))
  /\ (Storage_Set "x" "2" file1
      = (Returns None, (Storage_Set "x" "2" file1).2)
      /\ Storage_Get "x" (Storage_Set "x" "2" file1).2
         = (Returns ("2", None), (Storage_Set "x" "2" file1).2)).
Proof.
  intros mem1 file1.
  assert (Storage_Set "x" "2" mem1
          = (Returns None, (Storage_Set "x" "2" mem1).2)) as Hm
    by (vm_compute; reflexivity).
  assert (Storage_Set "x" "2" file1
          = (Returns None, (Storage_Set "x" "2" file1).2)) as Hf
    by (vm_compute; reflexivity).
  split; (split; [assumption|]).
  - destruct (Storage_Set "x" "2" mem1).2 as [s2 w2] eqn:E.
    destruct mem1 as [s1 w1]. exact (C2_set_then_get s1 w1 "x" "2" s2 w2 Hm).
  - destruct (Storage_Set "x" "2" file1).2 as [s2 w2] eqn:E.
    destruct file1 as [s1 w1]. exact (C2_set_then_get s1 w1 "x" "2" s2 w2 Hf).
Defined.

(** C3. Persistence across reopen: a file store is constructed at [P],
    [Set("k","v")] succeeds, the store is dropped. Every file store that is
    then constructed at [P], whatever faults of the operating system its
    construction meets, returns ["v"] for [Get("k")]; and the construction
    gives a store when the file is opened and read without a fault. *)
Theorem C3_persistence_across_reopen (P : string) (w0 w1 w2 : World)
    (s1 s1' : Storage) :
  NewFileStorage P w0 = (Returns (Some s1, None), w1) ->
  Storage_Set "k" "v" (s1, w1) = (Returns None, (s1', w2)) ->
  (forall s2 w3,
     NewFileStorage P w2 = (Returns (Some s2, None), w3) ->
     Storage_Get "k" (s2, w3) = (Returns ("v", None), (s2, w3)))
  /\ (calm 2 w2 ->
      exists s2 w3, NewFileStorage P w2 = (Returns (Some s2, None), w3)).
Proof.
  intros H1 H2. apply NewFileStorage_ok in H1 as (m & -> & Hm).
  cbn [Storage_Set] in H2.
  destruct (FileStorage_Set "k" "v" (file_store P m, w1)) as [r [fs' w']] eqn:E.
  injection H2 as -> <- ->.
  apply FileStorage_Set_ok in E as (g & Hg & -> & Hf). simpl in Hg. subst m.
  assert (contents w2 P = Encode_bytes (Some (<["k" := "v"]> g))) as Hc.
  { unfold contents. rewrite Hf. simpl. rewrite lookup_insert_eq. reflexivity. }
  assert (Decode (contents w2 P) io_EOF make_map
          = (Some (<["k" := "v"]> g), None)) as Hd.
  { rewrite Hc, Decode_Encode_bytes, recode_valid
      by (apply valid_map_insert; [exact Hm|reflexivity..]).
    reflexivity. }
  split.
  - intros s2 w3 H3. apply NewFileStorage_reads in H3 as (m & e & Hr & _ & ->).
    rewrite Hd in Hr. injection Hr as <- _.
    rewrite Storage_Get_spec. simpl. rewrite lookup_insert_eq. reflexivity.
  - intros Hcalm. rewrite (NewFileStorage_calm P w2 Hcalm), Hd.
    eexists _, _. reflexivity.
Qed.

(** C3 on a file that holds an entry already. *)
Lemma C3_persistence_across_reopen_witness :
  let P := "somefile.json" in
  let w0 := one_file P (sq "{'a':'1'}") in
  let s1 := Storage_File (file_store P (Some {["a" := "1"]})) in
  let w1 := opened P w0 in
  let s1' := Storage_File (file_store P (Some {["a" := "1"; "k" := "v"]})) in
  let w2 := (Storage_Set "k" "v" (s1, w1)).2.2 in
  NewFileStorage P w0 = (Returns (Some s1, None), w1)
  /\ Storage_Set "k" "v" (s1, w1) = (Returns None, (s1', w2))
  /\ exists s2 w3,
       NewFileStorage P w2 = (Returns (Some s2, None), w3)
       /\ Storage_Get "k" (s2, w3) = (Returns ("v", None), (s2, w3)).
Proof.
  intros P w0 s1 w1 s1' w2.
  assert (NewFileStorage P w0 = (Returns (Some s1, None), w1)) as H1
    by (vm_compute; reflexivity).
  assert (Storage_Set "k" "v" (s1, w1) = (Returns None, (s1', w2))) as H2
    by (vm_compute; reflexivity).
  split; [exact H1|]. split; [exact H2|].
  destruct (C3_persistence_across_reopen P w0 w1 w2 s1 s1' H1 H2)
    as (Hget & Hnew).
  destruct Hnew as (s2 & w3 & H3); [constructor|].
  exists s2, w3. split; [exact H3|]. apply Hget, H3.
Defined.

(** C4, as amended. For a store of either kind and a key that its map
    does not hold (the map of a fresh memory store is empty; the map of a
    file store is what its construction read from the file) and that no
    request has set since, whatever the requests served in between and
    whatever they returned, [Get] returns the not-found error and no value.
    The absence of the key is the only error of [Get]. *)
Theorem C4_get_not_found (s : Storage) (w : World) (rs : list request)
    (key : string) :
  stored (Storage_map s) key = None ->
  Forall (fun r => ~ sets_key key r) rs ->
  Storage_Get key (serve rs (s, w))
  = (Returns ("", Some (errorString "err not found")), serve rs (s, w))
  /\ (forall st k value err,
        (Storage_Get k st).1 = Returns (value, Some err) ->
        stored (Storage_map st.1) k = None).
Proof.
  intros H0 Hrs. split.
  - pose proof (serve_other_key key rs s w Hrs) as Hk. rewrite H0 in Hk.
    destruct (serve rs (s, w)) as [s1 w1]. rewrite Storage_Get_spec.
    cbn [fst] in Hk. rewrite Hk. reflexivity.
  - intros [s1 w1] k value err. rewrite Storage_Get_spec. cbn [fst].
    destruct (stored (Storage_map s1) k); [discriminate|reflexivity].
Qed.

(** C4 on a fresh memory store, after requests on other keys. *)
Lemma C4_get_not_found_witness :
  let rs := [req_Set "a" "1"; req_Get "k"; req_Set "b" "2"] in
  Storage_Get "k" (serve rs (NewMemStorage, no_files))
  = (Returns ("", Some (errorString "err not found")),
     serve rs (NewMemStorage, no_files))
  /\ (forall st k value err,
        (Storage_Get k st).1 = Returns (value, Some err) ->
        stored (Storage_map st.1) k = None).
Proof.
  intros rs. apply (C4_get_not_found NewMemStorage no_files rs "k").
  - reflexivity.
  - repeat constructor; simpl; try discriminate; auto.
Defined.

(** A file store just constructed returns the value its file had for a
    key, though the key was never set in it. *)
Lemma C4_counterexample :
  exists s w,
    NewFileStorage "somefile.json" (one_file "somefile.json" (sq "{'a':'1'}"))
    = (Returns (Some s, None), w)
    /\ Storage_Get "a" (serve [] (s, w)) = (Returns ("1", None), (s, w)).
Proof.
  eexists _, _. split; [vm_compute; reflexivity|]. vm_compute. reflexivity.
Qed.

(** C5, as amended. When the content of the file is not readable (it is
    not white space only, and what follows its leading white space does not
    start with [null] or with an object of string keys to values that are
    strings or [null]), the construction fails, whatever faults of the
    operating system it meets: it returns no store and an error. When the
    file is opened and read without a fault, the error is the decoder's
    error, which is not [io.EOF], after the text that names the file. *)
Theorem C5_unreadable_file_fails (name : string) (w : World) :
  ~ readable (contents w name) ->
  (exists err w', NewFileStorage name w = (Returns (None, Some err), w'))
  /\ (calm 2 w ->
      exists e,
        (Decode (contents w name) io_EOF make_map).2 = Some e
        /\ e <> io_EOF
        /\ NewFileStorage name w
           = (Returns (None,
                       Some (wrapError ("unable to decode contents of file "
                                        +:+ name +:+ ": ") e)),
              opened name w)).
Proof.
  intros Hn. split.
  - destruct (NewFileStorage_returns name w) as [(s & w' & H)|H]; [|exact H].
    exfalso. apply NewFileStorage_reads in H as (m & e & Hd & He & _).
    apply Hn. eapply Decode_sound; eassumption.
  - intros Hc. rewrite (NewFileStorage_calm name w Hc).
    unfold decoded_store.
    destruct (Decode (contents w name) io_EOF make_map) as [m e] eqn:E.
    cbn [fst snd].
    assert (e <> None /\ e <> Some io_EOF) as [H1 H2].
    { split; intros ->; apply Hn; eapply Decode_sound; eauto. }
    destruct e as [e|]; [|contradiction]. exists e.
    split; [reflexivity|]. split; [congruence|].
    destruct e; try reflexivity. contradiction.
Qed.

(** C5 on a word, on a string, on a truncated object and on an object
    with a number. *)
Lemma C5_unreadable_file_fails_witness :
  let fails data e :=
    NewFileStorage "somefile.json" (one_file "somefile.json" data)
    = (Returns (None,
                Some (wrapError
                        "unable to decode contents of file somefile.json: "
                        e)),
       opened "somefile.json" (one_file "somefile.json" data)) in
  fails "not json" json_SyntaxError
  /\ fails (sq "'not json'") json_UnmarshalTypeError
  /\ fails (sq "{'a':'1'") io_ErrUnexpectedEOF
  /\ fails (sq "{'a':1}") json_UnmarshalTypeError.
Proof.
  intros fails.
  assert (forall data e,
            (Decode data io_EOF make_map).2 = Some e -> e <> io_EOF ->
            fails data e) as H.
  { intros data e He Hne.
    destruct (C5_unreadable_file_fails "somefile.json"
                (one_file "somefile.json" data)) as (_ & Hcalm).
    - change (contents (one_file "somefile.json" data) "somefile.json")
        with data. eapply unreadable; eassumption.
    - destruct Hcalm as (e' & He' & _ & Hf); [constructor|].
      change (contents (one_file "somefile.json" data) "somefile.json")
        with data in He'. rewrite He in He'. injection He' as <-. exact Hf. }
  split; [|split; [|split]]; apply H; (reflexivity || discriminate).
Defined.

(** Files that are not empty and are not objects of strings, from which a
    store is constructed all the same: white space, [null] (the store has a
    nil map), an object with a [null] value, and an object followed by other
    bytes. *)
Lemma C5_counterexample :
  let constructed data m :=
    (NewFileStorage "somefile.json" (one_file "somefile.json" data)).1
    = Returns (Some (Storage_File (file_store "somefile.json" m)), None) in
  (" " <> "" /\ ~ string_object " " /\ constructed " " (Some ∅))
  /\ ("null" <> "" /\ ~ string_object "null" /\ constructed "null" None)
  /\ (sq "{'a':null}" <> "" /\ ~ string_object (sq "{'a':null}")
      /\ constructed (sq "{'a':null}") (Some {["a" := ""]}))
  /\ ("{} x" <> "" /\ ~ string_object "{} x"
      /\ constructed "{} x" (Some ∅)).
Proof.
  intros constructed. unfold constructed.
  split; [|split; [|split]]; (split; [discriminate|split]).
  - apply not_string_object_blank.
  - vm_compute. reflexivity.
  - apply not_string_object_null.
  - vm_compute. reflexivity.
  - apply not_string_object_null_member.
  - vm_compute. reflexivity.
  - apply not_string_object_trailing.
  - vm_compute. reflexivity.
Qed.

(** C6. When the file is opened and read without a fault: on an empty
    file (of no length, or just created) the construction succeeds and the
    store has no entries, the end of the input being no error; on a file
    that holds a JSON object of strings, white space and escapes included,
    it succeeds and, no [Set] having been called, [Get] returns for each key
    the value of its last member in the file, and [err not found] for a key
    that the file does not have. *)
Theorem C6_construct_from_file (name : string) (w : World) :
  calm 2 w ->
  (contents w name = "" ->
   NewFileStorage name w
   = (Returns (Some (Storage_File (file_store name (Some ∅))), None),
      opened name w))
  /\ (forall kvs,
        json_file (contents w name) kvs ->
        exists s,
          NewFileStorage name w = (Returns (Some s, None), opened name w)
          /\ (forall front key value back,
                kvs = (front ++ (key, value) :: back)%list ->
                key ∉ back.*1 ->
                Storage_Get key (s, opened name w)
                = (Returns (value, None), (s, opened name w)))
          /\ (forall key,
                key ∉ kvs.*1 ->
                Storage_Get key (s, opened name w)
                = (Returns ("", Some (errorString "err not found")),
                   (s, opened name w)))).
Proof.
  intros Hc. rewrite (NewFileStorage_calm name w Hc). split.
  - intros ->. reflexivity.
  - intros kvs Hf. rewrite (Decode_json_file _ kvs io_EOF Hf).
    eexists. split; [reflexivity|].
    split; [intros front key value back -> Hk|intros key Hk];
      rewrite Storage_Get_spec;
      cbn [decoded_store fst snd Storage_map FileStorage_ms MemStorage_m
           stored].
    + rewrite foldl_insert_last by exact Hk. reflexivity.
    + rewrite foldl_insert_absent by exact Hk. reflexivity.
Qed.

(** C6 on a world without files, on the file [{"a":"1","b":"2"}] (written
    here with apostrophes), and on a file with white space, a key with an
    escape and a value with [\u] escapes, one of them a surrogate pair. *)
Lemma C6_construct_from_file_witness :
  NewFileStorage "somefile.json" no_files
  = (Returns (Some (Storage_File (file_store "somefile.json" (Some ∅))), None),
     opened "somefile.json" no_files)
  /\ (let w := one_file "somefile.json" (sq "{'a':'1','b':'2'}") in
      exists s,
        NewFileStorage "somefile.json" w
        = (Returns (Some s, None), opened "somefile.json" w)
        /\ Storage_Get "a" (s, opened "somefile.json" w)
           = (Returns ("1", None), (s, opened "somefile.json" w))
        /\ Storage_Get "b" (s, opened "somefile.json" w)
           = (Returns ("2", None), (s, opened "somefile.json" w))
        /\ Storage_Get "c" (s, opened "somefile.json" w)
           = (Returns ("", Some (errorString "err not found")),
              (s, opened "somefile.json" w)))
  /\ (let w := one_file "somefile.json"
                 (sq " { 'k\n' :" +:+ bytes [0x09]
                  +:+ sq "'\u00e9\ud83d\ude00' }" +:+ bytes [0x0A]) in
      exists s,
        NewFileStorage "somefile.json" w
        = (Returns (Some s, None), opened "somefile.json" w)
        /\ Storage_Get (bytes [0x6B; 0x0A]) (s, opened "somefile.json" w)
           = (Returns (bytes [0xC3; 0xA9; 0xF0; 0x9F; 0x98; 0x80], None),
              (s, opened "somefile.json" w))).
Proof.
  assert (forall c, c ∈ [" "%char; "009"%char; "010"%char] ->
                    json_ws (String c "")) as Hws.
  { intros c Hc. apply json_ws_more; [|exact json_ws_end].
    repeat (apply elem_of_cons in Hc as [->|Hc]; [vm_compute; auto|]).
    apply elem_of_nil in Hc. contradiction. }
  assert (forall c, c ∈ ["a"%char; "b"%char; "1"%char; "2"%char; "k"%char] ->
                    forall body value, json_chars body value ->
                    json_chars (String c body) (String c value)) as Hch.
  { intros c Hc body value H.
    repeat (apply elem_of_cons in Hc as [->|Hc];
            [apply json_chars_ascii;
             [split; [discriminate|reflexivity]|discriminate..|exact H]|]).
    apply elem_of_nil in Hc. contradiction. }
  assert (forall body value,
            json_chars body value ->
            json_string (String dquote (body +:+ str1 dquote)) value) as Hstr.
  { intros body value H. exists body. split; [exact H|reflexivity]. }
  split; [|split].
  - apply (C6_construct_from_file "somefile.json" no_files).
    + constructor.
    + reflexivity.
  - intros w.
    destruct (C6_construct_from_file "somefile.json" w) as [_ H];
      [constructor|].
    destruct (H [("a", "1"); ("b", "2")]) as (s & HN & Hget & Hnone).
    { exists "", (sq "{'a':'1','b':'2'}"), "".
      split; [exact json_ws_end|]. split; [|split; [exact json_ws_end|]].
      - right. exists ("" +:+ sq "'a'" +:+ "" +:+ ":" +:+ "" +:+ sq "'1'"
                       +:+ "" +:+ "," +:+ ""
                       +:+ sq "'b'" +:+ "" +:+ ":" +:+ "" +:+ sq "'2'" +:+ "").
        split; [|reflexivity].
        apply json_members_more; try exact json_ws_end;
          [apply (Hstr "a" "a")|apply (Hstr "1" "1")|apply json_members_last];
          try exact json_ws_end;
          try apply (Hstr "b" "b"); try apply (Hstr "2" "2");
          (apply Hch; [in_list|exact json_chars_end]).
      - reflexivity. }
    exists s. split; [exact HN|]. split; [|split].
    + apply (Hget [] "a" "1" [("b", "2")]); [reflexivity|in_list].
    + apply (Hget [("a", "1")] "b" "2" []); [reflexivity|in_list].
    + apply Hnone. in_list.
  - intros w.
    destruct (C6_construct_from_file "somefile.json" w) as [_ H];
      [constructor|].
    destruct (H [(bytes [0x6B; 0x0A],
                  bytes [0xC3; 0xA9; 0xF0; 0x9F; 0x98; 0x80])])
      as (s & HN & Hget & _).
    { exists " ",
        ("{" +:+ (" " +:+ sq "'k\n'" +:+ " " +:+ ":" +:+ bytes [0x09]
                  +:+ sq "'\u00e9\ud83d\ude00'" +:+ " ") +:+ "}"),
        (bytes [0x0A]).
      split; [apply Hws; in_list|].
      split; [|split; [apply Hws; in_list|reflexivity]].
      right. eexists. split; [|reflexivity].
      apply json_members_last; try (apply Hws; in_list).
      - apply (Hstr "k\n" (bytes [0x6B; 0x0A])).
        apply Hch; [in_list|].
        exact (json_chars_escape "n" 0x0A "" "" eq_refl json_chars_end).
      - apply (Hstr "\u00e9\ud83d\ude00"
                    (bytes [0xC3; 0xA9; 0xF0; 0x9F; 0x98; 0x80])).
        refine (json_chars_unicode "0" "0" "e" "9" 0xE9 "\ud83d\ude00"
                  (bytes [0xF0; 0x9F; 0x98; 0x80]) eq_refl _ _);
          [left; reflexivity|].
        refine (json_chars_pair "d" "8" "3" "d" "d" "e" "0" "0"
                  0xD83D 0xDE00 "" "" eq_refl _ eq_refl _ json_chars_end);
          split; first [discriminate|reflexivity]. }
    exists s. split; [exact HN|].
    apply (Hget [] (bytes [0x6B; 0x0A])
             (bytes [0xC3; 0xA9; 0xF0; 0x9F; 0x98; 0x80]) []);
      [reflexivity|in_list].
Defined.

(** C7. [FileStorage.Set] is not atomic: when the truncation, the seek or
    the write of the encoding fails, [Set] returns the error of the step
    after the text that names the step, the steps after it are not made (the
    trace holds the system calls up to the failing one), and the map in
    memory has the key with its new value all the same. *)
Theorem C7_set_failure_keeps_update (json_text : error -> string)
    (fs : FileStorage) (w : World) (g : gmap string string)
    (key value : string) (st : step) (ft : fault)
    (rest : list (option fault)) :
  MemStorage_m (FileStorage_ms fs) = Some g ->
  faults w = (fail_at st ft ++ rest)%list ->
  let name := File_name (FileStorage_f fs) in
  let m' := Some (<[key := value]> g) in
  let data := Encode_bytes m' in
  let err := wrapError (step_text st) (os_Error (fault_text ft)) in
  FileStorage_Set key value (fs, w)
  = (Returns (Some err),
     (with_map fs m',
      {| files := files_left st ft name data (files w);
         faults := rest;
         trace := calls_to st name data ++ trace w |}))
  /\ Error json_text err = step_text st +:+ fault_text ft
  /\ stored m' key = Some value.
Proof.
  intros Hg Hf name m' data err.
  rewrite (FileStorage_Set_run fs w key value g Hg), Hf.
  split; [|split; [reflexivity|apply lookup_insert_eq]].
  destruct st; reflexivity.
Qed.

(** C7 at each of the three steps. *)
Lemma C7_set_failure_keeps_update_witness :
  let fs := file_store "somefile.json" (Some {["a" := "1"]}) in
  let ft := {| fault_text := "no space left on device"; fault_count := 3 |} in
  let w st := {| files := {["somefile.json" := sq "{'a':'1'}"]};
                 faults := fail_at st ft; trace := [] |} in
  let m' := Some (<["k" := "v"]> {["a" := "1"]}) in
  let result st :=
    (Returns (Some (wrapError (step_text st) (os_Error (fault_text ft)))),
     (with_map fs m',
      {| files := files_left st ft "somefile.json" (Encode_bytes m')
                    (files (w st));
         faults := [];
         trace := calls_to st "somefile.json" (Encode_bytes m') |})) in
  FileStorage_Set "k" "v" (fs, w step_Truncate) = result step_Truncate
  /\ FileStorage_Set "k" "v" (fs, w step_Seek) = result step_Seek
  /\ FileStorage_Set "k" "v" (fs, w step_Encode) = result step_Encode.
Proof.
  intros fs ft w m' result.
  pose proof (fun st =>
    C7_set_failure_keeps_update (fun _ => "") fs (w st) {["a" := "1"]}
      "k" "v" st ft [] eq_refl (eq_sym (app_nil_r (fail_at st ft)))) as H.
  split; [|split].
  - exact (proj1 (H step_Truncate)).
  - exact (proj1 (H step_Seek)).
  - exact (proj1 (H step_Encode)).
Defined.

(** C8. [FileStorage.Get] is the [Get] of the memory store inside, run on
    that store alone: the world, so the file and the trace of system calls,
    is as before. For a store of either kind, [Get] leaves the store and the
    world unchanged, and so does any sequence of [Get]s. *)
Theorem C8_get_has_no_effect :
  (forall key fs w,
     FileStorage_Get key (fs, w)
     = let '(r, ms) := MemStorage_Get key (FileStorage_ms fs) in
       (r, ({| FileStorage_ms := ms; FileStorage_f := FileStorage_f fs |}, w)))
  /\ (forall key st, (Storage_Get key st).2 = st)
  /\ (forall keys st, serve (map req_Get keys) st = st).
Proof.
  split; [reflexivity|].
  assert (forall key st, (Storage_Get key st).2 = st) as H1.
  { intros key [s w]. rewrite Storage_Get_spec. reflexivity. }
  split; [exact H1|].
  intros keys. induction keys as [|key keys IH]; intros st; [reflexivity|].
  cbn [map]. unfold serve. cbn [foldl serve1]. rewrite H1. apply IH.
Qed.

(** C9. For a store of either kind and two different keys, a successful
    [Set] of the one leaves what [Get] returns for the other unchanged: the
    same value, or the same not-found error. *)
Theorem C9_set_other_key (s : Storage) (w : World) (key key' value : string)
    (s' : Storage) (w' : World) :
  key <> key' ->
  Storage_Set key value (s, w) = (Returns None, (s', w')) ->
  (Storage_Get key' (s', w')).1 = (Storage_Get key' (s, w)).1.
Proof.
  intros Hne H. rewrite !Storage_Get_spec. cbn [fst]. do 2 f_equal.
  pose proof (Storage_Set_other key value s w key' Hne) as Ho.
  rewrite H in Ho. exact Ho.
Qed.

(** C9 on a memory store, for a key it holds and for one it does not,
    and on a file store. *)
Lemma C9_set_other_key_witness :
  let mem := (Storage_Mem {| MemStorage_m := Some {["b" := "2"]} |}, no_files) in
  let file := (Storage_File (file_store "somefile.json" (Some {["b" := "2"]})),
               one_file "somefile.json" (sq "{'b':'2'}")) in
  ((Storage_Get "b" (Storage_Set "a" "1" mem).2).1 = (Storage_Get "b" mem).1
   /\ (Storage_Get "c" (Storage_Set "a" "1" mem).2).1 = (Storage_Get "c" mem).1)
  /\ (Storage_Get "b" (Storage_Set "a" "1" file).2).1
     = (Storage_Get "b" file).1.
Proof.
  intros mem file. split; [split|].
  - apply (C9_set_other_key mem.1 mem.2 "a" "b" "1"
             (Storage_Set "a" "1" mem).2.1 (Storage_Set "a" "1" mem).2.2);
      [discriminate|vm_compute; reflexivity].
  - apply (C9_set_other_key mem.1 mem.2 "a" "c" "1"
             (Storage_Set "a" "1" mem).2.1 (Storage_Set "a" "1" mem).2.2);
      [discriminate|vm_compute; reflexivity].
  - apply (C9_set_other_key file.1 file.2 "a" "b" "1"
             (Storage_Set "a" "1" file).2.1 (Storage_Set "a" "1" file).2.2);
      [discriminate|vm_compute; reflexivity].
Defined.

(** C10. For a store of either kind and a key its map does not hold,
    [Get] returns the empty string and an error whose text is exactly
    ["err not found"]. *)
Theorem C10_not_found_value_and_text (json_text : error -> string)
    (s : Storage) (w : World) (key : string) :
  stored (Storage_map s) key = None ->
  Storage_Get key (s, w)
  = (Returns ("", Some (errorString "err not found")), (s, w))
  /\ Error json_text (errorString "err not found") = "err not found".
Proof.
  intros H. rewrite Storage_Get_spec, H. split; reflexivity.
Qed.

(** C10 on a fresh memory store and on a file store with a nil map. *)
Lemma C10_not_found_value_and_text_witness :
  (Storage_Get "k" (NewMemStorage, no_files)
   = (Returns ("", Some (errorString "err not found")),
      (NewMemStorage, no_files))
   /\ Error (fun _ => "") (errorString "err not found") = "err not found")
  /\ (Storage_Get "k" (Storage_File (file_store "somefile.json" None),
                       one_file "somefile.json" "null")
      = (Returns ("", Some (errorString "err not found")),
         (Storage_File (file_store "somefile.json" None),
          one_file "somefile.json" "null"))
      /\ Error (fun _ => "") (errorString "err not found") = "err not found").
Proof.
  split.
  - apply (C10_not_found_value_and_text (fun _ => "")). reflexivity.
  - apply (C10_not_found_value_and_text (fun _ => "")). reflexivity.
Defined.

(** ** Further properties of the constructors *)

(** X1. When the file is opened and read without a fault, the construction
    of a file store succeeds exactly when the content of the file is
    readable: white space only, or, after white space, [null] or an object
    of string keys to values that are strings or [null], followed by
    anything. *)
Theorem X1_construction_succeeds_iff_readable (name : string) (w : World) :
  calm 2 w ->
  (readable (contents w name) <->
   exists s, NewFileStorage name w = (Returns (Some s, None), opened name w)).
Proof.
  intros Hc. rewrite (NewFileStorage_calm name w Hc). split.
  - intros H. apply Decode_complete in H as (m & [-> | ->]);
      eexists; reflexivity.
  - intros (s & H). unfold decoded_store in H.
    destruct (Decode (contents w name) io_EOF make_map) as [m e] eqn:E.
    cbn [fst snd] in H. eapply Decode_sound; [exact E|].
    destruct e as [[]|]; try discriminate H; auto.
Qed.

Lemma X1_construction_succeeds_iff_readable_witness :
  readable (sq "{'a':'1'} and more") <->
  exists s,
    NewFileStorage "somefile.json"
      (one_file "somefile.json" (sq "{'a':'1'} and more"))
    = (Returns (Some s, None),
       opened "somefile.json"
         (one_file "somefile.json" (sq "{'a':'1'} and more"))).
Proof.
  apply (X1_construction_succeeds_iff_readable "somefile.json"
           (one_file "somefile.json" (sq "{'a':'1'} and more"))).
  constructor.
Defined.

(** X2. A file that holds [null] after its leading white space, opened and
    read without a fault, gives a file store whose map is nil: its [Get]
    returns the not-found error for every key, and its [Set] panics, the
    assignment being to an entry of a nil map. *)
Theorem X2_null_file_gives_nil_map (name : string) (w : World)
    (ws rest : string) :
  calm 2 w ->
  blank ws ->
  contents w name = ws +:+ "null" +:+ rest ->
  let s := Storage_File (file_store name None) in
  NewFileStorage name w = (Returns (Some s, None), opened name w)
  /\ (forall key w',
        Storage_Get key (s, w')
        = (Returns ("", Some (errorString "err not found")), (s, w')))
  /\ (forall key value w',
        Storage_Set key value (s, w')
        = (Panics "assignment to entry in nil map", (s, w'))).
Proof.
  intros Hc Hws Hf s. rewrite (NewFileStorage_calm name w Hc), Hf.
  rewrite Decode_null by exact Hws. split; [reflexivity|].
  split; reflexivity.
Qed.

Lemma X2_null_file_gives_nil_map_witness :
  let s := Storage_File (file_store "somefile.json" None) in
  let w := one_file "somefile.json" "null" in
  NewFileStorage "somefile.json" w
  = (Returns (Some s, None), opened "somefile.json" w)
  /\ (forall key w',
        Storage_Get key (s, w')
        = (Returns ("", Some (errorString "err not found")), (s, w')))
  /\ (forall key value w',
        Storage_Set key value (s, w')
        = (Panics "assignment to entry in nil map", (s, w'))).
Proof.
  apply (X2_null_file_gives_nil_map "somefile.json"
           (one_file "somefile.json" "null") "" "").
  - constructor.
  - reflexivity.
  - reflexivity.
Defined.

(** X3. [Set] of a memory store made by [NewMemStorage] always succeeds,
    whatever requests were served before, and the following [Get] returns
    the value. *)
Theorem X3_memory_set_always_succeeds (rs : list request) (w : World)
    (key value : string) :
  exists s' w',
    Storage_Set key value (serve rs (NewMemStorage, w))
    = (Returns None, (s', w'))
    /\ Storage_Get key (s', w') = (Returns (value, None), (s', w')).
Proof.
  destruct (serve_memory rs ∅ w) as (g' & w' & E).
  unfold NewMemStorage, make_map. rewrite E.
  eexists _, _. split; [reflexivity|]. rewrite Storage_Get_spec. simpl.
  rewrite lookup_insert_eq. reflexivity.
Qed.

(** ** The handlers and the router *)

Lemma http_Error_new text :
  http_Error text StatusInternalServerError new_response
  = (Returns tt, response_error text).
Proof. reflexivity. Qed.

Lemma Write_new value :
  ResponseWriter_Write value new_response
  = (Returns (String.length value, None), response_ok value).
Proof. reflexivity. Qed.

Lemma Write_error text :
  ResponseWriter_Write "" (response_error text)
  = (Returns (O, None), response_error text).
Proof.
  unfold ResponseWriter_Write, response_error, mbind, Go_bind, get, put, mret,
    Go_ret. simpl. rewrite append_nil_r. reflexivity.
Qed.

Lemma getHandler_run json_text r s w :
  getHandler json_text r (s, w, new_response)
  = (Returns tt,
     (s, w, get_response (stored (Storage_map s) (map_index (Vars r) "key").1))).
Proof.
  unfold getHandler, mux_Vars, on_storage, on_response, zoom.
  unfold mbind at 1, Go_bind at 1. cbn [fst snd].
  rewrite Storage_Get_spec.
  destruct (stored (Storage_map s) (map_index (Vars r) "key").1) as [v|];
    cbn [Get_result get_response].
  - unfold mbind, Go_bind, mret, Go_ret. cbn [fst snd].
    rewrite Write_new. reflexivity.
  - unfold mbind, Go_bind, mret, Go_ret. cbn [fst snd Error].
    rewrite http_Error_new. cbn [fst snd]. rewrite Write_error. reflexivity.
Qed.

Lemma postHandler_run json_text r s w :
  postHandler json_text r (s, w, new_response)
  = let key := (map_index (Vars r) "key").1 in
    let value := (map_index (Vars r) "value").1 in
    match Storage_Set key value (s, w) with
    | (Returns None, st) => (Returns tt, (st, response_ok value))
    | (Returns (Some e), st) =>
      (Returns tt, (st, response_error (Error json_text e)))
    | (Panics msg, st) => (Panics msg, (st, new_response))
    end.
Proof.
  unfold postHandler, mux_Vars, on_storage, on_response, zoom.
  unfold mbind at 1, Go_bind at 1. cbn [fst snd].
  destruct (Storage_Set _ _ (s, w)) as [[[e|]|msg] st]; cbn zeta.
  - rewrite http_Error_new. reflexivity.
  - unfold mbind, Go_bind, mret, Go_ret. cbn [fst snd].
    rewrite Write_new. reflexivity.
  - reflexivity.
Qed.

(** *** Paths *)

Lemma split_slash_cons s : exists x xs, split_slash s = x :: xs.
Proof.
  induction s as [|c s (x & xs & IH)]; [eexists _, _; reflexivity|].
  cbn [split_slash]. destruct (Ascii.eqb c "/"); [eauto|].
  rewrite IH. eauto.
Qed.

Lemma split_slash_no_slash s : no_slash s = true -> split_slash s = [s].
Proof.
  induction s as [|c s IH]; [reflexivity|]. cbn [no_slash split_slash].
  destruct (Ascii.eqb c "/"); [discriminate|]. intros H.
  rewrite IH by exact H. reflexivity.
Qed.

Lemma split_slash_app a b :
  no_slash a = true ->
  split_slash (a +:+ String "/" b) = a :: split_slash b.
Proof.
  induction a as [|c a IH]; [reflexivity|].
  cbn [no_slash split_slash String.append].
  destruct (Ascii.eqb c "/"); [discriminate|]. intros H.
  rewrite IH by exact H. reflexivity.
Qed.

Lemma join_split s : join_slash (split_slash s) = s.
Proof.
  induction s as [|c s IH]; [reflexivity|]. cbn [split_slash].
  destruct (Ascii.eqb_spec c "/") as [->|Hc].
  - destruct (split_slash_cons s) as (x & xs & E). rewrite E in *.
    change (join_slash ("" :: x :: xs))
      with ("" +:+ "/" +:+ join_slash (x :: xs)).
    rewrite IH. reflexivity.
  - destruct (split_slash_cons s) as (x & xs & E). rewrite E in *.
    destruct xs as [|y ys].
    + cbn [join_slash] in *. rewrite IH. reflexivity.
    + change (join_slash (String c x :: y :: ys))
        with (String c (x +:+ "/" +:+ join_slash (y :: ys))).
      change (join_slash (x :: y :: ys))
        with (x +:+ "/" +:+ join_slash (y :: ys)) in IH.
      rewrite IH. reflexivity.
Qed.

Lemma split_slash_parts s :
  Forall (fun p => no_slash p = true) (split_slash s).
Proof.
  induction s as [|c s IH]; [repeat constructor|]. cbn [split_slash].
  destruct (Ascii.eqb c "/") eqn:Ec; [constructor; [reflexivity|exact IH]|].
  destruct (split_slash_cons s) as (x & xs & E). rewrite E in *.
  inversion IH as [|? ? Hx Hxs]; subst. constructor; [|exact Hxs].
  cbn [no_slash]. rewrite Ec. exact Hx.
Qed.

Lemma last_byte_cons x d s :
  last_byte (String x (String d s)) = last_byte (String d s).
Proof. reflexivity. Qed.

Lemma last_byte_app a c b :
  last_byte (a +:+ String c b) = last_byte (String c b).
Proof.
  induction a as [|x a IH]; [reflexivity|].
  cbn [String.append]. destruct a as [|y a].
  - cbn [String.append]. apply last_byte_cons.
  - cbn [String.append] in *. rewrite last_byte_cons. exact IH.
Qed.

Lemma last_byte_no_slash s : no_slash s = true -> last_byte s <> Some "/"%char.
Proof.
  induction s as [|c s IH]; [discriminate|]. cbn [no_slash].
  destruct (Ascii.eqb_spec c "/") as [|Hc]; [discriminate|]. intros H.
  destruct s as [|d s]; [unfold last_byte; simpl; congruence|].
  change (String c (String d s)) with (String c "" +:+ String d s).
  rewrite last_byte_app. apply IH, H.
Qed.

(** [path.Clean] keeps the parts of a canonical path, and shortens every
    other path. *)
Lemma clean_parts_length parts : forall kept,
  (length (clean_parts parts kept) <= length kept + length parts)%nat
  /\ (length (clean_parts parts kept) = length kept + length parts ->
      Forall proper parts)%nat.
Proof.
  induction parts as [|p parts IH]; intros kept.
  { cbn [clean_parts]. rewrite length_rev. cbn [length]. split; [lia|].
    constructor. }
  cbn [clean_parts length].
  destruct (String.eqb_spec p "") as [->|H1]; cbn [orb].
  { destruct (IH kept) as [Hle _]. split; [lia|]. intros; lia. }
  destruct (String.eqb_spec p ".") as [->|H2].
  { destruct (IH kept) as [Hle _]. split; [lia|]. intros; lia. }
  destruct (String.eqb_spec p "..") as [->|H3].
  { destruct (IH (tail kept)) as [Hle _].
    assert (length (tail kept) <= length kept)%nat by (destruct kept; simpl; lia).
    split; [lia|]. intros; lia. }
  destruct (IH (p :: kept)) as [Hle Heq]. cbn [length] in *.
  split; [lia|]. intros H. constructor; [unfold proper; auto|]. apply Heq. lia.
Qed.

Lemma clean_parts_proper parts : forall kept,
  Forall proper parts ->
  clean_parts parts kept = (rev kept ++ parts)%list.
Proof.
  induction parts as [|p parts IH]; intros kept H.
  { cbn [clean_parts]. rewrite app_nil_r. reflexivity. }
  inversion H as [|? ? (H1 & H2 & H3) Hp]; subst. cbn [clean_parts].
  destruct (String.eqb_spec p ""); [contradiction|].
  destruct (String.eqb_spec p "."); [contradiction|].
  destruct (String.eqb_spec p ".."); [contradiction|]. cbn [orb].
  rewrite IH by exact Hp. cbn [rev]. rewrite <- app_assoc. reflexivity.
Qed.

Lemma split_join parts :
  Forall (fun p => no_slash p = true) parts -> parts <> [] ->
  split_slash (join_slash parts) = parts.
Proof.
  induction parts as [|p parts IH]; intros H Hne; [contradiction|].
  inversion H as [|? ? Hp Hps]; subst. destruct parts as [|q parts].
  - cbn [join_slash]. apply split_slash_no_slash, Hp.
  - change (join_slash (p :: q :: parts))
      with (p +:+ String "/" (join_slash (q :: parts))).
    rewrite split_slash_app by exact Hp. rewrite IH by (auto || discriminate).
    reflexivity.
Qed.

Lemma clean_parts_Forall (P : string -> Prop) parts : forall kept,
  Forall P parts -> Forall P kept -> Forall P (clean_parts parts kept).
Proof.
  induction parts as [|p parts IH]; intros kept Hp Hk; cbn [clean_parts].
  { apply Forall_rev, Hk. }
  inversion Hp; subst.
  destruct (String.eqb p "" || String.eqb p "."); [auto|].
  destruct (String.eqb p ".."); [|auto].
  apply IH; [assumption|]. destruct kept; [constructor|].
  inversion Hk; assumption.
Qed.

(** A path that does not end with a slash is canonical when none of its
    parts is empty, [.] or [..]. *)
Lemma cleanPath_proper t :
  last_byte (String "/" t) <> Some "/"%char ->
  (cleanPath (String "/" t) = String "/" t
   <-> Forall proper (split_slash t)).
Proof.
  intros Hl. unfold cleanPath. cbn [String.eqb Ascii.eqb].
  change (String.eqb (String "/" t) "") with false. cbv iota.
  rewrite bool_decide_eq_false_2 by exact Hl. cbn [andb].
  unfold path_Clean. cbn [split_slash]. change (Ascii.eqb "/" "/") with true.
  cbv iota. cbn [clean_parts String.eqb orb].
  change ("/" +:+ join_slash (clean_parts (split_slash t) []))
    with (String "/" (join_slash (clean_parts (split_slash t) []))).
  split.
  - intros [= H].
    assert (clean_parts (split_slash t) [] <> []) as Hne.
    { intros E. rewrite E in H. cbn [join_slash] in H. subst t.
      apply Hl. reflexivity. }
    apply (f_equal split_slash) in H. rewrite split_join in H.
    + apply (clean_parts_length (split_slash t) []). rewrite H. reflexivity.
    + apply clean_parts_Forall; [apply split_slash_parts|constructor].
    + exact Hne.
  - intros H. rewrite clean_parts_proper by exact H. cbn [rev app].
    rewrite join_split. reflexivity.
Qed.

Lemma path_part_inv s :
  path_part s = true ->
  String.eqb s "" = false /\ no_slash s = true
  /\ String.eqb s "." = false /\ String.eqb s ".." = false.
Proof.
  unfold path_part. intros H.
  apply andb_prop in H as [H H4]. apply andb_prop in H as [H H3].
  apply andb_prop in H as [H1 H2].
  apply Bool.negb_true_iff in H1, H3, H4. auto.
Qed.

Lemma path_part_proper s : path_part s = true -> proper s.
Proof.
  intros H. apply path_part_inv in H as (H1 & _ & H3 & H4).
  apply String.eqb_neq in H1, H3, H4. unfold proper. auto.
Qed.

Lemma path_part_last s a :
  path_part s = true -> last_byte (a +:+ s) <> Some "/"%char.
Proof.
  intros H. apply path_part_inv in H as (H1 & H2 & _).
  destruct s as [|c s]; [discriminate|]. rewrite last_byte_app.
  apply last_byte_no_slash, H2.
Qed.

Lemma cleanPath_get name key :
  no_slash name = true -> proper name -> path_part key = true ->
  cleanPath (String "/" (name +:+ String "/" key))
  = String "/" (name +:+ String "/" key).
Proof.
  intros Hn Hp Hk. pose proof (path_part_inv _ Hk) as (_ & Hs & _).
  apply cleanPath_proper.
  - replace (String "/" (name +:+ String "/" key))
      with (String "/" (name +:+ "/") +:+ key)
      by (cbn [String.append]; rewrite append_assoc; reflexivity).
    apply path_part_last, Hk.
  - rewrite split_slash_app by exact Hn.
    rewrite split_slash_no_slash by exact Hs.
    constructor; [exact Hp|].
    constructor; [apply path_part_proper, Hk|constructor].
Qed.

Lemma cleanPath_post name key value :
  no_slash name = true -> proper name ->
  path_part key = true -> path_part value = true ->
  cleanPath (String "/" (name +:+ String "/" (key +:+ String "/" value)))
  = String "/" (name +:+ String "/" (key +:+ String "/" value)).
Proof.
  intros Hn Hp Hk Hv. pose proof (path_part_inv _ Hk) as (_ & Hsk & _).
  pose proof (path_part_inv _ Hv) as (_ & Hsv & _).
  apply cleanPath_proper.
  - replace (String "/" (name +:+ String "/" (key +:+ String "/" value)))
      with (String "/" (name +:+ "/" +:+ key +:+ "/") +:+ value)
      by (repeat (rewrite ?append_assoc; cbn [String.append]); reflexivity).
    apply path_part_last, Hv.
  - rewrite split_slash_app by exact Hn.
    rewrite split_slash_app by exact Hsk.
    rewrite split_slash_no_slash by exact Hsv.
    constructor; [exact Hp|].
    constructor; [apply path_part_proper, Hk|].
    constructor; [apply path_part_proper, Hv|constructor].
Qed.

(** The paths of the calls are canonical. *)
Lemma cleanPath_call c :
  well_formed c -> cleanPath (URL_Path (request_of c)) = URL_Path (request_of c).
Proof.
  destruct c as [[] key|[] key value]; cbn [well_formed request_of].
  - apply (cleanPath_get "file"); [reflexivity|repeat split; discriminate].
  - apply (cleanPath_get "memory"); [reflexivity|repeat split; discriminate].
  - intros [Hk Hv].
    apply (cleanPath_post "file"); auto; repeat split; discriminate.
  - intros [Hk Hv].
    apply (cleanPath_post "memory"); auto; repeat split; discriminate.
Qed.

Ltac split_templates :=
  change (split_slash "/file/{key}") with ["";"file";"{key}"];
  change (split_slash "/memory/{key}") with ["";"memory";"{key}"];
  change (split_slash "/file/{key}/{value}") with ["";"file";"{key}";"{value}"];
  change (split_slash "/memory/{key}/{value}")
    with ["";"memory";"{key}";"{value}"].

Ltac match_routes :=
  cbn [match_parts variable_name String.eqb Ascii.eqb Bool.eqb String.length
       String.substring].

(** The router finds the route of a call. *)
Lemma Router_Match_call json_text c req :
  well_formed c ->
  Method req = Method (request_of c) ->
  URL_Path req = URL_Path (request_of c) ->
  exists route,
    Router_Match (routes json_text) req = Some (route, vars_of c)
    /\ Route_handler route = (captured_of c, handler_of json_text c).
Proof.
  intros Hc Hm Hp. unfold routes. cbn [Router_Match]. unfold Route_Match.
  rewrite Hm, Hp. clear Hm Hp. revert Hc.
  destruct c as [c key|c key value]; cbn [well_formed].
  - intros H. apply path_part_inv in H as (H1 & H2 & _).
    cbn [Route_template Route_methods].
    split_templates.
    destruct c; cbn [request_of GET URL_Path Method prefix_of].
    + change (split_slash ("/file/" +:+ key))
        with ("" :: split_slash ("file" +:+ String "/" key)).
      rewrite (split_slash_app "file") by reflexivity.
      rewrite split_slash_no_slash by exact H2.
      match_routes. rewrite H1. eexists. split; reflexivity.
    + change (split_slash ("/memory/" +:+ key))
        with ("" :: split_slash ("memory" +:+ String "/" key)).
      rewrite (split_slash_app "memory") by reflexivity.
      rewrite split_slash_no_slash by exact H2.
      match_routes. rewrite H1. eexists. split; reflexivity.
  - intros [Hk Hv]. apply path_part_inv in Hk as (Hk1 & Hk2 & _).
    apply path_part_inv in Hv as (Hv1 & Hv2 & _).
    cbn [Route_template Route_methods].
    split_templates.
    destruct c; cbn [request_of POST URL_Path Method prefix_of].
    + change (split_slash ("/file/" +:+ key +:+ "/" +:+ value))
        with ("" :: split_slash ("file" +:+ String "/" (key +:+ String "/" value))).
      rewrite (split_slash_app "file") by reflexivity.
      rewrite split_slash_app by exact Hk2.
      rewrite split_slash_no_slash by exact Hv2.
      match_routes. rewrite Hk1, Hv1. eexists. split; reflexivity.
    + change (split_slash ("/memory/" +:+ key +:+ "/" +:+ value))
        with ("" :: split_slash ("memory" +:+ String "/" (key +:+ String "/" value))).
      rewrite (split_slash_app "memory") by reflexivity.
      rewrite split_slash_app by exact Hk2.
      rewrite split_slash_no_slash by exact Hv2.
      match_routes. rewrite Hk1, Hv1. eexists. split; reflexivity.
Qed.

Lemma Router_Match_inv json_text req route vars :
  Router_Match (routes json_text) req = Some (route, vars) ->
  exists c,
    Method req = Method (request_of c)
    /\ URL_Path req = URL_Path (request_of c)
    /\ vars = vars_of c
    /\ Route_handler route = (captured_of c, handler_of json_text c)
    /\ match c with
       | call_get _ k => k <> "" /\ no_slash k = true
       | call_post _ k v =>
         (k <> "" /\ no_slash k = true) /\ v <> "" /\ no_slash v = true
       end.
Proof.
  unfold routes. cbn [Router_Match]. unfold Route_Match.
  cbn [Route_template Route_methods]. split_templates.
  pose proof (join_split (URL_Path req)) as Hj.
  pose proof (split_slash_parts (URL_Path req)) as Hp.
  destruct (split_slash (URL_Path req)) as [|p0 [|p1 [|p2 [|p3 [|p4 l]]]]];
    repeat (cbn [match_parts];
            change (variable_name "") with (@None string);
            change (variable_name "file") with (@None string);
            change (variable_name "memory") with (@None string);
            change (variable_name "{key}") with (Some "key");
            change (variable_name "{value}") with (Some "value");
            cbv iota);
    intros H;
    repeat match type of H with
    | context [String.eqb ?a ?b] => destruct (String.eqb_spec a b); subst
    | context [bool_decide ?P] => destruct (bool_decide_reflect P)
    end; try discriminate;
    repeat match goal with
    | H : _ ∈ [_] |- _ => apply list_elem_of_singleton in H
    end.
  all: injection H as <- <-.
  all: repeat match goal with H : Forall _ (_ :: _) |- _ =>
         inversion H; subst; clear H end.
  - exists (call_get captured_fileStorage p2).
    cbn [request_of GET Method URL_Path prefix_of captured_of handler_of
         vars_of].
    rewrite <- Hj. repeat split; (reflexivity || assumption).
  - exists (call_get captured_memStorage p2).
    cbn [request_of GET Method URL_Path prefix_of captured_of handler_of
         vars_of].
    rewrite <- Hj. repeat split; (reflexivity || assumption).
  - exists (call_post captured_fileStorage p2 p3).
    cbn [request_of POST Method URL_Path prefix_of captured_of handler_of
         vars_of].
    rewrite <- Hj. repeat split; (reflexivity || assumption).
  - exists (call_post captured_memStorage p2 p3).
    cbn [request_of POST Method URL_Path prefix_of captured_of handler_of
         vars_of].
    rewrite <- Hj. repeat split; (reflexivity || assumption).
Qed.

Lemma path_part_intro s :
  s <> "" -> no_slash s = true -> proper s -> path_part s = true.
Proof.
  intros H1 H2 (_ & H3 & H4). unfold path_part.
  apply String.eqb_neq in H1, H3, H4. rewrite H1, H2, H3, H4. reflexivity.
Qed.

(** A request that a route matches and whose path is canonical is the
    request of a call. *)
Lemma canonical_call c :
  match c with
  | call_get _ k => k <> "" /\ no_slash k = true
  | call_post _ k v =>
    (k <> "" /\ no_slash k = true) /\ v <> "" /\ no_slash v = true
  end ->
  cleanPath (URL_Path (request_of c)) = URL_Path (request_of c) ->
  well_formed c.
Proof.
  destruct c as [c k|c k v]; cbn [request_of GET POST URL_Path well_formed].
  - intros [Hk Hs] H.
    assert (exists name, no_slash name = true
              /\ prefix_of c +:+ k = String "/" (name +:+ String "/" k))
      as (name & Hn & E)
      by (destruct c; [exists "file"|exists "memory"]; split; reflexivity).
    rewrite E in H. apply cleanPath_proper in H.
    + rewrite split_slash_app, split_slash_no_slash in H by assumption.
      inversion H as [|? ? _ H']; subst. inversion H'; subst.
      apply path_part_intro; assumption.
    + replace (String "/" (name +:+ String "/" k))
        with (String "/" (name +:+ "/") +:+ k)
        by (cbn [String.append]; rewrite append_assoc; reflexivity).
      destruct k as [|a k]; [contradiction|]. rewrite last_byte_app.
      apply last_byte_no_slash, Hs.
  - intros [[Hk Hsk] [Hv Hsv]] H.
    assert (exists name, no_slash name = true
              /\ prefix_of c +:+ k +:+ "/" +:+ v
                 = String "/" (name +:+ String "/" (k +:+ String "/" v)))
      as (name & Hn & E)
      by (destruct c; [exists "file"|exists "memory"]; split; reflexivity).
    rewrite E in H. apply cleanPath_proper in H.
    + rewrite !split_slash_app, split_slash_no_slash in H by assumption.
      inversion H as [|? ? _ H']; subst. inversion H' as [|? ? ? H'']; subst.
      inversion H''; subst.
      split; apply path_part_intro; assumption.
    + replace (String "/" (name +:+ String "/" (k +:+ String "/" v)))
        with (String "/" (name +:+ "/" +:+ k +:+ "/") +:+ v)
        by (repeat (rewrite ?append_assoc; cbn [String.append]); reflexivity).
      destruct v as [|a v]; [contradiction|]. rewrite last_byte_app.
      apply last_byte_no_slash, Hsv.
Qed.

Lemma finishRequest_written s w rw c h :
  wroteHeader rw = Some (c, h) ->
  on_response finishRequest (s, w, rw) = (Returns tt, (s, w, rw)).
Proof.
  intros H. unfold on_response, zoom, finishRequest, mbind, Go_bind, get.
  cbn [fst snd]. rewrite H. reflexivity.
Qed.

Lemma set_store_same c s srv : store_of c srv = Some s -> set_store c s srv = srv.
Proof.
  destruct c, srv as [f m]; cbn [store_of set_store fileStorage memStorage].
  - intros ->. reflexivity.
  - intros [= ->]. reflexivity.
Qed.

Lemma not_star c : String.eqb (URL_Path (request_of c)) "*" = false.
Proof. destruct c as [[] ?|[] ? ?]; reflexivity. Qed.

(** The server on the request of a call. *)
Lemma serve_call json_text c req st :
  well_formed c ->
  Method req = Method (request_of c) ->
  URL_Path req = URL_Path (request_of c) ->
  serverHandler_ServeHTTP json_text req st = run_call json_text c st.
Proof.
  intros Hc Hm Hp. destruct st as [srv w].
  destruct (Router_Match_call json_text c req Hc Hm Hp) as (route & Hr & Hh).
  unfold serverHandler_ServeHTTP, Router_ServeHTTP.
  rewrite Hr. rewrite Hp, not_star, cleanPath_call, String.eqb_refl by exact Hc.
  cbn [andb negb]. unfold mbind at 1, Go_bind at 1.
  unfold call_handler, run_call. rewrite Hh. cbn [fst snd].
  fold (store_of (captured_of c) srv).
  destruct (store_of (captured_of c) srv) as [s|] eqn:Es; [|reflexivity].
  unfold mbind at 1, Go_bind at 1.
  destruct c as [cap key|cap key value]; cbn [handler_of captured_of] in *.
  - rewrite getHandler_run. cbn [Vars].
    assert (map_index (Some (vars_of (call_get cap key))) "key" = (key, true))
      as -> by reflexivity.
    cbn [fst].
    fold (set_store cap s srv).
    destruct (stored (Storage_map s) key) as [v|]; cbn [get_response];
      erewrite finishRequest_written by reflexivity;
      fold (set_store cap s srv); rewrite set_store_same by exact Es;
      reflexivity.
  - rewrite postHandler_run. cbn [Vars].
    assert (map_index (Some (vars_of (call_post cap key value))) "key"
            = (key, true)) as -> by reflexivity.
    assert (map_index (Some (vars_of (call_post cap key value))) "value"
            = (value, true)) as -> by reflexivity.
    cbn [fst]. cbv zeta.
    destruct (Storage_Set key value (s, w)) as [[[e|]|msg] [s' w']].
    + erewrite finishRequest_written by reflexivity. reflexivity.
    + erewrite finishRequest_written by reflexivity. reflexivity.
    + reflexivity.
Qed.

(** A request that is the request of no call runs no handler. *)
Lemma serve_other json_text req st :
  (forall c, well_formed c -> ~ is_request c req) ->
  exists r,
    serverHandler_ServeHTTP json_text req st = (Returns r, st)
    /\ (r = NotRouted \/ exists p, r = Redirected p).
Proof.
  intros Hno. unfold serverHandler_ServeHTTP, Router_ServeHTTP.
  destruct (String.eqb (URL_Path req) "*" && String.eqb (Method req) "OPTIONS");
    [eexists; split; [reflexivity|auto]|].
  destruct (String.eqb_spec (cleanPath (URL_Path req)) (URL_Path req))
    as [Hclean|_]; cbn [negb]; [|eexists; split; [reflexivity|eauto]].
  destruct (Router_Match (routes json_text) req) as [[route vars]|] eqn:E;
    [|eexists; split; [reflexivity|auto]].
  exfalso. apply Router_Match_inv in E as (c & Hm & Hp & _ & _ & Hparts).
  apply (Hno c); [|split; assumption].
  apply canonical_call; [exact Hparts|]. rewrite <- Hp. exact Hclean.
Qed.

Lemma is_request_dec req :
  (exists c, well_formed c /\ is_request c req)
  \/ (forall c, well_formed c -> ~ is_request c req).
Proof.
  pose (json_text := fun _ : error => "").
  destruct (String.eqb_spec (cleanPath (URL_Path req)) (URL_Path req))
    as [Hclean|Hclean].
  - destruct (Router_Match (routes json_text) req) as [[route vars]|] eqn:E.
    + left. apply Router_Match_inv in E as (c & Hm & Hp & _ & _ & Hparts).
      exists c. split; [|split; assumption].
      apply canonical_call; [exact Hparts|]. rewrite <- Hp. exact Hclean.
    + right. intros c Hc [Hm Hp].
      destruct (Router_Match_call json_text c req Hc Hm Hp) as (r & Hr & _).
      congruence.
  - right. intros c Hc [Hm Hp]. apply Hclean. rewrite Hp.
    apply cleanPath_call, Hc.
Qed.

(** ** The stores and the server over sequences of requests *)

(** Whatever [Set] returns, the map has the key with the value. *)
Lemma Storage_Set_returned key value s w r s' w' :
  Storage_Set key value (s, w) = (Returns r, (s', w')) ->
  exists g, Storage_map s = Some g
            /\ s' = Storage_with_map s (Some (<[key := value]> g)).
Proof.
  intros H. destruct (Storage_map s) as [g|] eqn:Hm.
  2:{ rewrite Storage_Set_nil in H by exact Hm. discriminate. }
  exists g. split; [reflexivity|].
  destruct s as [[m]|fs]; simpl in Hm.
  - subst m. injection H as _ <- _. reflexivity.
  - cbn [Storage_Set] in H. rewrite (FileStorage_Set_run _ _ _ _ g Hm) in H.
    destruct (faults w) as [|[ft1|] [|[ft2|] [|[ft3|] rest]]];
      simpl in H; injection H as _ <- _; reflexivity.
Qed.

(** [Set] of a memory store does not call the operating system. *)
Lemma Storage_Set_mem key value ms w :
  exists r ms', Storage_Set key value (Storage_Mem ms, w)
                = (r, (Storage_Mem ms', w)).
Proof.
  cbn [Storage_Set]. destruct (MemStorage_Set key value ms) as [r ms'].
  eauto.
Qed.

(** [Set] of a file store leaves a file store on the same file. *)
Lemma Storage_Set_file key value fs w :
  exists r fs' w', Storage_Set key value (Storage_File fs, w)
                   = (r, (Storage_File fs', w'))
                   /\ FileStorage_f fs' = FileStorage_f fs.
Proof.
  cbn [Storage_Set].
  destruct (MemStorage_m (FileStorage_ms fs)) as [g|] eqn:Hm.
  - rewrite (FileStorage_Set_run _ _ _ _ g Hm).
    destruct (faults w) as [|[ft1|] [|[ft2|] [|[ft3|] rest]]]; simpl;
      eexists _, _, _; split; reflexivity.
  - rewrite FileStorage_Set_nil by exact Hm. eexists _, _, _.
    split; reflexivity.
Qed.

Lemma serve_cons r rs st : serve (r :: rs) st = serve rs (serve1 r st).
Proof. reflexivity. Qed.

Lemma serve_file rs : forall fs w,
  exists fs' w', serve rs (Storage_File fs, w) = (Storage_File fs', w')
                 /\ FileStorage_f fs' = FileStorage_f fs.
Proof.
  induction rs as [|r rs IH]; intros fs w; [eauto|].
  rewrite serve_cons. destruct r as [k|k v]; unfold serve1.
  - rewrite Storage_Get_spec. apply IH.
  - destruct (Storage_Set_file k v fs w) as (r & fs1 & w1 & -> & Hf).
    cbn [snd]. destruct (IH fs1 w1) as (fs' & w' & -> & Hf').
    eexists _, _. split; [reflexivity|congruence].
Qed.

(** The map of a memory store after requests, and the world. *)
Lemma serve_replay rs : forall g w,
  serve rs (Storage_Mem {| MemStorage_m := Some g |}, w)
  = (Storage_Mem {| MemStorage_m := Some (replay rs g) |}, w).
Proof.
  induction rs as [|r rs IH]; intros g w; [reflexivity|].
  rewrite serve_cons. destruct r as [k|k v]; unfold serve1.
  - rewrite Storage_Get_spec. apply IH.
  - apply IH.
Qed.

(** The construction of a file store changes the content of no file, and
    calls the operating system to open and to read its file only. *)
Lemma NewFileStorage_world name w :
  let w' := (NewFileStorage name w).2 in
  (forall n, contents w' n = contents w n)
  /\ (trace w' = sys_OpenFile name :: trace w
      \/ trace w' = sys_Reads name :: sys_OpenFile name :: trace w).
Proof.
  destruct w as [fl fts tr].
  unfold NewFileStorage, os_OpenFile, Decoder_Decode, File_stream, sys,
    mbind, Go_bind, mret, Go_ret, get, put, contents, set_contents.
  simpl. destruct (mjoin (head fts)); simpl; [auto|].
  destruct (fl !! name) as [c|] eqn:Ef; simpl;
    destruct (mjoin (head (tail fts))) as [ft|]; simpl;
    repeat match goal with
    | |- context [Decode ?a ?b ?c] => destruct (Decode a b c) as [m [[]|]]
    end; simpl; (split; [|auto]); intros n; try reflexivity;
    (destruct (decide (name = n)) as [<-|Hne];
     [rewrite lookup_insert_eq, Ef; reflexivity
     |rewrite lookup_insert_ne by exact Hne; reflexivity]).
Qed.

(** What the server does with a request: the call of the request, or
    nothing. *)
Lemma serve_cases json_text req st :
  (exists c, well_formed c /\ is_request c req
             /\ serverHandler_ServeHTTP json_text req st
                = run_call json_text c st)
  \/ ((forall c, well_formed c -> ~ is_request c req)
      /\ exists r,
           serverHandler_ServeHTTP json_text req st = (Returns r, st)
           /\ (r = NotRouted \/ exists p, r = Redirected p)).
Proof.
  destruct (is_request_dec req) as [(c & Hc & Hr)|Hno].
  - left. exists c. split; [exact Hc|]. split; [exact Hr|].
    destruct Hr as [Hm Hp]. apply serve_call; assumption.
  - right. split; [exact Hno|]. apply serve_other, Hno.
Qed.

(** A request is the request of one call at most. *)
Lemma is_request_inj c c' req :
  well_formed c -> well_formed c' ->
  is_request c req -> is_request c' req -> c = c'.
Proof.
  intros Hc Hc' [Hm Hp] [Hm' Hp']. rewrite Hm in Hm'. rewrite Hp in Hp'.
  pose (json_text := fun _ : error => "").
  destruct (Router_Match_call json_text c (request_of c) Hc eq_refl eq_refl)
    as (r1 & H1 & Hh1).
  destruct (Router_Match_call json_text c' (request_of c) Hc'
              Hm' Hp') as (r2 & H2 & Hh2).
  rewrite H1 in H2. injection H2 as <- Hv. rewrite Hh1 in Hh2.
  injection Hh2 as Hcap _.
  destruct c as [cap k|cap k v], c' as [cap' k'|cap' k' v'];
    cbn [captured_of vars_of request_of GET POST Method] in *;
    try discriminate Hm'; subst cap'.
  - f_equal. apply (f_equal (fun m => m !! "key")) in Hv.
    rewrite !lookup_singleton_eq in Hv. congruence.
  - pose proof (f_equal (fun m => m !! "key") Hv) as Hk.
    pose proof (f_equal (fun m => m !! "value") Hv) as Hv'.
    cbn beta in Hk, Hv'.
    rewrite !lookup_insert_ne, !lookup_singleton_eq in Hk by discriminate.
    rewrite !lookup_insert_eq in Hv'. congruence.
Qed.

Lemma wired_set_file srv fs :
  wired srv -> File_name (FileStorage_f fs) = "somefile.json" ->
  wired (set_store captured_fileStorage (Storage_File fs) srv).
Proof.
  intros [_ Hm] Hf. split; [|exact Hm]. exists fs. split; [reflexivity|exact Hf].
Qed.

Lemma wired_set_mem srv ms :
  wired srv -> wired (set_store captured_memStorage (Storage_Mem ms) srv).
Proof.
  intros [Hf _]. split; [exact Hf|]. exists ms. reflexivity.
Qed.

(** What a call leaves as it was. *)
Lemma run_call_frame json_text c srv w r srv' w' :
  wired srv ->
  run_call json_text c (srv, w) = (r, (srv', w')) ->
  wired srv'
  /\ ((forall k v, c <> call_post captured_memStorage k v) ->
      memStorage srv' = memStorage srv)
  /\ ((forall k v, c <> call_post captured_fileStorage k v) ->
      fileStorage srv' = fileStorage srv /\ w' = w).
Proof.
  intros Hw. pose proof Hw as [(fs & Hfs & Hname) (ms & Hms)].
  unfold run_call.
  destruct c as [cap k|cap k v]; cbn [captured_of].
  - destruct (store_of cap srv); intros [= <- <- <-]; auto.
  - destruct cap; cbn [store_of].
    + rewrite Hfs.
      destruct (Storage_Set_file k v fs w) as (r0 & fs' & w0 & -> & Hf').
      intros H.
      assert (srv' = set_store captured_fileStorage (Storage_File fs') srv)
        as -> by (destruct r0 as [[e|]|msg]; injection H as _ <- _; reflexivity).
      split; [apply wired_set_file; [exact Hw|congruence]|].
      split; [reflexivity|]. intros Hne. exfalso. exact (Hne k v eq_refl).
    + rewrite Hms.
      destruct (Storage_Set_mem k v ms w) as (r0 & ms' & ->). intros H.
      assert (srv' = set_store captured_memStorage (Storage_Mem ms') srv
              /\ w' = w) as [-> ->]
        by (destruct r0 as [[e|]|msg]; injection H as _ <- <-; auto).
      split; [apply wired_set_mem, Hw|].
      split; [intros Hne; exfalso; exact (Hne k v eq_refl)|]. auto.
Qed.

Lemma serve_wired json_text req srv w r srv' w' :
  wired srv ->
  serverHandler_ServeHTTP json_text req (srv, w) = (r, (srv', w')) ->
  wired srv'.
Proof.
  intros Hw H.
  destruct (serve_cases json_text req (srv, w))
    as [(c & _ & _ & E)|(_ & r0 & E & _)]; rewrite E in H.
  - eapply run_call_frame; eassumption.
  - injection H as _ <- _. exact Hw.
Qed.

Lemma ListenAndServe_cons json_text req reqs st :
  ListenAndServe json_text (req :: reqs) st
  = let '(r, st') := serverHandler_ServeHTTP json_text req st in
    let '(rs, st'') := ListenAndServe json_text reqs st' in
    (r :: rs, st'').
Proof. reflexivity. Qed.

Lemma ListenAndServe_app json_text reqs1 : forall reqs2 st,
  ListenAndServe json_text (reqs1 ++ reqs2) st
  = let '(rs1, st1) := ListenAndServe json_text reqs1 st in
    let '(rs2, st2) := ListenAndServe json_text reqs2 st1 in
    ((rs1 ++ rs2)%list, st2).
Proof.
  induction reqs1 as [|req reqs1 IH]; intros reqs2 st.
  - cbn [app ListenAndServe].
    destruct (ListenAndServe json_text reqs2 st). reflexivity.
  - cbn [app]. rewrite !ListenAndServe_cons.
    destruct (serverHandler_ServeHTTP json_text req st) as [r st'].
    rewrite IH. destruct (ListenAndServe json_text reqs1 st') as [rs1 st1].
    destruct (ListenAndServe json_text reqs2 st1) as [rs2 st2]. reflexivity.
Qed.

(** What [main] returns. *)
Lemma main_run json_text w :
  main json_text w
  = match NewFileStorage "somefile.json" w with
    | (Returns (_, Some e), w') =>
      (Returns (Fatal ("unable to create file storage: "
                       +:+ Error json_text e)), w')
    | (Returns (s, None), w') =>
      (Returns (Serving {| fileStorage := s; memStorage := NewMemStorage |}),
       w')
    | (Panics msg, w') => (Panics msg, w')
    end.
Proof.
  unfold main, mbind, Go_bind.
  destruct (NewFileStorage "somefile.json" w) as [[[s [e|]]|msg] w'];
    reflexivity.
Qed.

Lemma main_serving json_text w srv w' :
  main json_text w = (Returns (Serving srv), w') ->
  exists m,
    NewFileStorage "somefile.json" w
    = (Returns (Some (Storage_File (file_store "somefile.json" m)), None), w')
    /\ valid_map m
    /\ srv = {| fileStorage := Some (Storage_File
                                      (file_store "somefile.json" m));
                memStorage := NewMemStorage |}.
Proof.
  rewrite main_run.
  destruct (NewFileStorage_returns "somefile.json" w)
    as [(s & w1 & E)|(e & w1 & E)]; rewrite E; [|discriminate].
  intros [= <- <-]. pose proof E as Hok.
  apply NewFileStorage_ok in Hok as (m & -> & Hm). eauto.
Qed.

Lemma main_wired json_text w srv w' :
  main json_text w = (Returns (Serving srv), w') -> wired srv.
Proof.
  intros H. apply main_serving in H as (m & _ & _ & ->).
  split; [exists (file_store "somefile.json" m)|eexists];
    repeat split; reflexivity.
Qed.

Lemma FileStorage_Set_fail_at fs w g key value st ft rest :
  MemStorage_m (FileStorage_ms fs) = Some g ->
  faults w = (fail_at st ft ++ rest)%list ->
  FileStorage_Set key value (fs, w)
  = (Returns (Some (wrapError (step_text st) (os_Error (fault_text ft)))),
     (with_map fs (Some (<[key := value]> g)),
      {| files := files_left st ft (File_name (FileStorage_f fs))
                    (Encode_bytes (Some (<[key := value]> g))) (files w);
         faults := rest;
         trace := calls_to st (File_name (FileStorage_f fs))
                    (Encode_bytes (Some (<[key := value]> g))) ++ trace w |})).
Proof.
  intros Hg Hf. rewrite (FileStorage_Set_run fs w key value g Hg), Hf.
  destruct st; reflexivity.
Qed.

(** The other keys of a store after a request that is not a [POST] of the
    key on that store. *)
Lemma serve_keeps_key json_text cap key req srv w r srv' w' s :
  wired srv ->
  (forall value, well_formed (call_post cap key value) ->
                 ~ is_request (call_post cap key value) req) ->
  serverHandler_ServeHTTP json_text req (srv, w) = (r, (srv', w')) ->
  store_of cap srv = Some s ->
  exists s', store_of cap srv' = Some s'
             /\ stored (Storage_map s') key = stored (Storage_map s) key.
Proof.
  intros Hw Hno H Hs.
  destruct (serve_cases json_text req (srv, w))
    as [(c & Hc & Hr & E)|(_ & r0 & E & _)]; rewrite E in H.
  2:{ injection H as _ <- _. eauto. }
  unfold run_call in H. destruct c as [cap' k|cap' k v]; cbn [captured_of] in H.
  { destruct (store_of cap' srv); injection H as _ <- _; eauto. }
  destruct (store_of cap' srv) as [s0|] eqn:Es0;
    [|injection H as _ <- _; eauto].
  pose proof (Storage_Set_other k v s0 w key) as Ho.
  destruct (Storage_Set k v (s0, w)) as [r0 [s1 w1]]. cbn [snd fst] in Ho.
  assert (srv' = set_store cap' s1 srv) as ->
    by (destruct r0 as [[e|]|msg]; injection H as _ <- _; reflexivity).
  destruct cap, cap'; cbn [store_of set_store fileStorage memStorage] in *.
  - rewrite Hs in Es0. injection Es0 as <-. eexists. split; [reflexivity|].
    apply Ho. intros ->. apply (Hno v); assumption.
  - eauto.
  - injection Hs as <-. eauto.
  - injection Hs as <-. injection Es0 as <-. eexists. split; [reflexivity|].
    apply Ho. intros ->. apply (Hno v); assumption.
Qed.

Lemma ListenAndServe_keeps_key json_text cap key reqs :
  forall srv w rs srv' w' s,
  wired srv ->
  Forall (fun req => forall value,
            well_formed (call_post cap key value) ->
            ~ is_request (call_post cap key value) req) reqs ->
  ListenAndServe json_text reqs (srv, w) = (rs, (srv', w')) ->
  store_of cap srv = Some s ->
  wired srv'
  /\ exists s', store_of cap srv' = Some s'
                /\ stored (Storage_map s') key = stored (Storage_map s) key.
Proof.
  induction reqs as [|req reqs IH]; intros srv w rs srv' w' s Hw Hno H Hs.
  { injection H as _ <- _. eauto. }
  inversion Hno as [|? ? Hreq Hreqs]; subst.
  rewrite ListenAndServe_cons in H.
  destruct (serverHandler_ServeHTTP json_text req (srv, w))
    as [r [srv1 w1]] eqn:E.
  destruct (ListenAndServe json_text reqs (srv1, w1)) as [rs' [srv2 w2]] eqn:E2.
  injection H as _ <- <-.
  destruct (serve_keeps_key _ _ _ _ _ _ _ _ _ _ Hw Hreq E Hs)
    as (s1 & Hs1 & Hk1).
  destruct (IH _ _ _ _ _ _ (serve_wired _ _ _ _ _ _ _ Hw E) Hreqs E2 Hs1)
    as (Hw2 & s2 & Hs2 & Hk2).
  split; [exact Hw2|]. exists s2. split; [exact Hs2|congruence].
Qed.

(** Requests that are no [POST] on the file store leave it and the
    operating system as they were. *)
Lemma ListenAndServe_keeps_file json_text reqs :
  forall srv w rs srv' w',
  wired srv ->
  Forall (fun req => ~ posts_to captured_fileStorage req) reqs ->
  ListenAndServe json_text reqs (srv, w) = (rs, (srv', w')) ->
  wired srv' /\ fileStorage srv' = fileStorage srv /\ w' = w.
Proof.
  induction reqs as [|req reqs IH]; intros srv w rs srv' w' Hw Hno H.
  { injection H as _ <- <-. auto. }
  inversion Hno as [|? ? Hreq Hreqs]; subst.
  rewrite ListenAndServe_cons in H.
  destruct (serverHandler_ServeHTTP json_text req (srv, w))
    as [r [srv1 w1]] eqn:E.
  destruct (ListenAndServe json_text reqs (srv1, w1)) as [rs' [srv2 w2]] eqn:E2.
  injection H as _ <- <-.
  assert (wired srv1 /\ fileStorage srv1 = fileStorage srv /\ w1 = w)
    as (Hw1 & Hf1 & ->).
  { destruct (serve_cases json_text req (srv, w))
      as [(c & Hc & Hr & Ec)|(_ & r0 & Ec & _)]; rewrite Ec in E.
    - destruct (run_call_frame _ _ _ _ _ _ _ Hw E) as (Hw1 & _ & Hf).
      split; [exact Hw1|]. apply Hf. intros k v ->. apply Hreq.
      exists k, v. auto.
    - injection E as _ <- <-. auto. }
  destruct (IH _ _ _ _ _ Hw1 Hreqs E2) as (Hw2 & Hf2 & ->).
  split; [exact Hw2|]. split; [congruence|reflexivity].
Qed.

(** The error of a construction that failed. *)
Lemma NewFileStorage_error name w e w' :
  NewFileStorage name w = (Returns (None, Some e), w') ->
  (exists text, e = wrapError ("unable to open file " +:+ name +:+ ": ")
                              (os_Error text))
  \/ (exists e', e = wrapError ("unable to decode contents of file "
                                 +:+ name +:+ ": ") e'
                  /\ e' <> io_EOF).
Proof.
  destruct w as [fl fts tr].
  unfold NewFileStorage, os_OpenFile, Decoder_Decode, File_stream, sys,
    mbind, Go_bind, mret, Go_ret, get, put, contents, set_contents.
  simpl. destruct (mjoin (head fts)); simpl; [intros [= <- _]; eauto|].
  destruct (fl !! name) as [c|] eqn:Ef; simpl;
    destruct (mjoin (head (tail fts))) as [ft|]; simpl;
    repeat match goal with
    | |- context [Decode ?a ?b ?c] => destruct (Decode a b c) as [m [[]|]]
    end; simpl; intros H; try discriminate H; injection H as <- _;
    right; eexists; (split; [reflexivity|discriminate]).
Qed.

Lemma store_of_set_store cap s srv : store_of cap (set_store cap s srv) = Some s.
Proof. destruct cap; reflexivity. Qed.

Lemma wired_store_of cap srv : wired srv -> exists s, store_of cap srv = Some s.
Proof.
  intros [(fs & Hf & _) _]. destruct cap; cbn [store_of]; eauto.
Qed.

Lemma serve_mem_ok json_text req srv w r srv' w' g :
  memStorage srv = Storage_Mem {| MemStorage_m := Some g |} ->
  serverHandler_ServeHTTP json_text req (srv, w) = (r, (srv', w')) ->
  exists g', memStorage srv' = Storage_Mem {| MemStorage_m := Some g' |}.
Proof.
  intros Hm H.
  destruct (serve_cases json_text req (srv, w))
    as [(c & Hc & Hr & E)|(_ & r0 & E & _)]; rewrite E in H.
  2:{ injection H as _ <- _. eauto. }
  unfold run_call in H. destruct c as [cap k|cap k v]; cbn [captured_of] in H.
  { destruct (store_of cap srv); injection H as _ <- _; eauto. }
  destruct (store_of cap srv) as [s|] eqn:Es; [|injection H as _ <- _; eauto].
  destruct cap; cbn [store_of] in Es.
  - destruct (Storage_Set k v (s, w)) as [[[e|]|msg] [s1 w1]];
      injection H as _ <- _; cbn [set_store memStorage]; eauto.
  - injection Es as <-. rewrite Hm in H. cbn in H.
    injection H as _ <- _. cbn [set_store memStorage]. eauto.
Qed.

Lemma ListenAndServe_mem_ok json_text reqs : forall srv w rs srv' w' g,
  memStorage srv = Storage_Mem {| MemStorage_m := Some g |} ->
  ListenAndServe json_text reqs (srv, w) = (rs, (srv', w')) ->
  exists g', memStorage srv' = Storage_Mem {| MemStorage_m := Some g' |}.
Proof.
  induction reqs as [|req reqs IH]; intros srv w rs srv' w' g Hm H.
  { injection H as _ <- _. eauto. }
  rewrite ListenAndServe_cons in H.
  destruct (serverHandler_ServeHTTP json_text req (srv, w))
    as [r [srv1 w1]] eqn:E.
  destruct (ListenAndServe json_text reqs (srv1, w1)) as [rs' [srv2 w2]] eqn:E2.
  injection H as _ <- <-.
  destruct (serve_mem_ok _ _ _ _ _ _ _ _ Hm E) as (g1 & Hm1).
  exact (IH _ _ _ _ _ _ Hm1 E2).
Qed.

Lemma substring_length n : forall s,
  (n <= String.length s)%nat -> String.length (String.substring 0 n s) = n.
Proof.
  induction n as [|n IH]; intros s H; [destruct s; reflexivity|].
  destruct s as [|c s]; [simpl in H; lia|].
  cbn [String.substring String.length] in *. rewrite IH by lia. reflexivity.
Qed.

(** The beginning of the encoding of a map, cut before its closing brace,
    is not readable. *)
Lemma Encode_bytes_prefix g n :
  (0 < n)%nat -> (n + 1 < String.length (Encode_bytes (Some g)))%nat ->
  ~ readable (String.substring 0 n (Encode_bytes (Some g))).
Proof.
  intros Hn Hlen Hr.
  destruct (substring_prefix n (Encode_bytes (Some g))) as (x & Hx).
  assert (2 <= String.length x)%nat as Hxl.
  { apply (f_equal String.length) in Hx. rewrite length_append in Hx.
    rewrite substring_length in Hx by lia. lia. }
  set (p := String.substring 0 n (Encode_bytes (Some g))) in *.
  assert (exists t, p = String "{" t) as (t & Hpt).
  { unfold p, Encode_bytes, mapEncoder. destruct n; [lia|].
    cbn [String.append String.substring]. eauto. }
  destruct Hr as [Hb|(ws & rest & Hws & [Hnull|(o & Ho & Hobj)])].
  { unfold blank in Hb. rewrite Hpt in Hb. discriminate Hb. }
  { rewrite Hpt in Hnull. symmetry in Hnull.
    apply blank_head in Hnull as [-> Hnull]; [|exact Hws|reflexivity].
    discriminate Hnull. }
  pose proof Ho as Hinv. apply object_text_inv in Hinv as (t' & -> & _).
  rewrite Hpt in Hobj. symmetry in Hobj.
  apply blank_head in Hobj as [-> Hobj]; [|exact Hws|reflexivity].
  rewrite Hpt, <- Hobj in Hx. clear Hobj Hpt.
  unfold Encode_bytes, mapEncoder in Hx.
  destruct (sorted_entries g) as [|kv l].
  { (* the encoding is [{}] and a newline *)
    assert (2 <= String.length (String "{" t'))%nat as Ho2.
    { destruct Ho as [(ws1 & _ & ->)|(ms & _ & ->)];
        cbn [String.append String.length]; rewrite length_append;
        cbn [String.length]; lia. }
    apply (f_equal String.length) in Hx. rewrite !length_append in Hx.
    cbn [encode_entries String.append String.length str1] in Hx, Ho2. lia. }
  set (x0 := encode_entries false l +:+ String "}" (str1 newline)) in *.
  assert ((("{" +:+ encode_entries true (kv :: l) +:+ "}") +:+ str1 newline)
          = String "{" (encode_entry kv +:+ x0)) as E.
  { unfold x0. cbn [encode_entries String.append]. rewrite !append_assoc.
    reflexivity. }
  rewrite E in Hx. clear E.
  change ((String "{" t' +:+ rest) +:+ x)
    with (String "{" ((t' +:+ rest) +:+ x)) in Hx.
  assert (encode_entry kv +:+ x0 = (t' +:+ rest) +:+ x) as Hx'
    by (injection Hx as Hx; exact Hx).
  clear Hx. rename Hx' into Hx. rewrite append_assoc in Hx.
  destruct Ho as [(ws1 & Hws1 & Ho)|(ms & Hms & Ho)].
  - injection Ho as ->.
    destruct (skipSpace_entry kv x0) as (t1 & Ht & _). rewrite Ht in Hx.
    rewrite append_assoc in Hx. symmetry in Hx.
    apply blank_head in Hx as [-> Hx]; [|exact Hws1|reflexivity].
    discriminate Hx.
  - injection Ho as ->.
    rewrite append_assoc in Hx. cbn [String.append] in Hx.
    destruct (object_members_text ms Hms) as (f & Hf).
    set (fuel := (String.length ms + length l + 2)%nat).
    pose proof (object_members_entries l kv ∅ false fuel (str1 newline)) as H1.
    fold x0 in H1. rewrite Hx in H1.
    rewrite Hf in H1 by (unfold fuel; lia).
    assert (rest +:+ x = str1 newline) as Hrx.
    { assert (length l + 1 < fuel)%nat as Hfu by (unfold fuel; lia).
      specialize (H1 Hfu). injection H1 as _ H1. exact H1. }
    apply (f_equal String.length) in Hrx. rewrite length_append in Hrx.
    cbn in Hrx. lia.
Qed.

(** The construction on a file that is not readable. *)
Lemma NewFileStorage_unreadable name w :
  calm 2 w -> ~ readable (contents w name) ->
  exists e,
    e <> io_EOF
    /\ NewFileStorage name w
       = (Returns (None,
                   Some (wrapError ("unable to decode contents of file "
                                    +:+ name +:+ ": ") e)),
          opened name w).
Proof.
  intros Hc Hn. rewrite (NewFileStorage_calm name w Hc). unfold decoded_store.
  destruct (Decode (contents w name) io_EOF make_map) as [m e] eqn:E.
  cbn [fst snd].
  assert (e <> None /\ e <> Some io_EOF) as [H1 H2].
  { split; intros ->; apply Hn; eapply Decode_sound; eauto. }
  destruct e as [e|]; [|contradiction]. exists e.
  split; [congruence|]. destruct e; try reflexivity. contradiction.
Qed.

(** ** Further properties of the stores, the handlers and the server *)

(** X4. A file store is constructed at [P] and serves any requests,
    whatever they return; then a [Set] succeeds. Every file store that is
    constructed at [P] after that, whatever faults its construction meets,
    holds the whole map of the first store with its keys and values coerced
    to valid UTF-8, so the map itself when they are valid UTF-8; and the
    construction gives a store when the file is opened and read without a
    fault. *)
Theorem X4_reopen_recovers_whole_map (P : string) (w0 w1 : World)
    (s1 : Storage) (rs : list request) (key value : string)
    (s' : Storage) (w' : World) :
  NewFileStorage P w0 = (Returns (Some s1, None), w1) ->
  Storage_Set key value (serve rs (s1, w1)) = (Returns None, (s', w')) ->
  (forall s2 w3,
     NewFileStorage P w' = (Returns (Some s2, None), w3) ->
     Storage_map s2 = recode (Storage_map s')
     /\ (valid_map (Storage_map s') -> Storage_map s2 = Storage_map s'))
  /\ (calm 2 w' ->
      exists s2 w3, NewFileStorage P w' = (Returns (Some s2, None), w3)).
Proof.
  intros H1 H2. apply NewFileStorage_ok in H1 as (m & -> & _).
  destruct (serve_file rs (file_store P m) w1) as (fs & w & Hs & Hf).
  rewrite Hs in H2. cbn [Storage_Set] in H2.
  destruct (FileStorage_Set key value (fs, w)) as [r [fs' w'']] eqn:E.
  injection H2 as -> <- ->.
  apply FileStorage_Set_ok in E as (g & Hg & -> & Hfiles).
  rewrite Hf in Hfiles. cbn [file_store FileStorage_f File_name] in Hfiles.
  assert (Decode (contents w' P) io_EOF make_map
          = (recode (Some (<[key := value]> g)), None)) as Hd.
  { unfold contents. rewrite Hfiles, lookup_insert_eq. cbn [default].
    apply Decode_Encode_bytes. }
  cbn [Storage_map with_map FileStorage_ms MemStorage_m]. split.
  - intros s2 w3 H3. apply NewFileStorage_reads in H3 as (m2 & e & Hr & _ & ->).
    rewrite Hd in Hr. injection Hr as <- _.
    cbn [Storage_map file_store FileStorage_ms MemStorage_m].
    split; [reflexivity|]. apply recode_valid.
  - intros Hcalm. rewrite (NewFileStorage_calm P w' Hcalm), Hd.
    eexists _, _. reflexivity.
Qed.

(** X4 on a file with an entry: after a [Get], a [Set] of another key and
    a [Set] of a third one, a store constructed from the file has the three
    entries. *)
Lemma X4_reopen_recovers_whole_map_witness :
  let P := "somefile.json" in
  let w0 := one_file P (sq "{'a':'1'}") in
  let s1 := Storage_File (file_store P (Some {["a" := "1"]})) in
  let w1 := opened P w0 in
  let rs := [req_Get "a"; req_Set "b" "2"] in
  let m := Some {["a" := "1"; "b" := "2"; "c" := "3"]} in
  let s' := Storage_File (file_store P m) in
  let w' := (Storage_Set "c" "3" (serve rs (s1, w1))).2.2 in
  NewFileStorage P w0 = (Returns (Some s1, None), w1)
  /\ Storage_Set "c" "3" (serve rs (s1, w1)) = (Returns None, (s', w'))
  /\ exists s2 w3,
       NewFileStorage P w' = (Returns (Some s2, None), w3)
       /\ Storage_map s2 = m.
Proof.
  intros P w0 s1 w1 rs m s' w'.
  assert (NewFileStorage P w0 = (Returns (Some s1, None), w1)) as H1
    by (vm_compute; reflexivity).
  assert (Storage_Set "c" "3" (serve rs (s1, w1)) = (Returns None, (s', w')))
    as H2 by (vm_compute; reflexivity).
  split; [exact H1|]. split; [exact H2|].
  destruct (X4_reopen_recovers_whole_map P w0 w1 s1 rs "c" "3" s' w' H1 H2)
    as (Hmap & Hnew).
  destruct Hnew as (s2 & w3 & H3); [constructor|].
  exists s2, w3. split; [exact H3|].
  destruct (Hmap s2 w3 H3) as (_ & Hv). apply Hv.
  change (valid_map (Some (<["a" := "1"]> (<["b" := "2"]>
                                           (<["c" := "3"]> ∅))))).
  repeat (apply valid_map_insert; [|reflexivity..]).
  intros k v Hl. rewrite lookup_empty in Hl. discriminate.
Defined.

(** X5. The construction of a file store changes the content of no file
    (a file that does not exist is created empty) and leaves every other
    file as it is; whatever faults its calls meet, the calls it adds to the
    trace are the opening of its file, first, and reads of that file: it
    never truncates, seeks or writes. *)
Theorem X5_construction_never_writes (name : string) (w : World) :
  let w' := (NewFileStorage name w).2 in
  (forall n, contents w' n = contents w n)
  /\ (forall n, n <> name -> files w' !! n = files w !! n)
  /\ exists calls, trace w' = (calls ++ trace w)%list
       /\ last calls = Some (sys_OpenFile name)
       /\ Forall (fun c => c = sys_OpenFile name \/ c = sys_Reads name) calls.
Proof.
  intros w'.
  assert ((forall n, contents w' n = contents w n)
          /\ (forall n, n <> name -> files w' !! n = files w !! n)
          /\ (trace w' = sys_OpenFile name :: trace w
              \/ trace w' = sys_Reads name :: sys_OpenFile name :: trace w))
    as (H1 & H2 & H3).
  { subst w'. destruct w as [fl fts tr].
    unfold NewFileStorage, os_OpenFile, Decoder_Decode, File_stream, sys,
      mbind, Go_bind, mret, Go_ret, get, put, contents, set_contents.
    simpl. destruct (mjoin (head fts)); simpl; [auto|].
    destruct (fl !! name) as [c|] eqn:Ef; simpl;
      destruct (mjoin (head (tail fts))) as [ft|]; simpl;
      repeat match goal with
      | |- context [Decode ?a ?b ?c] => destruct (Decode a b c) as [m [[]|]]
      end; simpl; (split; [|split; [|auto]]); intros n; try reflexivity;
      try (intros Hne; rewrite lookup_insert_ne by congruence; reflexivity);
      (destruct (decide (name = n)) as [<-|Hne];
       [rewrite lookup_insert_eq, Ef; reflexivity
       |rewrite lookup_insert_ne by exact Hne; reflexivity]). }
  split; [exact H1|]. split; [exact H2|].
  destruct H3 as [H3|H3]; rewrite H3;
    [exists [sys_OpenFile name]|exists [sys_Reads name; sys_OpenFile name]];
    (split; [reflexivity|]); (split; [reflexivity|]);
    repeat (apply List.Forall_cons; [auto|]); apply List.Forall_nil.
Qed.

(** X6. When [Set] of a file store fails at the seek, the file is empty
    afterwards, the truncation being done: the store in memory has the new
    entry and all the entries it had, and a store constructed from the file
    after that, the file being opened and read without a fault, has none. *)
Theorem X6_failed_seek_empties_file (fs : FileStorage) (w : World)
    (g : gmap string string) (key value : string) (ft : fault)
    (rest : list (option fault)) :
  MemStorage_m (FileStorage_ms fs) = Some g ->
  faults w = None :: Some ft :: None :: None :: rest ->
  let name := File_name (FileStorage_f fs) in
  exists err w',
    FileStorage_Set key value (fs, w)
    = (Returns (Some err), (with_map fs (Some (<[key := value]> g)), w'))
    /\ contents w' name = ""
    /\ NewFileStorage name w'
       = (Returns (Some (Storage_File (file_store name (Some ∅))), None),
          opened name w').
Proof.
  intros Hg Hf name. rewrite (FileStorage_Set_run _ _ _ _ g Hg), Hf.
  cbn [tail]. eexists _, _. split; [reflexivity|].
  assert (forall w', files w' = <[name := ""]> (files w) ->
                     contents w' name = "") as Hc.
  { intros w' Hw. unfold contents. rewrite Hw, lookup_insert_eq. reflexivity. }
  split; [apply Hc; reflexivity|].
  rewrite NewFileStorage_calm by (repeat constructor).
  rewrite Hc by reflexivity. reflexivity.
Qed.

(** X6 on a store with an entry, persisted in its file. *)
Lemma X6_failed_seek_empties_file_witness :
  let name := "somefile.json" in
  let g : gmap string string := {["a" := "1"]} in
  let fs := file_store name (Some g) in
  let ft := {| fault_text := "seek: illegal seek"; fault_count := 0 |} in
  let w := {| files := {[name := sq "{'a':'1'}"]};
              faults := [None; Some ft; None; None];
              trace := [] |} in
  exists err w',
    FileStorage_Set "b" "2" (fs, w)
    = (Returns (Some err), (with_map fs (Some (<["b" := "2"]> g)), w'))
    /\ contents w' name = ""
    /\ NewFileStorage name w'
       = (Returns (Some (Storage_File (file_store name (Some ∅))), None),
          opened name w').
Proof.
  intros name g fs ft w.
  exact (X6_failed_seek_empties_file fs w g "b" "2" ft [] eq_refl eq_refl).
Defined.

(** X7. The entry of a [Set] that failed reaches the file with the next
    [Set] that succeeds: after it, the file holds the encoding of the map
    with both entries. *)
Theorem X7_failed_set_repaired (fs : FileStorage) (w : World)
    (g : gmap string string) (key value key2 value2 : string) (err : error)
    (fs1 fs2 : FileStorage) (w1 w2 : World) :
  MemStorage_m (FileStorage_ms fs) = Some g ->
  FileStorage_Set key value (fs, w) = (Returns (Some err), (fs1, w1)) ->
  FileStorage_Set key2 value2 (fs1, w1) = (Returns None, (fs2, w2)) ->
  let m := Some (<[key2 := value2]> (<[key := value]> g)) in
  MemStorage_m (FileStorage_ms fs2) = m
  /\ contents w2 (File_name (FileStorage_f fs2)) = Encode_bytes m.
Proof.
  intros Hg H1 H2 m.
  assert (Storage_Set key value (Storage_File fs, w)
          = (Returns (Some err), (Storage_File fs1, w1))) as H1'.
  { cbn [Storage_Set]. rewrite H1. reflexivity. }
  apply Storage_Set_returned in H1' as (g' & Hg' & Hs).
  cbn [Storage_map] in Hg'. rewrite Hg in Hg'. injection Hg' as <-.
  cbn [Storage_with_map] in Hs. injection Hs as ->.
  apply FileStorage_Set_ok in H2 as (g2 & Hg2 & -> & Hfiles).
  cbn [with_map FileStorage_ms MemStorage_m] in Hg2. injection Hg2 as <-.
  split; [reflexivity|]. unfold contents.
  cbn [with_map FileStorage_f]. cbn [with_map FileStorage_f] in Hfiles.
  rewrite Hfiles, lookup_insert_eq. reflexivity.
Qed.

(** X7 after a [Set] that failed at the truncation. *)
Lemma X7_failed_set_repaired_witness :
  let name := "somefile.json" in
  let fs := file_store name (Some ∅) in
  let ft := {| fault_text := "truncate: no space left"; fault_count := 0 |} in
  let w := {| files := {[name := ""]}; faults := [Some ft]; trace := [] |} in
  let fs1 := file_store name (Some {["a" := "1"]}) in
  let fs2 := file_store name (Some {["a" := "1"; "b" := "2"]}) in
  let w1 := (FileStorage_Set "a" "1" (fs, w)).2.2 in
  let w2 := (FileStorage_Set "b" "2" (fs1, w1)).2.2 in
  FileStorage_Set "a" "1" (fs, w)
  = (Returns (Some (wrapError "unable to truncate file: "
                      (os_Error "truncate: no space left"))), (fs1, w1))
  /\ FileStorage_Set "b" "2" (fs1, w1) = (Returns None, (fs2, w2))
  /\ contents w2 name = sq "{'a':'1','b':'2'}" +:+ str1 newline.
Proof.
  intros name fs ft w fs1 fs2 w1 w2.
  assert (FileStorage_Set "a" "1" (fs, w)
          = (Returns (Some (wrapError "unable to truncate file: "
                              (os_Error "truncate: no space left"))),
             (fs1, w1))) as H1 by (vm_compute; reflexivity).
  assert (FileStorage_Set "b" "2" (fs1, w1) = (Returns None, (fs2, w2)))
    as H2 by (vm_compute; reflexivity).
  split; [exact H1|]. split; [exact H2|].
  destruct (X7_failed_set_repaired fs w ∅ "a" "1" "b" "2" _ fs1 fs2 w1 w2
              eq_refl H1 H2) as (_ & Hc).
  cbn [fs2 file_store FileStorage_f File_name] in Hc. rewrite Hc.
  vm_compute. reflexivity.
Defined.

(** X8. A memory store made by [NewMemStorage] holds, after any requests,
    each key with the value of the last [Set] of that key, and [Get] returns
    it, or the not-found error for a key that no [Set] named; the requests
    leave the operating system as it was. *)
Theorem X8_memory_store_replays_sets (rs : list request) (w : World)
    (key : string) :
  serve rs (NewMemStorage, w)
  = (Storage_Mem {| MemStorage_m := Some (replay rs ∅) |}, w)
  /\ Storage_Get key (serve rs (NewMemStorage, w))
     = (Returns (Get_result (replay rs ∅ !! key)), serve rs (NewMemStorage, w))
  /\ (forall value tail,
        replay (rs ++ req_Set key value :: map req_Get tail) ∅ !! key
        = Some value).
Proof.
  unfold NewMemStorage, make_map. rewrite serve_replay.
  split; [reflexivity|]. split; [apply Storage_Get_spec|].
  intros value tail. unfold replay. rewrite foldl_app. cbn [foldl].
  induction tail as [|k tail IH] using rev_ind.
  - cbn [map foldl]. apply lookup_insert_eq.
  - rewrite map_app, foldl_app. cbn [map foldl]. exact IH.
Qed.

(** X9. Whatever bytes the file holds and whatever faults the
    construction meets, a file store that is constructed holds keys and
    values that are valid UTF-8 only, so every value its [Get] returns is
    valid UTF-8. *)
Theorem X9_constructed_store_is_valid_utf8 (name : string) (w w' : World)
    (s : Storage) :
  NewFileStorage name w = (Returns (Some s, None), w') ->
  valid_map (Storage_map s)
  /\ forall key value w'',
       (Storage_Get key (s, w'')).1 = Returns (value, None) ->
       ValidString key = true /\ ValidString value = true.
Proof.
  intros H. apply NewFileStorage_ok in H as (m & -> & Hm).
  cbn [Storage_map file_store FileStorage_ms MemStorage_m].
  split; [exact Hm|]. intros key value w''. rewrite Storage_Get_spec.
  cbn [fst Storage_map file_store FileStorage_ms MemStorage_m].
  destruct m as [g|]; cbn [stored]; [|discriminate].
  destruct (g !! key) as [v|] eqn:E; cbn [Get_result]; [|discriminate].
  intros [= <-]. exact (Hm key v E).
Qed.

(** X9 on a file whose string has a byte that is not UTF-8: the store
    has the replacement character instead. *)
Lemma X9_constructed_store_is_valid_utf8_witness :
  let data := sq "{'a':'" +:+ str1 "255"%char +:+ sq "'}" in
  let w := one_file "somefile.json" data in
  let s := Storage_File
             (file_store "somefile.json"
                (Some {["a" := String "239" (String "191" (str1 "189"))]})) in
  NewFileStorage "somefile.json" w
  = (Returns (Some s, None), opened "somefile.json" w)
  /\ valid_map (Storage_map s).
Proof.
  intros data w s.
  assert (NewFileStorage "somefile.json" w
          = (Returns (Some s, None), opened "somefile.json" w)) as H
    by (vm_compute; reflexivity).
  split; [exact H|].
  apply (X9_constructed_store_is_valid_utf8 "somefile.json" w _ s H).
Defined.

(** X10. [getHandler] leaves the store and the operating system as they
    were. For a key the store has, it answers with the status 200, no
    header of its own and the value as the body. For a key the store does
    not have, it answers with the status 500, the header of a plain text
    and the line [err not found] as the body: the value it writes after the
    error is empty. *)
Theorem X10_getHandler_answers (json_text : error -> string) (r : Request)
    (s : Storage) (w : World) :
  let key := (map_index (mux_Vars r) "key").1 in
  (forall value,
     stored (Storage_map s) key = Some value ->
     getHandler json_text r (s, w, new_response)
     = (Returns tt,
        (s, w, {| handlerHeader := ∅;
                  wroteHeader := Some (StatusOK, ∅);
                  written := value |})))
  /\ (stored (Storage_map s) key = None ->
      getHandler json_text r (s, w, new_response)
      = (Returns tt,
         (s, w,
          {| handlerHeader := error_header;
             wroteHeader := Some (StatusInternalServerError, error_header);
             written := "err not found" +:+ str1 newline |}))).
Proof.
  intros key. unfold mux_Vars in key. subst key. rewrite getHandler_run.
  split; [intros value ->|intros ->]; reflexivity.
Qed.

(** X11. When [postHandler] has returned, [Set] on the key and the value
    of the request has returned, and the answer is the one to what [Set]
    returned: the status 200 and the value if it returned no error, the
    status 500 and the text of the error it returned otherwise; in both
    cases [getHandler] on the key, called next, answers with the status 200
    and the value. *)
Theorem X11_post_then_get (json_text : error -> string) (r r' : Request)
    (s s' : Storage) (w w' : World) (rw : ResponseWriter) :
  postHandler json_text r (s, w, new_response) = (Returns tt, (s', w', rw)) ->
  (map_index (mux_Vars r') "key").1 = (map_index (mux_Vars r) "key").1 ->
  let key := (map_index (mux_Vars r) "key").1 in
  let value := (map_index (mux_Vars r) "value").1 in
  exists err,
    Storage_Set key value (s, w) = (Returns err, (s', w'))
    /\ rw = match err with
            | None => response_ok value
            | Some e => response_error (Error json_text e)
            end
    /\ getHandler json_text r' (s', w', new_response)
       = (Returns tt, (s', w', response_ok value)).
Proof.
  intros H Hk key value. unfold mux_Vars in *. subst key value.
  rewrite postHandler_run in H. cbv zeta in H.
  rewrite getHandler_run, Hk.
  destruct (Storage_Set _ _ (s, w)) as [[o|msg] [s1 w1]] eqn:E;
    [|discriminate].
  pose proof E as E'.
  apply Storage_Set_returned in E' as (g & Hg & ->).
  assert (forall k v,
            stored (Storage_map (Storage_with_map s (Some (<[k := v]> g)))) k
            = Some v) as Hst.
  { intros k v. destruct s; cbn [Storage_with_map Storage_map with_map
                                   FileStorage_ms MemStorage_m stored];
      apply lookup_insert_eq. }
  exists o.
  destruct o as [e|]; injection H as <- <- <-; rewrite Hst;
    (split; [reflexivity|split; reflexivity]).
Qed.

(** X11 on a file store whose [Set] fails at the truncation: the answer
    to the post has the status 500, the answer to the get has the value. *)
Lemma X11_post_then_get_witness :
  let json_text := fun _ : error => "" in
  let r := {| Method := "POST"; URL_Path := "/file/a/1";
              Vars := Some {["key" := "a"; "value" := "1"]} |} in
  let r' := {| Method := "GET"; URL_Path := "/file/a";
               Vars := Some {["key" := "a"]} |} in
  let ft := {| fault_text := "truncate: no space left"; fault_count := 0 |} in
  let s := Storage_File (file_store "somefile.json" (Some ∅)) in
  let w := {| files := {["somefile.json" := ""]};
              faults := [Some ft]; trace := [] |} in
  let s' := Storage_File (file_store "somefile.json" (Some {["a" := "1"]})) in
  let w' := (postHandler json_text r (s, w, new_response)).2.1.2 in
  postHandler json_text r (s, w, new_response)
  = (Returns tt,
     (s', w',
      response_error "unable to truncate file: truncate: no space left"))
  /\ getHandler json_text r' (s', w', new_response)
     = (Returns tt, (s', w', response_ok "1")).
Proof.
  intros json_text r r' ft s w s' w'.
  assert (postHandler json_text r (s, w, new_response)
          = (Returns tt,
             (s', w',
              response_error
                "unable to truncate file: truncate: no space left"))) as H
    by (vm_compute; reflexivity).
  split; [exact H|].
  destruct (X11_post_then_get json_text r r' s s' w w' _ H eq_refl)
    as (err & _ & _ & Hget).
  exact Hget.
Defined.

(** X12. When [Set] of a file store fails at the truncation, the seek or
    the write, [postHandler] answers with the status 500 and, as the body,
    the line with the text that names the step and the text of the error of
    the operating system; the store has the entry all the same. *)
Theorem X12_post_reports_failed_step (json_text : error -> string)
    (r : Request) (fs : FileStorage) (w : World) (g : gmap string string)
    (st : step) (ft : fault) (rest : list (option fault)) :
  MemStorage_m (FileStorage_ms fs) = Some g ->
  faults w = (fail_at st ft ++ rest)%list ->
  let key := (map_index (mux_Vars r) "key").1 in
  let value := (map_index (mux_Vars r) "value").1 in
  exists w',
    postHandler json_text r (Storage_File fs, w, new_response)
    = (Returns tt,
       (Storage_File (with_map fs (Some (<[key := value]> g))), w',
        {| handlerHeader := error_header;
           wroteHeader := Some (StatusInternalServerError, error_header);
           written := step_text st +:+ fault_text ft +:+ str1 newline |}))
    /\ trace w' = (calls_to st (File_name (FileStorage_f fs))
                     (Encode_bytes (Some (<[key := value]> g)))
                   ++ trace w)%list.
Proof.
  intros Hg Hf key value. rewrite postHandler_run. cbv zeta.
  cbn [Storage_Set]. unfold mux_Vars in key, value. fold key. fold value.
  rewrite (FileStorage_Set_fail_at fs w g key value st ft rest Hg Hf).
  cbv beta iota. eexists.
  split; [unfold response_error; cbn [Error]; rewrite append_assoc;
          reflexivity|reflexivity].
Qed.

(** X12 at the write, three bytes having gone through. *)
Lemma X12_post_reports_failed_step_witness :
  let r := {| Method := "POST"; URL_Path := "/file/k/v";
              Vars := Some {["key" := "k"; "value" := "v"]} |} in
  let fs := file_store "somefile.json" (Some {["a" := "1"]}) in
  let ft := {| fault_text := "no space left on device"; fault_count := 3 |} in
  let w := {| files := {["somefile.json" := sq "{'a':'1'}"]};
              faults := [None; None; Some ft]; trace := [] |} in
  exists w',
    postHandler (fun _ => "") r (Storage_File fs, w, new_response)
    = (Returns tt,
       (Storage_File (with_map fs (Some (<["k" := "v"]> {["a" := "1"]}))), w',
        {| handlerHeader := error_header;
           wroteHeader := Some (StatusInternalServerError, error_header);
           written := "unable to encode data into the file: "
                      +:+ "no space left on device" +:+ str1 newline |}))
    /\ contents w' "somefile.json" = sq "{'a".
Proof.
  intros r fs ft w.
  destruct (X12_post_reports_failed_step (fun _ => "") r fs w {["a" := "1"]}
              step_Encode ft [] eq_refl eq_refl) as (w' & H & _).
  exists w'. split; [exact H|].
  assert (w' = (postHandler (fun _ => "") r
                  (Storage_File fs, w, new_response)).2.1.2) as ->
    by (rewrite H; reflexivity).
  vm_compute. reflexivity.
Defined.

(** X13. The server runs a handler on the requests of the calls only:
    [GET /file/{key}], [GET /memory/{key}], [POST /file/{key}/{value}] and
    [POST /memory/{key}/{value}], where the key and the value are parts of a
    canonical path. On such a request it does what the call does, with the
    store the path names; on every other request it answers by itself, a
    redirection or an error, and the stores and the operating system are as
    before. *)
Theorem X13_routes_of_the_server (json_text : error -> string)
    (req : Request) (st : Server * World) :
  (forall c, well_formed c -> is_request c req ->
     serverHandler_ServeHTTP json_text req st = run_call json_text c st)
  /\ ((forall c, well_formed c -> ~ is_request c req) ->
      exists r,
        serverHandler_ServeHTTP json_text req st = (Returns r, st)
        /\ (r = NotRouted \/ exists p, r = Redirected p))
  /\ ((exists c, well_formed c /\ is_request c req)
      \/ (forall c, well_formed c -> ~ is_request c req)).
Proof.
  split; [|split].
  - intros c Hc [Hm Hp]. apply serve_call; assumption.
  - apply serve_other.
  - apply is_request_dec.
Qed.

(** X14. A request changes the memory store only when it is a [POST] on
    [/memory/{key}/{value}], and the file store, the files and the trace of
    the system calls only when it is a [POST] on [/file/{key}/{value}]. *)
Theorem X14_requests_are_isolated (json_text : error -> string)
    (req : Request) (srv srv' : Server) (w w' : World) (r : outcome served) :
  wired srv ->
  serverHandler_ServeHTTP json_text req (srv, w) = (r, (srv', w')) ->
  (~ posts_to captured_memStorage req -> memStorage srv' = memStorage srv)
  /\ (~ posts_to captured_fileStorage req ->
      fileStorage srv' = fileStorage srv /\ w' = w).
Proof.
  intros Hw H.
  destruct (serve_cases json_text req (srv, w))
    as [(c & Hc & Hr & E)|(_ & r0 & E & _)]; rewrite E in H.
  - destruct (run_call_frame _ _ _ _ _ _ _ Hw H) as (_ & Hm & Hf). split.
    + intros Hno. apply Hm. intros k v ->. apply Hno. exists k, v. auto.
    + intros Hno. apply Hf. intros k v ->. apply Hno. exists k, v. auto.
  - injection H as _ <- <-. auto.
Qed.

(** X14 on the server as [main] starts it without a file, and a post to
    the memory store. *)
Lemma X14_requests_are_isolated_witness :
  let json_text := fun _ : error => "" in
  let srv := {| fileStorage :=
                  Some (Storage_File (file_store "somefile.json" (Some ∅)));
                memStorage := NewMemStorage |} in
  let w := opened "somefile.json" no_files in
  let srv' := {| fileStorage := fileStorage srv;
                 memStorage :=
                   Storage_Mem {| MemStorage_m := Some {["a" := "1"]} |} |} in
  main json_text no_files = (Returns (Serving srv), w)
  /\ serverHandler_ServeHTTP json_text (POST "/memory/a/1") (srv, w)
     = (Returns (Handled (response_ok "1")), (srv', w))
  /\ fileStorage srv' = fileStorage srv /\ w = w.
Proof.
  intros json_text srv w srv'.
  assert (serverHandler_ServeHTTP json_text (POST "/memory/a/1") (srv, w)
          = (Returns (Handled (response_ok "1")), (srv', w))) as H
    by (vm_compute; reflexivity).
  split; [vm_compute; reflexivity|]. split; [exact H|].
  assert (wired srv) as Hw.
  { split; [eexists; split; reflexivity|eexists; reflexivity]. }
  apply (X14_requests_are_isolated json_text _ srv srv' w w _ Hw H).
  intros (k & v & _ & _ & Hp). cbn [request_of POST URL_Path prefix_of] in Hp.
  cbn [String.append] in Hp. discriminate Hp.
Defined.

(** X15. Read your writes over HTTP, for either store: once a [POST] of a
    key and a value has been answered, with the status 200 or with the
    status 500, a [GET] of the key is answered with the status 200 and the
    value, whatever requests the server has served in between that are no
    [POST] of that key on that store. *)
Theorem X15_get_after_post (json_text : error -> string) (cap : captured)
    (key value : string) (reqs : list Request) (srv : Server) (w : World)
    (rw : ResponseWriter) (st1 st2 : Server * World)
    (rs : list (outcome served)) :
  wired srv ->
  well_formed (call_post cap key value) ->
  serverHandler_ServeHTTP json_text (request_of (call_post cap key value))
    (srv, w) = (Returns (Handled rw), st1) ->
  Forall (fun req => forall v, well_formed (call_post cap key v) ->
                               ~ is_request (call_post cap key v) req) reqs ->
  ListenAndServe json_text reqs st1 = (rs, st2) ->
  serverHandler_ServeHTTP json_text (request_of (call_get cap key)) st2
  = (Returns (Handled (response_ok value)), st2).
Proof.
  intros Hw Hc H Hno HL. destruct st1 as [srv1 w1], st2 as [srv2 w2].
  pose proof (serve_wired _ _ _ _ _ _ _ Hw H) as Hw1.
  rewrite (serve_call json_text (call_post cap key value)) in H
    by (exact Hc || reflexivity).
  unfold run_call in H. cbn [captured_of] in H.
  destruct (wired_store_of cap srv Hw) as (s & Hs). rewrite Hs in H.
  destruct (Storage_Set key value (s, w)) as [[o|msg] [s1 w1']] eqn:E;
    [|discriminate].
  apply Storage_Set_returned in E as (g & Hg & ->).
  assert (srv1 = set_store cap
                   (Storage_with_map s (Some (<[key := value]> g))) srv)
    as -> by (destruct o; injection H as _ <- _; reflexivity).
  destruct (ListenAndServe_keeps_key _ _ _ _ _ _ _ _ _ _ Hw1 Hno HL
              (store_of_set_store _ _ _)) as (Hw2 & s2 & Hs2 & Hk).
  rewrite (serve_call json_text (call_get cap key))
    by (apply Hc || reflexivity).
  unfold run_call. cbn [captured_of]. rewrite Hs2, Hk.
  replace (stored (Storage_map (Storage_with_map s (Some (<[key:=value]> g))))
                  key) with (Some value); [reflexivity|].
  destruct s; cbn [Storage_with_map Storage_map with_map FileStorage_ms
                    MemStorage_m stored]; rewrite lookup_insert_eq; reflexivity.
Qed.

(** X15 on the file store: the post fails at the seek and is answered
    with the status 500; after a post to the memory store and a post of
    another key, the get is answered with the value. *)
Lemma X15_get_after_post_witness :
  let json_text := fun _ : error => "" in
  let srv := {| fileStorage :=
                  Some (Storage_File (file_store "somefile.json" (Some ∅)));
                memStorage := NewMemStorage |} in
  let ft := {| fault_text := "seek: illegal seek"; fault_count := 0 |} in
  let w := {| files := {["somefile.json" := ""]};
              faults := [None; Some ft]; trace := [] |} in
  let st1 := (serverHandler_ServeHTTP json_text (POST "/file/a/1")
                (srv, w)).2 in
  let reqs := [POST "/memory/a/2"; POST "/file/b/3"; GET "/file/b"] in
  let st2 := (ListenAndServe json_text reqs st1).2 in
  serverHandler_ServeHTTP json_text (POST "/file/a/1") (srv, w)
  = (Returns (Handled (response_error
                         "unable to get the beginning of file: seek: illegal seek")),
     st1)
  /\ serverHandler_ServeHTTP json_text (GET "/file/a") st2
     = (Returns (Handled (response_ok "1")), st2).
Proof.
  intros json_text srv ft w st1 reqs st2.
  assert (serverHandler_ServeHTTP json_text (POST "/file/a/1") (srv, w)
          = (Returns (Handled (response_error
               "unable to get the beginning of file: seek: illegal seek")),
             st1)) as H by (vm_compute; reflexivity).
  split; [exact H|].
  assert (wired srv) as Hw.
  { split; [eexists; split; reflexivity|eexists; reflexivity]. }
  apply (X15_get_after_post json_text captured_fileStorage "a" "1" reqs srv w
           (response_error
              "unable to get the beginning of file: seek: illegal seek")
           st1 st2 (ListenAndServe json_text reqs st1).1 Hw).
  - split; reflexivity.
  - exact H.
  - repeat constructor; intros v _ [Hm Hp];
      cbn [request_of POST GET URL_Path Method prefix_of String.append] in *;
      discriminate.
  - unfold st2. destruct (ListenAndServe json_text reqs st1). reflexivity.
Defined.

(** X16. On the server [main] has started, whatever requests it has
    served, a [POST] on [/memory/{key}/{value}] is answered with the status
    200 and the value: it does not fail, does not panic, and leaves the
    file store and the operating system as they were. *)
Theorem X16_memory_post_succeeds (json_text : error -> string)
    (w0 w1 w : World) (srv0 srv : Server) (reqs : list Request)
    (rs : list (outcome served)) (key value : string) :
  main json_text w0 = (Returns (Serving srv0), w1) ->
  ListenAndServe json_text reqs (srv0, w1) = (rs, (srv, w)) ->
  well_formed (call_post captured_memStorage key value) ->
  exists g,
    memStorage srv = Storage_Mem {| MemStorage_m := Some g |}
    /\ serverHandler_ServeHTTP json_text
         (request_of (call_post captured_memStorage key value)) (srv, w)
       = (Returns (Handled (response_ok value)),
          ({| fileStorage := fileStorage srv;
              memStorage :=
                Storage_Mem {| MemStorage_m := Some (<[key := value]> g) |} |},
           w)).
Proof.
  intros Hmain HL Hc. apply main_serving in Hmain as (m & _ & _ & ->).
  assert (exists g, memStorage srv
                    = Storage_Mem {| MemStorage_m := Some g |}) as (g & Hg).
  { eapply ListenAndServe_mem_ok; [|exact HL]. reflexivity. }
  exists g. split; [exact Hg|].
  rewrite (serve_call json_text (call_post captured_memStorage key value))
    by (exact Hc || reflexivity).
  unfold run_call. cbn [captured_of store_of]. rewrite Hg. reflexivity.
Qed.

(** X16 after a post to the memory store and a request that no route
    takes. *)
Lemma X16_memory_post_succeeds_witness :
  let json_text := fun _ : error => "" in
  let srv0 := {| fileStorage :=
                   Some (Storage_File (file_store "somefile.json" (Some ∅)));
                 memStorage := NewMemStorage |} in
  let w1 := opened "somefile.json" no_files in
  let reqs := [POST "/memory/a/1"; GET "/memory/"] in
  let srv := {| fileStorage := fileStorage srv0;
                memStorage :=
                  Storage_Mem {| MemStorage_m := Some {["a" := "1"]} |} |} in
  main json_text no_files = (Returns (Serving srv0), w1)
  /\ ListenAndServe json_text reqs (srv0, w1)
     = ([Returns (Handled (response_ok "1")); Returns NotRouted], (srv, w1))
  /\ exists g,
       memStorage srv = Storage_Mem {| MemStorage_m := Some g |}
       /\ serverHandler_ServeHTTP json_text (POST "/memory/b/2") (srv, w1)
          = (Returns (Handled (response_ok "2")),
             ({| fileStorage := fileStorage srv;
                 memStorage :=
                   Storage_Mem
                     {| MemStorage_m := Some (<["b" := "2"]> g) |} |}, w1)).
Proof.
  intros json_text srv0 w1 reqs srv.
  assert (main json_text no_files = (Returns (Serving srv0), w1)) as H1
    by (vm_compute; reflexivity).
  assert (ListenAndServe json_text reqs (srv0, w1)
          = ([Returns (Handled (response_ok "1")); Returns NotRouted],
             (srv, w1))) as H2 by (vm_compute; reflexivity).
  split; [exact H1|]. split; [exact H2|].
  apply (X16_memory_post_succeeds json_text no_files w1 w1 srv0 srv reqs _
           "b" "2" H1 H2).
  split; reflexivity.
Defined.

(** X17. The server is started, a [POST] on [/file/{key}/{value}] with a
    key and a value that are valid UTF-8 is answered with the status 200,
    and the server serves requests that are no [POST] on the file store.
    When the server is started again, [somefile.json] being opened and read
    without a fault, it has the file store it had, so a [GET] of the key is
    answered with the value, and an empty memory store, so a [GET] on
    [/memory/] is answered with the error for every key. *)
Theorem X17_restart_keeps_the_file_store (json_text : error -> string)
    (w0 w1 w2 w3 : World) (srv srv2 srv3 : Server) (key value : string)
    (reqs : list Request) (rs : list (outcome served)) :
  main json_text w0 = (Returns (Serving srv), w1) ->
  well_formed (call_post captured_fileStorage key value) ->
  ValidString key = true -> ValidString value = true ->
  serverHandler_ServeHTTP json_text
    (request_of (call_post captured_fileStorage key value)) (srv, w1)
  = (Returns (Handled (response_ok value)), (srv2, w2)) ->
  Forall (fun req => ~ posts_to captured_fileStorage req) reqs ->
  ListenAndServe json_text reqs (srv2, w2) = (rs, (srv3, w3)) ->
  calm 2 w3 ->
  exists srv' w4,
    main json_text w3 = (Returns (Serving srv'), w4)
    /\ fileStorage srv' = fileStorage srv3
    /\ memStorage srv' = NewMemStorage
    /\ serverHandler_ServeHTTP json_text
         (request_of (call_get captured_fileStorage key)) (srv', w4)
       = (Returns (Handled (response_ok value)), (srv', w4))
    /\ forall k,
         well_formed (call_get captured_memStorage k) ->
         serverHandler_ServeHTTP json_text
           (request_of (call_get captured_memStorage k)) (srv', w4)
         = (Returns (Handled (response_error "err not found")), (srv', w4)).
Proof.
  intros Hmain Hc Hvk Hvv Hpost Hno HL Hcalm.
  pose proof (main_wired _ _ _ _ Hmain) as Hw.
  apply main_serving in Hmain as (m & _ & Hm & ->).
  pose proof (serve_wired _ _ _ _ _ _ _ Hw Hpost) as Hw2.
  rewrite (serve_call json_text (call_post captured_fileStorage key value))
    in Hpost by (exact Hc || reflexivity).
  unfold run_call in Hpost. cbn [captured_of store_of fileStorage] in Hpost.
  cbn [Storage_Set] in Hpost.
  destruct (FileStorage_Set key value (file_store "somefile.json" m, w1))
    as [[[e|]|msg] [fs' w']] eqn:E; try discriminate Hpost.
  injection Hpost as <- <-.
  apply FileStorage_Set_ok in E as (g & Hg & -> & Hfiles).
  cbn [file_store FileStorage_ms MemStorage_m] in Hg. subst m.
  destruct (ListenAndServe_keeps_file _ _ _ _ _ _ _ Hw2 Hno HL)
    as (_ & Hf3 & ->).
  assert (Decode (contents w' "somefile.json") io_EOF make_map
          = (Some (<[key := value]> g), None)) as Hd.
  { assert (contents w' "somefile.json"
            = Encode_bytes (Some (<[key := value]> g))) as ->.
    { unfold contents. rewrite Hfiles. simpl. rewrite lookup_insert_eq.
      reflexivity. }
    rewrite Decode_Encode_bytes, recode_valid
      by (apply valid_map_insert; assumption).
    reflexivity. }
  rewrite main_run, (NewFileStorage_calm _ _ Hcalm), Hd.
  cbn [decoded_store fst snd]. eexists _, _. split; [reflexivity|].
  split; [rewrite Hf3; reflexivity|]. split; [reflexivity|]. split.
  - rewrite (serve_call json_text (call_get captured_fileStorage key))
      by (apply Hc || reflexivity).
    unfold run_call.
    cbn [captured_of store_of fileStorage Storage_map FileStorage_ms
         MemStorage_m stored].
    rewrite lookup_insert_eq. reflexivity.
  - intros k Hk.
    rewrite (serve_call json_text (call_get captured_memStorage k))
      by (exact Hk || reflexivity).
    reflexivity.
Qed.

(** X17 on a server started without a file. *)
Lemma X17_restart_keeps_the_file_store_witness :
  let json_text := fun _ : error => "" in
  let srv := {| fileStorage :=
                  Some (Storage_File (file_store "somefile.json" (Some ∅)));
                memStorage := NewMemStorage |} in
  let w1 := opened "somefile.json" no_files in
  let st2 := (serverHandler_ServeHTTP json_text (POST "/file/a/1")
                (srv, w1)).2 in
  let reqs := [POST "/memory/b/2"; GET "/file/a"] in
  let st3 := (ListenAndServe json_text reqs st2).2 in
  main json_text no_files = (Returns (Serving srv), w1)
  /\ serverHandler_ServeHTTP json_text (POST "/file/a/1") (srv, w1)
     = (Returns (Handled (response_ok "1")), st2)
  /\ exists srv' w4,
       main json_text st3.2 = (Returns (Serving srv'), w4)
       /\ serverHandler_ServeHTTP json_text (GET "/file/a") (srv', w4)
          = (Returns (Handled (response_ok "1")), (srv', w4))
       /\ serverHandler_ServeHTTP json_text (GET "/memory/b") (srv', w4)
          = (Returns (Handled (response_error "err not found")), (srv', w4)).
Proof.
  intros json_text srv w1 st2 reqs st3.
  assert (main json_text no_files = (Returns (Serving srv), w1)) as H1
    by (vm_compute; reflexivity).
  assert (serverHandler_ServeHTTP json_text (POST "/file/a/1") (srv, w1)
          = (Returns (Handled (response_ok "1")), st2)) as H2
    by (vm_compute; reflexivity).
  split; [exact H1|]. split; [exact H2|].
  destruct (X17_restart_keeps_the_file_store json_text no_files w1 st2.2 st3.2
              srv st2.1 st3.1 "a" "1" reqs
              (ListenAndServe json_text reqs st2).1 H1)
    as (srv' & w4 & Hm & _ & _ & Hget & Hmem).
  - split; reflexivity.
  - reflexivity.
  - reflexivity.
  - destruct st2. exact H2.
  - repeat constructor; intros (k & v & _ & Hm & Hp);
      cbn [request_of POST GET URL_Path Method prefix_of String.append] in *;
      discriminate.
  - unfold st3. destruct st2. cbn [fst snd].
    destruct (ListenAndServe json_text reqs (s, w)) as [? []]. reflexivity.
  - vm_compute. repeat constructor.
  - exists srv', w4. split; [exact Hm|]. split; [exact Hget|].
    apply (Hmem "b"). reflexivity.
Defined.

(** X18. When [somefile.json] holds [null] after its leading white
    space, and is opened and read without a fault, [main] starts the server
    with a file store whose map is nil. On that server every [POST] on
    [/file/{key}/{value}] panics, the assignment being to an entry of a nil
    map, and leaves the server as it was, and every [GET] on [/file/{key}]
    is answered with the error: the server never stores an entry in its
    file. *)
Theorem X18_null_file_server (json_text : error -> string) (w : World)
    (ws rest : string) :
  calm 2 w ->
  blank ws ->
  contents w "somefile.json" = ws +:+ "null" +:+ rest ->
  let srv := {| fileStorage :=
                  Some (Storage_File (file_store "somefile.json" None));
                memStorage := NewMemStorage |} in
  main json_text w = (Returns (Serving srv), opened "somefile.json" w)
  /\ (forall w' key value,
        well_formed (call_post captured_fileStorage key value) ->
        serverHandler_ServeHTTP json_text
          (request_of (call_post captured_fileStorage key value)) (srv, w')
        = (Panics "assignment to entry in nil map", (srv, w')))
  /\ (forall w' key,
        well_formed (call_get captured_fileStorage key) ->
        serverHandler_ServeHTTP json_text
          (request_of (call_get captured_fileStorage key)) (srv, w')
        = (Returns (Handled (response_error "err not found")), (srv, w'))).
Proof.
  intros Hc Hws Hf srv. split; [|split].
  - rewrite main_run, (NewFileStorage_calm _ _ Hc), Hf.
    rewrite Decode_null by exact Hws. reflexivity.
  - intros w' key value Hk.
    rewrite (serve_call json_text (call_post captured_fileStorage key value))
      by (exact Hk || reflexivity).
    reflexivity.
  - intros w' key Hk.
    rewrite (serve_call json_text (call_get captured_fileStorage key))
      by (exact Hk || reflexivity).
    reflexivity.
Qed.

(** X18 on the file [null]. *)
Lemma X18_null_file_server_witness :
  let json_text := fun _ : error => "" in
  let w := one_file "somefile.json" "null" in
  let srv := {| fileStorage :=
                  Some (Storage_File (file_store "somefile.json" None));
                memStorage := NewMemStorage |} in
  main json_text w = (Returns (Serving srv), opened "somefile.json" w)
  /\ serverHandler_ServeHTTP json_text (POST "/file/a/1")
       (srv, opened "somefile.json" w)
     = (Panics "assignment to entry in nil map",
        (srv, opened "somefile.json" w))
  /\ serverHandler_ServeHTTP json_text (GET "/file/a")
       (srv, opened "somefile.json" w)
     = (Returns (Handled (response_error "err not found")),
        (srv, opened "somefile.json" w)).
Proof.
  intros json_text w srv.
  destruct (X18_null_file_server json_text w "" "") as (Hm & Hp & Hg).
  - constructor.
  - reflexivity.
  - reflexivity.
  - split; [exact Hm|]. split.
    + apply (Hp _ "a" "1"). split; reflexivity.
    + apply (Hg _ "a"). reflexivity.
Defined.

(** X19. [main] changes the content of no file, and its result is the one
    of [NewFileStorage] on [somefile.json]. When that returns an error,
    [main] ends with the message of [log.Fatalf], made of its own text and
    the text of that error, which says that the file could not be opened, or
    that its content could not be decoded; the error of the decoder it wraps
    is never [io.EOF]. Otherwise [main] starts the server with the file
    store that [NewFileStorage] returned, which holds valid UTF-8 only, and
    with an empty memory store. *)
Theorem X19_main_ends_or_serves (json_text : error -> string) (w : World) :
  exists r w',
    main json_text w = (Returns r, w')
    /\ (forall n, contents w' n = contents w n)
    /\ match r with
       | Fatal msg =>
         exists e,
           NewFileStorage "somefile.json" w = (Returns (None, Some e), w')
           /\ msg = "unable to create file storage: " +:+ Error json_text e
           /\ ((exists text,
                  e = wrapError "unable to open file somefile.json: "
                                (os_Error text))
               \/ (exists e',
                     e = wrapError
                           "unable to decode contents of file somefile.json: "
                           e'
                     /\ e' <> io_EOF))
       | Serving srv =>
         exists m,
           NewFileStorage "somefile.json" w
           = (Returns (Some (Storage_File (file_store "somefile.json" m)),
                       None), w')
           /\ valid_map m
           /\ srv = {| fileStorage :=
                         Some (Storage_File (file_store "somefile.json" m));
                       memStorage :=
                         Storage_Mem {| MemStorage_m := Some ∅ |} |}
       end.
Proof.
  pose proof (NewFileStorage_world "somefile.json" w) as [Hc _].
  cbv zeta in Hc. rewrite main_run.
  destruct (NewFileStorage_returns "somefile.json" w)
    as [(s & w' & E)|(e & w' & E)]; rewrite E in *; cbn [snd] in Hc.
  - eexists _, _. split; [reflexivity|]. split; [exact Hc|].
    apply NewFileStorage_ok in E as (m & -> & Hm).
    exists m. split; [reflexivity|]. split; [exact Hm|reflexivity].
  - eexists _, _. split; [reflexivity|]. split; [exact Hc|].
    exists e. split; [reflexivity|]. split; [reflexivity|].
    apply NewFileStorage_error in E as [(text & ->)|(e' & -> & He)].
    + left. exists text. reflexivity.
    + right. exists e'. split; [reflexivity|exact He].
Qed.

(** X20. When the write of [Set] fails after some bytes of the encoding
    have gone through, but not all of them up to the closing brace, the
    file is left with the beginning of the encoding, and a file store cannot
    be constructed from it any more: the construction, the file being opened
    and read without a fault, returns a decode error. *)
Theorem X20_partial_write_is_refused (fs : FileStorage) (w : World)
    (g : gmap string string) (key value : string) (ft : fault)
    (rest : list (option fault)) :
  MemStorage_m (FileStorage_ms fs) = Some g ->
  faults w = None :: None :: Some ft :: None :: None :: rest ->
  let name := File_name (FileStorage_f fs) in
  let data := Encode_bytes (Some (<[key := value]> g)) in
  (0 < fault_count ft)%nat ->
  (fault_count ft + 1 < String.length data)%nat ->
  exists err w',
    FileStorage_Set key value (fs, w)
    = (Returns (Some err), (with_map fs (Some (<[key := value]> g)), w'))
    /\ contents w' name = String.substring 0 (fault_count ft) data
    /\ exists e,
         e <> io_EOF
         /\ NewFileStorage name w'
            = (Returns (None,
                        Some (wrapError ("unable to decode contents of file "
                                         +:+ name +:+ ": ") e)),
               opened name w').
Proof.
  intros Hg Hf name data Hn Hlen.
  rewrite (FileStorage_Set_fail_at fs w g key value step_Encode ft
             (None :: None :: rest) Hg Hf).
  eexists _, _. split; [reflexivity|].
  match goal with |- contents ?w' _ = _ /\ _ => set (w1 := w') end.
  assert (contents w1 name = String.substring 0 (fault_count ft) data) as Hc.
  { unfold contents, w1. cbn [files files_left left_in_file].
    rewrite lookup_insert_eq. reflexivity. }
  split; [exact Hc|]. apply NewFileStorage_unreadable.
  - repeat constructor.
  - rewrite Hc. apply Encode_bytes_prefix; assumption.
Qed.

(** X20 on a store with an entry, the write failing after five bytes. *)
Lemma X20_partial_write_is_refused_witness :
  let name := "somefile.json" in
  let g : gmap string string := {["a" := "1"]} in
  let fs := file_store name (Some g) in
  let ft := {| fault_text := "no space left on device"; fault_count := 5 |} in
  let w := {| files := {[name := sq "{'a':'1'}"]};
              faults := [None; None; Some ft; None; None];
              trace := [] |} in
  exists err w',
    FileStorage_Set "b" "2" (fs, w)
    = (Returns (Some err), (with_map fs (Some (<["b" := "2"]> g)), w'))
    /\ contents w' name = sq "{'a':"
    /\ exists e,
         e <> io_EOF
         /\ NewFileStorage name w'
            = (Returns (None,
                        Some (wrapError
                                "unable to decode contents of file somefile.json: "
                                e)),
               opened name w').
Proof.
  intros name g fs ft w.
  destruct (X20_partial_write_is_refused fs w g "b" "2" ft [] eq_refl eq_refl)
    as (err & w' & H1 & H2 & H3).
  - cbn. lia.
  - vm_compute. lia.
  - exists err, w'. split; [exact H1|]. split; [|exact H3].
    etransitivity; [exact H2|]. vm_compute. reflexivity.
Defined.

(** X21. [Set] of a file store calls the operating system for its own
    file only, and in this order: the truncation to no length, the seek to
    the beginning, one write of the whole encoding; it stops at the first
    call that fails. It makes the three calls when it succeeds, and none
    when the map is nil, where it panics. No other file is changed. *)
Theorem X21_set_makes_three_calls (fs fs' : FileStorage) (w w' : World)
    (key value : string) (r : outcome (option error)) :
  FileStorage_Set key value (fs, w) = (r, (fs', w')) ->
  let name := File_name (FileStorage_f fs) in
  let data :=
    Encode_bytes
      (Some (<[key := value]> (default ∅ (MemStorage_m (FileStorage_ms fs)))))
  in
  ((exists st, trace w' = (calls_to st name data ++ trace w)%list
              /\ (r = Returns None -> st = step_Encode)
              /\ forall e, r = Returns (Some e) ->
                   exists ft, e = wrapError (step_text st)
                                    (os_Error (fault_text ft)))
   \/ (trace w' = trace w /\ MemStorage_m (FileStorage_ms fs) = None
       /\ r = Panics "assignment to entry in nil map"))
  /\ forall n, n <> name -> files w' !! n = files w !! n.
Proof.
  intros H name data.
  destruct (MemStorage_m (FileStorage_ms fs)) as [g|] eqn:Hg.
  2:{ rewrite FileStorage_Set_nil in H by exact Hg.
      injection H as <- _ <-. split; [right; auto|reflexivity]. }
  rewrite (FileStorage_Set_run _ _ _ _ g Hg) in H. subst data name.
  cbn [default].
  destruct (faults w) as [|[ft1|] [|[ft2|] [|[ft3|] rest]]]; cbn [tail] in H;
    injection H as <- _ <-; cbn [trace files];
    (split;
     [left;
      first
        [ exists step_Encode; split; [reflexivity|];
          split; [reflexivity|];
          intros e [= <-] + intros e [=]; eexists; reflexivity
        | exists step_Seek; split; [reflexivity|];
          split; [discriminate|]; intros e [= <-]; eexists; reflexivity
        | exists step_Truncate; split; [reflexivity|];
          split; [discriminate|]; intros e [= <-]; eexists; reflexivity ]
     |intros n Hne; rewrite ?lookup_insert_ne by congruence; reflexivity]).
Qed.

(** X21 on a [Set] that succeeds, the file holding something else
    before. *)
Lemma X21_set_makes_three_calls_witness :
  let name := "somefile.json" in
  let fs := file_store name (Some ∅) in
  let w := one_file name "old" in
  let fs' := file_store name (Some {["a" := "1"]}) in
  let w' := (FileStorage_Set "a" "1" (fs, w)).2.2 in
  FileStorage_Set "a" "1" (fs, w) = (Returns None, (fs', w'))
  /\ trace w' = [sys_Write name (sq "{'a':'1'}" +:+ str1 newline);
                 sys_Seek name 0 0; sys_Truncate name 0].
Proof.
  intros name fs w fs' w'.
  assert (FileStorage_Set "a" "1" (fs, w) = (Returns None, (fs', w'))) as H
    by (vm_compute; reflexivity).
  split; [exact H|].
  destruct (X21_set_makes_three_calls fs fs' w w' "a" "1" _ H)
    as [[(st & Ht & Hst & _)|(_ & Hnil & _)] _]; [|discriminate Hnil].
  rewrite (Hst eq_refl) in Ht. etransitivity; [exact Ht|].
  vm_compute. reflexivity.
Defined.
